(** * Customer Data Platform: the matching and merge engine

    A shallow embedding of [core/matcher.py], [core/cdp.py],
    [models/schemas.py] and [config.py].

    Conventions of the embedding.
    - A Python [str] is a [string] whose characters are the code points
      0..255 (Latin-1); [Optional[str]] is [option string].
    - A Python [float] is a binary64 primitive float, so the arithmetic
      of the scores is the arithmetic the interpreter performs.
    - A [Dict[str, str]] of conflicts is an insertion-ordered association
      list, because the order of [items()] reaches the reason string.
    - Methods that read or change the platform or the record store take
      the state and return the new state next to their result. *)

From Stdlib Require Import String Ascii List Bool Arith Lia ZArith.
From Stdlib Require Import PrimFloat Uint63.
From Stdlib Require Import Permutation.
Import ListNotations.

Set Warnings "-inexact-float".

Open Scope string_scope.
Open Scope list_scope.
Open Scope nat_scope.

(** ** Python [str] primitives used by the engine *)

(** [str.isspace] on one character, which is also the class [\s] of
    [re] on [str] patterns: TAB..CR, FS..US, SPACE, NEL and NBSP. *)
Definition isspace (c : ascii) : bool :=
  let n := nat_of_ascii c in
  ((9 <=? n) && (n <=? 13)) || ((28 <=? n) && (n <=? 32))
  || (n =? 133) || (n =? 160).

(** The class [\d] of [re] on [str] patterns: the decimal digits. *)
Definition isdecimal (c : ascii) : bool :=
  let n := nat_of_ascii c in (48 <=? n) && (n <=? 57).

(** [str.lower] on one character: A..Z and the Latin-1 capitals
    (192..222 except the multiplication sign 215) move up by 32. *)
Definition lower_char (c : ascii) : ascii :=
  let n := nat_of_ascii c in
  if ((65 <=? n) && (n <=? 90))
     || ((192 <=? n) && (n <=? 222) && negb (n =? 215))
  then ascii_of_nat (n + 32) else c.

Fixpoint lower (s : string) : string :=
  match s with
  | EmptyString => EmptyString
  | String c s' => String (lower_char c) (lower s')
  end.

Fixpoint lstrip (s : string) : string :=
  match s with
  | EmptyString => EmptyString
  | String c s' => if isspace c then lstrip s' else s
  end.

Fixpoint rstrip (s : string) : string :=
  match s with
  | EmptyString => EmptyString
  | String c s' =>
      match rstrip s' with
      | EmptyString => if isspace c then EmptyString else String c EmptyString
      | r => String c r
      end
  end.

(** [s.strip()] *)
Definition strip (s : string) : string := rstrip (lstrip s).

(** [re.sub(r'\s+', ' ', s)]: [in_run] records that the previous
    character belonged to the run of whitespace being replaced. *)
Fixpoint sub_spaces (in_run : bool) (s : string) : string :=
  match s with
  | EmptyString => EmptyString
  | String c s' =>
      if isspace c
      then if in_run then sub_spaces true s'
           else String " " (sub_spaces true s')
      else String c (sub_spaces false s')
  end.

(** [re.sub(r'[^\d]', '', s)] *)
Fixpoint sub_non_digits (s : string) : string :=
  match s with
  | EmptyString => EmptyString
  | String c s' =>
      if isdecimal c then String c (sub_non_digits s') else sub_non_digits s'
  end.

(** [s.split()]: the maximal runs of non-whitespace characters.
    [cur] is the word being read, in reverse. *)
Fixpoint rev_string (acc s : string) : string :=
  match s with
  | EmptyString => acc
  | String c s' => rev_string (String c acc) s'
  end.

Fixpoint split_ws (cur : string) (s : string) : list string :=
  match s with
  | EmptyString =>
      match cur with
      | EmptyString => []
      | _ => [rev_string EmptyString cur]
      end
  | String c s' =>
      if isspace c
      then match cur with
           | EmptyString => split_ws EmptyString s'
           | _ => rev_string EmptyString cur :: split_ws EmptyString s'
           end
      else split_ws (String c cur) s'
  end.

Definition split (s : string) : list string := split_ws EmptyString s.

(** Truth value of an [Optional[str]]: [None] and [""] are false. *)
Definition truthy (v : option string) : bool :=
  match v with
  | Some (String _ _) => true
  | _ => false
  end.

(** Truth value of a [str]. *)
Definition nonempty (s : string) : bool :=
  match s with
  | EmptyString => false
  | String _ _ => true
  end.

(** [x == y] on [Optional[str]] values. *)
Definition opt_eqb (x y : option string) : bool :=
  match x, y with
  | None, None => true
  | Some a, Some b => String.eqb a b
  | _, _ => false
  end.

(** ** core/matcher.py: the normalizers *)

Definition normalize_text (text : option string) : string :=
  match text with
  | Some t =>
      if nonempty t then
        let text1 := strip (lower t) in
        sub_spaces false text1
      else ""
  | None => ""
  end.

Definition normalize_document (doc : option string) : string :=
  match doc with
  | Some d => if nonempty d then sub_non_digits d else ""
  | None => ""
  end.

Definition normalize_phone (phone : option string) : string :=
  match phone with
  | Some p => if nonempty p then sub_non_digits p else ""
  | None => ""
  end.

(** ** difflib.SequenceMatcher, as [similarity_score] calls it

    [SequenceMatcher(None, a, b)]: no junk predicate, [autojunk] left at
    its default.  Sequences are lists of characters, indexed from 0. *)

Definition seq_of (s : string) : list ascii := list_ascii_of_string s.

Definition at_ (l : list ascii) (i : nat) : ascii := nth i l Ascii.zero.

(** A matching block [(i, j, k)]: [a[i:i+k] == b[j:j+k]]. *)
Definition Match : Type := nat * nat * nat.

(** A pending range [(alo, ahi, blo, bhi)] of [get_matching_blocks]. *)
Definition Range : Type := nat * nat * nat * nat.

Fixpoint indices_from (c : ascii) (b : list ascii) (i : nat) : list nat :=
  match b with
  | [] => []
  | x :: b' =>
      if Ascii.eqb x c then i :: indices_from c b' (S i)
      else indices_from c b' (S i)
  end.

(** [__chain_b], the purge of popular elements: with 200 elements or
    more, an element that occurs more than [n // 100 + 1] times loses
    its entry of [b2j]. *)
Definition popular (b : list ascii) (c : ascii) : bool :=
  let n := length b in
  (200 <=? n) && (n / 100 + 1 <? length (indices_from c b 0)).

(** [b2j.get(c, [])]: the positions of [c] in [b], increasing. *)
Definition b2j (b : list ascii) (c : ascii) : list nat :=
  if popular b c then [] else indices_from c b 0.

Fixpoint assoc_nat (k : nat) (d : list (nat * nat)) : nat :=
  match d with
  | [] => 0
  | (k', v) :: d' => if k' =? k then v else assoc_nat k d'
  end.

(** [j2len.get(j-1, 0)]: the key [-1] is never present. *)
Definition j2len_get (j2len : list (nat * nat)) (j : nat) : nat :=
  match j with
  | 0 => 0
  | S j' => assoc_nat j' j2len
  end.

(** The [for j in b2j.get(a[i], nothing)] loop of [find_longest_match],
    with its [continue] below [blo] and its [break] at [bhi]. *)
Fixpoint flm_inner (js : list nat) (blo bhi i : nat)
    (j2len newj2len : list (nat * nat)) (best : Match)
  : list (nat * nat) * Match :=
  match js with
  | [] => (newj2len, best)
  | j :: js' =>
      if j <? blo then flm_inner js' blo bhi i j2len newj2len best
      else if bhi <=? j then (newj2len, best)
      else
        let k := j2len_get j2len j + 1 in
        let '(_, _, bestsize) := best in
        let best' := if bestsize <? k then (i + 1 - k, j + 1 - k, k) else best in
        flm_inner js' blo bhi i j2len ((j, k) :: newj2len) best'
  end.

(** The [for i in range(alo, ahi)] loop; the state is [(j2len, best)]. *)
Definition flm_outer (a b : list ascii) (alo ahi blo bhi : nat)
  : list (nat * nat) * Match :=
  fold_left
    (fun st i =>
       let '(j2len, best) := st in
       flm_inner (b2j b (at_ a i)) blo bhi i j2len [] best)
    (seq alo (ahi - alo))
    ([], (alo, blo, 0)).

(** [while besti > alo and bestj > blo and a[besti-1] == b[bestj-1]]:
    no element is junk, so the test [not isbjunk(...)] is true. *)
Fixpoint extend_back (a b : list ascii) (alo blo : nat)
    (besti bestj bestsize : nat) : Match :=
  match besti, bestj with
  | S i', S j' =>
      if (alo <? besti) && (blo <? bestj) && Ascii.eqb (at_ a i') (at_ b j')
      then extend_back a b alo blo i' j' (S bestsize)
      else (besti, bestj, bestsize)
  | _, _ => (besti, bestj, bestsize)
  end.

(** [while besti+bestsize < ahi and bestj+bestsize < bhi and
    a[besti+bestsize] == b[bestj+bestsize]]; [room] is
    [ahi - (besti + bestsize)], the number of turns the first test
    still allows. *)
Fixpoint extend_forward (a b : list ascii) (bhi : nat)
    (besti bestj bestsize : nat) (room : nat) : Match :=
  match room with
  | 0 => (besti, bestj, bestsize)
  | S room' =>
      if (bestj + bestsize <? bhi)
         && Ascii.eqb (at_ a (besti + bestsize)) (at_ b (bestj + bestsize))
      then extend_forward a b bhi besti bestj (S bestsize) room'
      else (besti, bestj, bestsize)
  end.

(** [find_longest_match(alo, ahi, blo, bhi)].  The two closing loops
    that absorb junk never run: the junk set is empty. *)
Definition find_longest_match (a b : list ascii) (alo ahi blo bhi : nat)
  : Match :=
  let '(_, (besti, bestj, bestsize)) := flm_outer a b alo ahi blo bhi in
  let '(besti, bestj, bestsize) :=
    extend_back a b alo blo besti bestj bestsize in
  extend_forward a b bhi besti bestj bestsize (ahi - (besti + bestsize)).

(** The [while queue:] loop of [get_matching_blocks].  The head of
    [queue] is the element [queue.pop()] takes.  [None]: [fuel] turns
    were not enough to empty the queue. *)
Fixpoint matching_loop (fuel : nat) (a b : list ascii)
    (queue : list Range) (matching_blocks : list Match)
  : option (list Match) :=
  match queue with
  | [] => Some matching_blocks
  | (alo, ahi, blo, bhi) :: queue' =>
      match fuel with
      | 0 => None
      | S fuel' =>
          let '(i, j, k) := find_longest_match a b alo ahi blo bhi in
          if 0 <? k then
            let q1 :=
              if (alo <? i) && (blo <? j)
              then (alo, i, blo, j) :: queue' else queue' in
            let q2 :=
              if (i + k <? ahi) && (j + k <? bhi)
              then (i + k, ahi, j + k, bhi) :: q1 else q1 in
            matching_loop fuel' a b q2 (matching_blocks ++ [(i, j, k)])
          else matching_loop fuel' a b queue' matching_blocks
      end
  end.

(** Tuple comparison [x < y] on matching blocks. *)
Definition match_ltb (x y : Match) : bool :=
  let '(i1, j1, k1) := x in
  let '(i2, j2, k2) := y in
  (i1 <? i2) || ((i1 =? i2) && ((j1 <? j2) || ((j1 =? j2) && (k1 <? k2)))).

Fixpoint insert_match (x : Match) (l : list Match) : list Match :=
  match l with
  | [] => [x]
  | y :: l' => if match_ltb y x then y :: insert_match x l' else x :: l
  end.

(** [matching_blocks.sort()] *)
Definition sort_matches (l : list Match) : list Match :=
  fold_right insert_match [] l.

(** The loop that joins adjacent blocks; [(i1, j1, k1)] is the block
    being grown. *)
Fixpoint collapse_adjacent (blocks : list Match) (i1 j1 k1 : nat)
    (non_adjacent : list Match) : list Match :=
  match blocks with
  | [] => if 0 <? k1 then non_adjacent ++ [(i1, j1, k1)] else non_adjacent
  | (i2, j2, k2) :: blocks' =>
      if (i1 + k1 =? i2) && (j1 + k1 =? j2)
      then collapse_adjacent blocks' i1 j1 (k1 + k2) non_adjacent
      else
        collapse_adjacent blocks' i2 j2 k2
          (if 0 <? k1 then non_adjacent ++ [(i1, j1, k1)] else non_adjacent)
  end.

(** Turns that empty the queue of [get_matching_blocks] on [a]. *)
Definition blocks_fuel (a : list ascii) : nat := 2 * length a + 1.

Definition get_matching_blocks (a b : list ascii) : list Match :=
  let la := length a in
  let lb := length b in
  let matching_blocks :=
    match matching_loop (blocks_fuel a) a b [(0, la, 0, lb)] [] with
    | Some blocks => blocks
    | None => []
    end in
  let non_adjacent :=
    collapse_adjacent (sort_matches matching_blocks) 0 0 0 [] in
  non_adjacent ++ [(la, lb, 0)].

(** [sum(triple[-1] for triple in self.get_matching_blocks())] *)
Definition matches (a b : list ascii) : nat :=
  fold_left (fun acc m => acc + snd m) (get_matching_blocks a b) 0.

(** [float(n)] for a length or a count. *)
Definition float_of_nat (n : nat) : float :=
  PrimFloat.of_uint63 (Uint63.of_Z (Z.of_nat n)).

(** [_calculate_ratio(matches, length)] *)
Definition _calculate_ratio (matches length : nat) : float :=
  if 0 <? length
  then PrimFloat.div (PrimFloat.mul 2.0%float (float_of_nat matches))
                     (float_of_nat length)
  else 1.0%float.

(** [SequenceMatcher(None, a, b).ratio()] *)
Definition ratio (a b : list ascii) : float :=
  _calculate_ratio (matches a b) (length a + length b).

(** ** core/matcher.py: [similarity_score] *)

Definition similarity_score (str1 str2 : string) : float :=
  if negb (nonempty str1) || negb (nonempty str2) then 0.0%float
  else ratio (seq_of str1) (seq_of str2).

(** ** config.py *)

Definition MATCH_THRESHOLD : float := 0.7%float.
Definition SIMILARITY_THRESHOLD : float := 0.8%float.
Definition LOW_SIMILARITY_THRESHOLD : float := 0.3%float.

(** A weight dictionary: one entry for each of the six keys the
    matcher reads. *)
Record Weights : Type := mkWeights {
  w_documento : float;
  w_email : float;
  w_telefone : float;
  w_nome : float;
  w_endereco : float;
  w_data_nascimento : float
}.

Definition FIELD_WEIGHTS : Weights :=
  {| w_documento := 0.40%float;
     w_email := 0.25%float;
     w_telefone := 0.20%float;
     w_nome := 0.05%float;
     w_endereco := 0.05%float;
     w_data_nascimento := 0.05%float |}.

(** The attribute names of [CustomerData]. *)
Inductive Field : Type :=
  | f_nome | f_email | f_documento | f_telefone | f_endereco
  | f_cidade | f_estado | f_cep | f_data_nascimento | f_profissao.

Definition field_name (f : Field) : string :=
  match f with
  | f_nome => "nome"
  | f_email => "email"
  | f_documento => "documento"
  | f_telefone => "telefone"
  | f_endereco => "endereco"
  | f_cidade => "cidade"
  | f_estado => "estado"
  | f_cep => "cep"
  | f_data_nascimento => "data_nascimento"
  | f_profissao => "profissao"
  end.

Definition VALID_CUSTOMER_FIELDS : list Field :=
  [f_nome; f_email; f_documento; f_telefone; f_endereco;
   f_cidade; f_estado; f_cep; f_data_nascimento; f_profissao].

(** ** models/schemas.py *)

Record CustomerData : Type := mkCustomerData {
  email : option string;
  documento : option string;
  nome : option string;
  telefone : option string;
  endereco : option string;
  cidade : option string;
  estado : option string;
  cep : option string;
  data_nascimento : option string;
  profissao : option string
}.

(** [CustomerData()] *)
Definition CustomerData_default : CustomerData :=
  mkCustomerData None None None None None None None None None None.

Definition getattr (d : CustomerData) (f : Field) : option string :=
  match f with
  | f_nome => nome d
  | f_email => email d
  | f_documento => documento d
  | f_telefone => telefone d
  | f_endereco => endereco d
  | f_cidade => cidade d
  | f_estado => estado d
  | f_cep => cep d
  | f_data_nascimento => data_nascimento d
  | f_profissao => profissao d
  end.

Definition setattr (d : CustomerData) (f : Field) (v : option string)
  : CustomerData :=
  match f with
  | f_nome =>
      mkCustomerData (email d) (documento d) v (telefone d) (endereco d)
        (cidade d) (estado d) (cep d) (data_nascimento d) (profissao d)
  | f_email =>
      mkCustomerData v (documento d) (nome d) (telefone d) (endereco d)
        (cidade d) (estado d) (cep d) (data_nascimento d) (profissao d)
  | f_documento =>
      mkCustomerData (email d) v (nome d) (telefone d) (endereco d)
        (cidade d) (estado d) (cep d) (data_nascimento d) (profissao d)
  | f_telefone =>
      mkCustomerData (email d) (documento d) (nome d) v (endereco d)
        (cidade d) (estado d) (cep d) (data_nascimento d) (profissao d)
  | f_endereco =>
      mkCustomerData (email d) (documento d) (nome d) (telefone d) v
        (cidade d) (estado d) (cep d) (data_nascimento d) (profissao d)
  | f_cidade =>
      mkCustomerData (email d) (documento d) (nome d) (telefone d) (endereco d)
        v (estado d) (cep d) (data_nascimento d) (profissao d)
  | f_estado =>
      mkCustomerData (email d) (documento d) (nome d) (telefone d) (endereco d)
        (cidade d) v (cep d) (data_nascimento d) (profissao d)
  | f_cep =>
      mkCustomerData (email d) (documento d) (nome d) (telefone d) (endereco d)
        (cidade d) (estado d) v (data_nascimento d) (profissao d)
  | f_data_nascimento =>
      mkCustomerData (email d) (documento d) (nome d) (telefone d) (endereco d)
        (cidade d) (estado d) (cep d) v (profissao d)
  | f_profissao =>
      mkCustomerData (email d) (documento d) (nome d) (telefone d) (endereco d)
        (cidade d) (estado d) (cep d) (data_nascimento d) v
  end.

(** [value is None or str(value).strip() == ""] *)
Definition blank (v : option string) : bool :=
  match v with
  | None => true
  | Some s => negb (nonempty (strip s))
  end.

(** [asdict(self).values()], in the order of the declarations. *)
Definition values (d : CustomerData) : list (option string) :=
  [email d; documento d; nome d; telefone d; endereco d;
   cidade d; estado d; cep d; data_nascimento d; profissao d].

Definition is_empty (d : CustomerData) : bool := forallb blank (values d).

(** A conflict dictionary, in insertion order. *)
Definition Conflicts : Type := list (string * string).

Fixpoint dict_set (d : Conflicts) (k v : string) : Conflicts :=
  match d with
  | [] => [(k, v)]
  | (k', v') :: d' =>
      if String.eqb k' k then (k', v) :: d' else (k', v') :: dict_set d' k v
  end.

(** [d.update(other)] *)
Definition dict_update (d other : Conflicts) : Conflicts :=
  fold_left (fun acc kv => dict_set acc (fst kv) (snd kv)) other d.

Record MatchResult : Type := mkMatchResult {
  mr_customer_id : string;
  mr_score : float;
  mr_conflicts : Conflicts;
  mr_is_safe_match : bool;
  mr_reason : string
}.

Record HistoryEntry : Type := mkHistoryEntry {
  he_timestamp : string;
  he_field : string;
  he_old_value : option string;
  he_new_value : option string;
  he_source : string;
  he_confidence : float
}.

(** ** core/matcher.py: the field rules *)

Record CustomerMatcher : Type := mkCustomerMatcher {
  weights : Weights;
  similarity_threshold : float;
  low_similarity_threshold : float
}.

(** [CustomerMatcher(weights)]: [weights or FIELD_WEIGHTS]. *)
Definition CustomerMatcher_init (w : option Weights) : CustomerMatcher :=
  {| weights := match w with Some w' => w' | None => FIELD_WEIGHTS end;
     similarity_threshold := SIMILARITY_THRESHOLD;
     low_similarity_threshold := LOW_SIMILARITY_THRESHOLD |}.

Definition or_empty (v : option string) : string :=
  match v with Some s => s | None => "" end.

Definition _check_document_match (self : CustomerMatcher)
    (doc1 doc2 : option string) : float * Conflicts :=
  if negb (truthy doc1) || negb (truthy doc2) then (0.0%float, [])
  else
    let normalized_doc1 := normalize_document doc1 in
    let normalized_doc2 := normalize_document doc2 in
    if String.eqb normalized_doc1 normalized_doc2 && nonempty normalized_doc1
    then (w_documento (weights self), [])
    else if nonempty normalized_doc1 && nonempty normalized_doc2
            && negb (String.eqb normalized_doc1 normalized_doc2)
    then (0.0%float,
          dict_set [] "documento"
            ("Doc1: " ++ normalized_doc1 ++ " vs Doc2: " ++ normalized_doc2)%string)
    else (0.0%float, []).

Definition _check_email_match (self : CustomerMatcher)
    (email1 email2 : option string) : float :=
  if negb (truthy email1) || negb (truthy email2) then 0.0%float
  else if String.eqb (lower (or_empty email1)) (lower (or_empty email2))
  then w_email (weights self)
  else 0.0%float.

Definition _check_name_match (self : CustomerMatcher)
    (name1 name2 : option string) : float * Conflicts :=
  if negb (truthy name1) || negb (truthy name2) then (0.0%float, [])
  else
    let normalized_name1 := normalize_text name1 in
    let normalized_name2 := normalize_text name2 in
    let similarity := similarity_score normalized_name1 normalized_name2 in
    if PrimFloat.ltb (similarity_threshold self) similarity
    then (PrimFloat.mul (w_nome (weights self)) similarity, [])
    else if PrimFloat.ltb similarity (low_similarity_threshold self)
    then (0.0%float,
          dict_set [] "nome"
            ("Nome1: " ++ or_empty name1 ++ " vs Nome2: " ++ or_empty name2)%string)
    else (0.0%float, []).

Definition _check_phone_match (self : CustomerMatcher)
    (phone1 phone2 : option string) : float * Conflicts :=
  if negb (truthy phone1) || negb (truthy phone2) then (0.0%float, [])
  else
    let normalized_phone1 := normalize_phone phone1 in
    let normalized_phone2 := normalize_phone phone2 in
    if String.eqb normalized_phone1 normalized_phone2
       && nonempty normalized_phone1
    then (w_telefone (weights self), [])
    else if nonempty normalized_phone1 && nonempty normalized_phone2
            && negb (String.eqb normalized_phone1 normalized_phone2)
    then (0.0%float,
          dict_set [] "telefone"
            ("Tel1: " ++ normalized_phone1 ++ " vs Tel2: " ++ normalized_phone2)%string)
    else (0.0%float, []).

Definition _check_birthdate_match (self : CustomerMatcher)
    (date1 date2 : option string) : float * Conflicts :=
  if negb (truthy date1) || negb (truthy date2) then (0.0%float, [])
  else if opt_eqb date1 date2
  then (w_data_nascimento (weights self), [])
  else (0.0%float,
        dict_set [] "data_nascimento"
          ("Data1: " ++ or_empty date1 ++ " vs Data2: " ++ or_empty date2)%string).

Definition _check_address_match (self : CustomerMatcher)
    (addr1 addr2 : option string) : float :=
  if negb (truthy addr1) || negb (truthy addr2) then 0.0%float
  else
    let normalized_addr1 := normalize_text addr1 in
    let normalized_addr2 := normalize_text addr2 in
    let similarity := similarity_score normalized_addr1 normalized_addr2 in
    if PrimFloat.ltb 0.7%float similarity
    then PrimFloat.mul (w_endereco (weights self)) similarity
    else 0.0%float.

(** ** core/matcher.py: [calculate_match_score] *)

(** The locals [(total_score, total_weight, all_conflicts)] of
    [calculate_match_score] when it reaches the computation of the
    final score, that is lines 145 to 193 past the document test. *)
Definition match_totals (self : CustomerMatcher) (customer1 customer2 : CustomerData)
    (doc_score : float) : float * float * Conflicts :=
  let total_score := 0.0%float in
  let total_weight := 0.0%float in
  let all_conflicts : Conflicts := [] in
  (* Documento *)
  let total_score := PrimFloat.add total_score doc_score in
  let total_weight :=
    if truthy (documento customer1) && truthy (documento customer2)
    then PrimFloat.add total_weight (w_documento (weights self))
    else total_weight in
  (* Email *)
  let email_score :=
    _check_email_match self (email customer1) (email customer2) in
  let total_score := PrimFloat.add total_score email_score in
  let total_weight :=
    if truthy (email customer1) && truthy (email customer2)
    then PrimFloat.add total_weight (w_email (weights self))
    else total_weight in
  (* Nome *)
  let '(name_score, name_conflicts) :=
    _check_name_match self (nome customer1) (nome customer2) in
  let total_score := PrimFloat.add total_score name_score in
  let all_conflicts := dict_update all_conflicts name_conflicts in
  let total_weight :=
    if truthy (nome customer1) && truthy (nome customer2)
    then PrimFloat.add total_weight (w_nome (weights self))
    else total_weight in
  (* Telefone *)
  let '(phone_score, phone_conflicts) :=
    _check_phone_match self (telefone customer1) (telefone customer2) in
  let total_score := PrimFloat.add total_score phone_score in
  let all_conflicts := dict_update all_conflicts phone_conflicts in
  let total_weight :=
    if truthy (telefone customer1) && truthy (telefone customer2)
    then PrimFloat.add total_weight (w_telefone (weights self))
    else total_weight in
  (* Data de nascimento *)
  let '(birthdate_score, birthdate_conflicts) :=
    _check_birthdate_match self
      (data_nascimento customer1) (data_nascimento customer2) in
  let total_score := PrimFloat.add total_score birthdate_score in
  let all_conflicts := dict_update all_conflicts birthdate_conflicts in
  (* Endereco *)
  let address_score :=
    _check_address_match self (endereco customer1) (endereco customer2) in
  let total_score := PrimFloat.add total_score address_score in
  let total_weight :=
    if truthy (endereco customer1) && truthy (endereco customer2)
    then PrimFloat.add total_weight (w_endereco (weights self))
    else total_weight in
  (total_score, total_weight, all_conflicts).

Definition calculate_match_score (self : CustomerMatcher)
    (customer1 customer2 : CustomerData) : float * Conflicts :=
  let '(doc_score, doc_conflicts) :=
    _check_document_match self (documento customer1) (documento customer2) in
  match doc_conflicts with
  | _ :: _ => (0.0%float, doc_conflicts)
  | [] =>
      let '(total_score, total_weight, all_conflicts) :=
        match_totals self customer1 customer2 doc_score in
      let final_score :=
        if PrimFloat.ltb 0%float total_weight
        then PrimFloat.div total_score total_weight
        else 0.0%float in
      let final_score :=
        if 1 <? length all_conflicts
        then PrimFloat.mul final_score 0.5%float
        else final_score in
      (final_score, all_conflicts)
  end.

(** The denominator as the specification words it: the sum of the
    weights of the fields for which both records have a non-null value,
    over all six weighted fields. *)
Definition non_null (v : option string) : bool :=
  match v with Some _ => true | None => false end.

Definition spec_total_weight (self : CustomerMatcher)
    (customer1 customer2 : CustomerData) : float :=
  let add_if (present : bool) (w acc : float) : float :=
    if present then PrimFloat.add acc w else acc in
  let t := 0.0%float in
  let t := add_if (non_null (documento customer1) && non_null (documento customer2))
             (w_documento (weights self)) t in
  let t := add_if (non_null (email customer1) && non_null (email customer2))
             (w_email (weights self)) t in
  let t := add_if (non_null (nome customer1) && non_null (nome customer2))
             (w_nome (weights self)) t in
  let t := add_if (non_null (telefone customer1) && non_null (telefone customer2))
             (w_telefone (weights self)) t in
  let t := add_if (non_null (data_nascimento customer1)
                   && non_null (data_nascimento customer2))
             (w_data_nascimento (weights self)) t in
  let t := add_if (non_null (endereco customer1) && non_null (endereco customer2))
             (w_endereco (weights self)) t in
  t.

(** ** models/database.py: the record store *)

(** A row of [customers].  The ten data columns are held as a
    [CustomerData]; [sources] is the list its JSON text encodes;
    a [DateTime] is held as its ISO text. *)
Record CustomerModel : Type := mkCustomerModel {
  cm_id : string;
  cm_data : CustomerData;
  cm_created_at : string;
  cm_updated_at : string;
  cm_sources : list string;
  cm_confidence_score : float
}.

(** A row of [customer_history], without its generated key. *)
Record HistoryModel : Type := mkHistoryModel {
  hm_customer_id : string;
  hm_timestamp : string;
  hm_field : string;
  hm_old_value : option string;
  hm_new_value : option string;
  hm_source : string;
  hm_confidence : float
}.

Record Database : Type := mkDatabase {
  customers : list CustomerModel;
  customer_history : list HistoryModel
}.

(** The lookups [_find_potential_matches_in_db] sends to the store. *)
Inductive Query : Type :=
  | documento_like (pattern : string)
  | email_eq (value : string)
  | nome_ilike (pattern : string)
  | telefone_like (pattern : string).

(** A [LIKE] operator with the wildcards [%] and [_], comparing the
    other characters exactly. *)
Fixpoint like_match (pattern : string) : string -> bool :=
  match pattern with
  | EmptyString => fun s => negb (nonempty s)
  | String c p' =>
      if Ascii.eqb c "%"
      then fix any (s : string) : bool :=
             like_match p' s
             || match s with
                | EmptyString => false
                | String _ s' => any s'
                end
      else fun s =>
             match s with
             | EmptyString => false
             | String d s' =>
                 (Ascii.eqb c "_" || Ascii.eqb c d) && like_match p' s'
             end
  end.

(** The store's [lower()]: SQLite folds the letters A..Z and leaves
    every other character, accented capitals included, as it is. *)
Definition sql_lower_char (c : ascii) : ascii :=
  let n := nat_of_ascii c in
  if (65 <=? n) && (n <=? 90) then ascii_of_nat (n + 32) else c.

Fixpoint sql_lower (s : string) : string :=
  match s with
  | EmptyString => EmptyString
  | String c s' => String (sql_lower_char c) (sql_lower s')
  end.

(** [ILIKE] as the store evaluates it:
    [lower(value) LIKE lower(pattern)]. *)
Definition ilike_match (pattern s : string) : bool :=
  like_match (sql_lower pattern) (sql_lower s).

(** ** core/cdp.py *)

Record CustomerDataPlatform : Type := mkCustomerDataPlatform {
  db : Database;
  matcher : CustomerMatcher;
  match_threshold : float
}.

(** [CustomerDataPlatform()] over a store. *)
Definition CustomerDataPlatform_init (d : Database) : CustomerDataPlatform :=
  {| db := d;
     matcher := CustomerMatcher_init None;
     match_threshold := MATCH_THRESHOLD |}.

Definition _model_to_customer_data (model : CustomerModel) : CustomerData :=
  mkCustomerData
    (email (cm_data model)) (documento (cm_data model)) (nome (cm_data model))
    (telefone (cm_data model)) (endereco (cm_data model))
    (cidade (cm_data model)) (estado (cm_data model)) (cep (cm_data model))
    (data_nascimento (cm_data model)) (profissao (cm_data model)).

(** The exceptions the embedded methods raise. *)
Inductive Exception : Type :=
  | ValueError (message : string).

Inductive Outcome (A : Type) : Type :=
  | Return (a : A)
  | Raise (e : Exception).
Arguments Return {A} a.
Arguments Raise {A} e.

(** The dictionary [add_customer_data] returns, by its ['status'].
    The keys whose value is fixed for a status are left out:
    ['customer_id': None] and ['action': 'no_action'] of a conflict;
    ['action': 'new_customer'], ['confidence_score': 1.0],
    ['conflicts': {}] and ['changes_made': 0] of a creation. *)
Inductive AddResult : Type :=
  | conflict_detected (message : string) (conflicts : Conflicts)
      (suggested_actions : list string) (score : float) (reason : string)
  | error (message : string)
  | updated (customer_id action message : string) (confidence_score : float)
      (conflicts : Conflicts) (changes_made : nat)
  | created (customer_id message : string).

Definition status (r : AddResult) : string :=
  match r with
  | conflict_detected _ _ _ _ _ => "conflict_detected"
  | error _ => "error"
  | updated _ _ _ _ _ _ => "updated"
  | created _ _ => "created"
  end.

Fixpoint join (sep : string) (l : list string) : string :=
  match l with
  | [] => ""
  | [x] => x
  | x :: l' => (x ++ sep ++ join sep l')%string
  end.

Fixpoint mem_string (x : string) (l : list string) : bool :=
  match l with
  | [] => false
  | y :: l' => String.eqb y x || mem_string x l'
  end.

(** The loop that removes duplicated candidates, keeping the first. *)
Fixpoint unique_by_id (candidates : list CustomerModel) (seen_ids : list string)
  : list CustomerModel :=
  match candidates with
  | [] => []
  | candidate :: rest =>
      if mem_string (cm_id candidate) seen_ids
      then unique_by_id rest seen_ids
      else candidate :: unique_by_id rest (cm_id candidate :: seen_ids)
  end.

(** [matches.sort(key=lambda x: x.score, reverse=True)]: stable,
    highest score first. *)
Fixpoint insert_by_score (x : MatchResult) (l : list MatchResult)
  : list MatchResult :=
  match l with
  | [] => [x]
  | y :: l' =>
      if PrimFloat.ltb (mr_score x) (mr_score y)
      then y :: insert_by_score x l'
      else x :: l
  end.

Definition sort_by_score (l : list MatchResult) : list MatchResult :=
  fold_right insert_by_score [] l.

(** [self._merge_customer_data(existing, new_data, source)]; the extra
    argument is the ISO text of the clock reading the method takes. *)
Definition merge_field (existing new_data : CustomerData) (source : string)
    (current_time : string) (st : CustomerData * list HistoryEntry)
    (field : Field) : CustomerData * list HistoryEntry :=
  let '(merged, history) := st in
  let existing_value := getattr existing field in
  let new_value := getattr new_data field in
  if negb (blank new_value) then
    if negb (opt_eqb existing_value new_value) then
      (setattr merged field new_value,
       history ++ [mkHistoryEntry current_time (field_name field)
                     existing_value new_value source 1.0%float])
    else (setattr merged field new_value, history)
  else (setattr merged field existing_value, history).

Definition _merge_customer_data (existing new_data : CustomerData)
    (source : string) (current_time : string)
  : CustomerData * list HistoryEntry :=
  fold_left (merge_field existing new_data source current_time)
    VALID_CUSTOMER_FIELDS (CustomerData_default, []).

(** [max(x, y)] on floats: the first argument unless the second is
    greater. *)
Definition float_max (x y : float) : float :=
  if PrimFloat.ltb x y then y else x.

Definition a_tilde : string := String (ascii_of_nat 227) EmptyString.

Section Store.

(** The pattern operators of the store's engine: [value LIKE pattern]
    and [value ILIKE pattern] on two non-null texts. *)
Variable sql_like : string -> string -> bool.
Variable sql_ilike : string -> string -> bool.

Definition column_test (test : string -> bool) (v : option string) : bool :=
  match v with
  | Some s => test s
  | None => false
  end.

(** [session.query(CustomerModel).filter(...).all()] *)
Definition run_query (d : Database) (q : Query) : list CustomerModel :=
  match q with
  | documento_like p =>
      filter (fun m => column_test (sql_like p) (documento (cm_data m)))
        (customers d)
  | email_eq v =>
      filter (fun m => column_test (String.eqb v) (email (cm_data m)))
        (customers d)
  | nome_ilike p =>
      filter (fun m => column_test (sql_ilike p) (nome (cm_data m)))
        (customers d)
  | telefone_like p =>
      filter (fun m => column_test (sql_like p) (telefone (cm_data m)))
        (customers d)
  end.

(** The lookups [_find_potential_matches_in_db] issues for a record,
    in the order it issues them. *)
Definition candidate_queries (customer_data : CustomerData) : list Query :=
  (if truthy (documento customer_data) then
     let doc_normalized := normalize_document (documento customer_data) in
     if nonempty doc_normalized
     then [documento_like ("%" ++ doc_normalized ++ "%")%string] else []
   else [])
  ++
  (if truthy (email customer_data)
   then [email_eq (or_empty (email customer_data))] else [])
  ++
  (if truthy (nome customer_data) then
     let nome_normalized := normalize_text (nome customer_data) in
     if nonempty nome_normalized then
       let nome_parts := split nome_normalized in
       flat_map
         (fun part =>
            if 2 <? String.length part
            then [nome_ilike ("%" ++ part ++ "%")%string] else [])
         nome_parts
     else []
   else [])
  ++
  (if truthy (telefone customer_data) then
     let tel_normalized := normalize_phone (telefone customer_data) in
     if nonempty tel_normalized
     then [telefone_like ("%" ++ tel_normalized ++ "%")%string] else []
   else []).

Definition _find_potential_matches_in_db (self : CustomerDataPlatform)
    (customer_data : CustomerData) : list CustomerModel :=
  let candidates :=
    flat_map (run_query (db self)) (candidate_queries customer_data) in
  unique_by_id candidates [].

(** One turn of the loop of [_find_matching_customers]. *)
Definition match_candidate (self : CustomerDataPlatform)
    (customer_data : CustomerData) (customer_model : CustomerModel)
  : list MatchResult :=
  let existing_data := _model_to_customer_data customer_model in
  let '(score, conflicts) :=
    calculate_match_score (matcher self) customer_data existing_data in
  if PrimFloat.ltb score (match_threshold self) then []
  else
    match conflicts with
    | [] => [mkMatchResult (cm_id customer_model) score conflicts true
               "Match seguro"]
    | _ :: _ =>
        let conflict_details :=
          join ", " (map (fun kv => (fst kv ++ ": " ++ snd kv)%string) conflicts) in
        [mkMatchResult (cm_id customer_model) score conflicts false
           ("Conflitos detectados: " ++ conflict_details)%string]
    end.

Definition _find_matching_customers (self : CustomerDataPlatform)
    (customer_data : CustomerData) : list MatchResult :=
  let potential_matches := _find_potential_matches_in_db self customer_data in
  let matches := flat_map (match_candidate self customer_data) potential_matches in
  sort_by_score matches.

(** [session.query(CustomerModel).filter(CustomerModel.id == i).first()] *)
Definition first_by_id (d : Database) (i : string) : option CustomerModel :=
  find (fun m => String.eqb (cm_id m) i) (customers d).

(** The row [model] written back over the first row with its key. *)
Fixpoint write_row (model : CustomerModel) (rows : list CustomerModel)
  : list CustomerModel :=
  match rows with
  | [] => []
  | r :: rows' =>
      if String.eqb (cm_id r) (cm_id model) then model :: rows'
      else r :: write_row model rows'
  end.

Definition history_model (customer_id : string) (hist_entry : HistoryEntry)
  : HistoryModel :=
  {| hm_customer_id := customer_id;
     hm_timestamp := he_timestamp hist_entry;
     hm_field := he_field hist_entry;
     hm_old_value :=
       if truthy (he_old_value hist_entry) then he_old_value hist_entry else None;
     hm_new_value :=
       if truthy (he_new_value hist_entry) then he_new_value hist_entry else None;
     hm_source := he_source hist_entry;
     hm_confidence := he_confidence hist_entry |}.

(** [add_customer_data(customer_data, source, force_merge)].
    [current_time] and [merge_time] are the two readings of the clock
    (the method's own and the one [_merge_customer_data] takes) and
    [new_id] is the identifier [_generate_id] would draw. *)
Definition add_customer_data (self : CustomerDataPlatform)
    (customer_data : CustomerData) (source : string) (force_merge : bool)
    (current_time merge_time new_id : string)
  : AddResult * CustomerDataPlatform :=
  let matches := _find_matching_customers self customer_data in
  match matches with
  | best_match :: _ =>
      if negb (mr_is_safe_match best_match) && negb force_merge then
        (conflict_detected
           ("Conflitos detectados com cliente " ++ mr_customer_id best_match)%string
           (mr_conflicts best_match)
           [("Revisar manualmente o cliente " ++ mr_customer_id best_match)%string;
            "Usar force_merge=True se tiver certeza";
            "Criar cliente separado se forem pessoas diferentes"]
           (mr_score best_match) (mr_reason best_match),
         self)
      else
        match first_by_id (db self) (mr_customer_id best_match) with
        | None =>
            (error ("Cliente " ++ mr_customer_id best_match ++ " n" ++ a_tilde
                    ++ "o encontrado no banco")%string,
             self)
        | Some existing_model =>
            let existing_data := _model_to_customer_data existing_model in
            let '(merged_data, new_history) :=
              _merge_customer_data existing_data customer_data source merge_time in
            let data' :=
              fold_left (fun d field => setattr d field (getattr merged_data field))
                VALID_CUSTOMER_FIELDS (cm_data existing_model) in
            let existing_sources := cm_sources existing_model in
            let sources' :=
              if mem_string source existing_sources then existing_sources
              else existing_sources ++ [source] in
            let model' :=
              {| cm_id := cm_id existing_model;
                 cm_data := data';
                 cm_created_at := cm_created_at existing_model;
                 cm_updated_at := current_time;
                 cm_sources := sources';
                 cm_confidence_score :=
                   float_max (cm_confidence_score existing_model)
                     (mr_score best_match) |} in
            let db' :=
              {| customers := write_row model' (customers (db self));
                 customer_history :=
                   customer_history (db self)
                   ++ map (history_model (mr_customer_id best_match)) new_history |} in
            let action_type :=
              if force_merge && negb (mr_is_safe_match best_match)
              then "forced_merge" else "safe_merge" in
            (updated (mr_customer_id best_match) action_type
               ("Cliente " ++ mr_customer_id best_match ++ " atualizado")%string
               (mr_score best_match)
               (if negb (mr_is_safe_match best_match)
                then mr_conflicts best_match else [])
               (length new_history),
             mkCustomerDataPlatform db' (matcher self) (match_threshold self))
        end
  | [] =>
      let customer_id := new_id in
      let new_customer :=
        {| cm_id := customer_id;
           cm_data :=
             mkCustomerData (email customer_data) (documento customer_data)
               (nome customer_data) (telefone customer_data)
               (endereco customer_data) (cidade customer_data)
               (estado customer_data) (cep customer_data)
               (data_nascimento customer_data) (profissao customer_data);
           cm_created_at := current_time;
           cm_updated_at := current_time;
           cm_sources := [source];
           cm_confidence_score := 1.0%float |} in
      let db' :=
        {| customers := customers (db self) ++ [new_customer];
           customer_history := customer_history (db self) |} in
      (created customer_id ("Novo cliente " ++ customer_id ++ " criado")%string,
       mkCustomerDataPlatform db' (matcher self) (match_threshold self))
  end.

End Store.

(** [update_match_threshold(new_threshold)] *)
Definition update_match_threshold (self : CustomerDataPlatform)
    (new_threshold : float) : Outcome unit * CustomerDataPlatform :=
  if PrimFloat.leb 0.0%float new_threshold && PrimFloat.leb new_threshold 1.0%float
  then (Return tt,
        mkCustomerDataPlatform (db self) (matcher self) new_threshold)
  else (Raise (ValueError "Threshold deve estar entre 0.0 e 1.0"), self).

(** ** Shapes of normalized text, used to state the lemmas below *)

Definition no_leading_space (s : string) : bool :=
  match s with
  | EmptyString => true
  | String c _ => negb (isspace c)
  end.

Fixpoint no_trailing_space (s : string) : bool :=
  match s with
  | EmptyString => true
  | String c s' =>
      match s' with
      | EmptyString => negb (isspace c)
      | String _ _ => no_trailing_space s'
      end
  end.

(** ** The merge rule, field by field, used to state the lemmas below *)

Definition field_eqb (f g : Field) : bool :=
  String.eqb (field_name f) (field_name g).

(** The value [_merge_customer_data] is to give a field. *)
Definition merged_value (existing new_data : CustomerData) (f : Field)
  : option string :=
  if blank (getattr new_data f) then getattr existing f
  else getattr new_data f.

(** The field receives a present value that differs from the stored one. *)
Definition changed (existing new_data : CustomerData) (f : Field) : bool :=
  negb (blank (getattr new_data f))
  && negb (opt_eqb (getattr existing f) (getattr new_data f)).

(** The history entry of a changed field. *)
Definition change_entry (existing new_data : CustomerData) (source : string)
    (current_time : string) (f : Field) : HistoryEntry :=
  mkHistoryEntry current_time (field_name f)
    (getattr existing f) (getattr new_data f) source 1.0%float.

(** The entries of a history that are about one field. *)
Definition entries_for (f : Field) (history : list HistoryEntry)
  : list HistoryEntry :=
  filter (fun e => String.eqb (he_field e) (field_name f)) history.

(** Every character of the string is whitespace. *)
Fixpoint all_space (s : string) : bool :=
  match s with
  | EmptyString => true
  | String c s' => isspace c && all_space s'
  end.

(** The turns a queue of pending ranges can still take: a range over
    [n] elements of [a] takes one turn and leaves two ranges over
    fewer than [n] elements in all. *)
Fixpoint queue_measure (queue : list Range) : nat :=
  match queue with
  | [] => 0
  | (alo, ahi, _, _) :: queue' => 2 * (ahi - alo) + 1 + queue_measure queue'
  end.

(** The two strings have no character in common. *)
Definition share_no_char (a b : list ascii) : bool :=
  forallb (fun c => negb (existsb (Ascii.eqb c) b)) a.

(** The best block found so far lies in [a[alo:i]]. *)
Definition best_within (alo i : nat) (best : Match) : Prop :=
  let '(besti, _, bestsize) := best in alo <= besti /\ besti + bestsize <= i.

(** ** Records and stores of the examples *)

(** The document scenario: the same name and email, two documents. *)
Definition ana_existing : CustomerData :=
  mkCustomerData (Some "ana@x.com") (Some "123.456.789-00") (Some "Ana Silva")
    None None None None None None None.

Definition ana_incoming : CustomerData :=
  mkCustomerData (Some "ana@x.com") (Some "98765432100") (Some "Ana Silva")
    None None None None None None None.

(** A stored customer and an incoming record that agree on the email
    and the document and differ on the phone. *)
Definition phone_existing : CustomerData :=
  mkCustomerData (Some "x@y.com") (Some "123") None (Some "111")
    None None None None None None.

Definition phone_incoming : CustomerData :=
  mkCustomerData (Some "x@y.com") (Some "123") None (Some "222")
    None None None None None None.

Definition phone_store : CustomerDataPlatform :=
  CustomerDataPlatform_init
    (mkDatabase
       [mkCustomerModel "id1" phone_existing "t0" "t0" ["manual"] 1.0%float] []).

(** A record with an email and a birth date, and nothing else. *)
Definition email_and_birthdate : CustomerData :=
  mkCustomerData (Some "x@y.com") None None None None None None None
    (Some "1990-01-01") None.

(** A store that holds that record as its one customer. *)
Definition birthdate_store : CustomerDataPlatform :=
  CustomerDataPlatform_init
    (mkDatabase
       [mkCustomerModel "id1" email_and_birthdate "t0" "t0" ["manual"]
          1.0%float] []).

(** A record whose only value is the blank email [" "]. *)
Definition blank_email : CustomerData :=
  setattr CustomerData_default f_email (Some " ").

Definition empty_store : CustomerDataPlatform :=
  CustomerDataPlatform_init (mkDatabase [] []).

(** ** Shapes used to state further properties *)

(** The keys [calculate_match_score] can put in its conflict map. *)
Definition CONFLICT_KEYS : list string :=
  ["documento"; "nome"; "telefone"; "data_nascimento"].

(** The six fields that carry a weight. *)
Definition WEIGHTED_FIELDS : list Field :=
  [f_documento; f_email; f_nome; f_telefone; f_data_nascimento; f_endereco].

(** The block [(i, j, k)] is a common substring:
    [a[i:i+k] == b[j:j+k]], inside both sequences. *)
Definition is_match (a b : list ascii) (m : Match) : Prop :=
  let '(i, j, k) := m in
  i + k <= length a /\ j + k <= length b
  /\ forall t, t < k -> at_ a (i + t) = at_ b (j + t).

(** The characters the blocks cover. *)
Definition total_size (blocks : list Match) : nat :=
  fold_right (fun m acc => snd m + acc) 0 blocks.

(** What [find_longest_match] keeps about [j2len] after the element
    [a[i-1]]: the entry of [j] is the length of a common run that ends
    at [a[i-1]] and [b[j]], inside the two ranges. *)
Definition j2len_ok (a b : list ascii) (alo blo bhi i : nat)
    (j2len : list (nat * nat)) : Prop :=
  forall j,
    let k := assoc_nat j j2len in
    k <= i - alo /\ k <= j + 1 - blo /\ (0 < k -> j < bhi)
    /\ forall t, t < k -> at_ a (i - 1 - t) = at_ b (j - t).

(** What it keeps about the best block: a common substring of
    [a[alo:i]] and [b[blo:bhi]], which sits at [(alo, blo)] as long as
    it is empty. *)
Definition best_ok (a b : list ascii) (alo blo bhi i : nat) (best : Match)
  : Prop :=
  let '(besti, bestj, bestsize) := best in
  alo <= besti /\ besti + bestsize <= i
  /\ blo <= bestj /\ (0 < bestsize -> bestj + bestsize <= bhi)
  /\ (bestsize = 0 -> besti = alo /\ bestj = blo)
  /\ forall t, t < bestsize -> at_ a (besti + t) = at_ b (bestj + t).

(** The pending ranges lie inside the two sequences. *)
Definition range_ok (a b : list ascii) (r : Range) : Prop :=
  let '(alo, ahi, blo, bhi) := r in ahi <= length a /\ bhi <= length b.

(** The elements of [a], and of [b], the pending ranges still hold. *)
Fixpoint queue_room_a (queue : list Range) : nat :=
  match queue with
  | [] => 0
  | (alo, ahi, _, _) :: queue' => (ahi - alo) + queue_room_a queue'
  end.

Fixpoint queue_room_b (queue : list Range) : nat :=
  match queue with
  | [] => 0
  | (_, _, blo, bhi) :: queue' => (bhi - blo) + queue_room_b queue'
  end.

(** ['customer_id'] of the dictionary [add_customer_data] returns. *)
Definition result_customer_id (r : AddResult) : option string :=
  match r with
  | created customer_id _ => Some customer_id
  | updated customer_id _ _ _ _ _ => Some customer_id
  | conflict_detected _ _ _ _ _ => None
  | error _ => None
  end.

(** ['changes_made'] of that dictionary, as [result.get('changes_made', 0)]. *)
Definition result_changes_made (r : AddResult) : nat :=
  match r with
  | updated _ _ _ _ _ changes_made => changes_made
  | _ => 0
  end.

(** The key and the creation time of every row, in the order of the table. *)
Definition store_keys (d : Database) : list (string * string) :=
  map (fun m => (cm_id m, cm_created_at m)) (customers d).

(** A record that matches no customer of [phone_store]. *)
Definition other_email : CustomerData :=
  setattr CustomerData_default f_email (Some "z@z.com").

(** ** models/schemas.py: [Customer] and [SearchCriteria] *)

Record Customer : Type := mkCustomer {
  c_id : string;
  c_data : CustomerData;
  c_created_at : string;
  c_updated_at : string;
  c_history : list HistoryEntry;
  c_sources : list string;
  c_confidence_score : float
}.

Record SearchCriteria : Type := mkSearchCriteria {
  sc_nome : option string;
  sc_email : option string;
  sc_documento : option string;
  sc_telefone : option string;
  sc_cidade : option string;
  sc_estado : option string;
  sc_profissao : option string
}.

(** [SearchCriteria.to_dict()]: the fields that are neither null nor
    blank, in the order of the declarations. *)
Definition SearchCriteria_to_dict (criteria : SearchCriteria)
  : list (Field * string) :=
  flat_map
    (fun kv : Field * option string =>
       match snd kv with
       | Some v => if negb (blank (Some v)) then [(fst kv, v)] else []
       | None => []
       end)
    [(f_nome, sc_nome criteria); (f_email, sc_email criteria);
     (f_documento, sc_documento criteria); (f_telefone, sc_telefone criteria);
     (f_cidade, sc_cidade criteria); (f_estado, sc_estado criteria);
     (f_profissao, sc_profissao criteria)].

(** ** core/cdp.py: reading and deleting customers *)

(** [model.history]: the rows of [customer_history] that refer to the
    row, in the order of the table. *)
Definition history_rows (d : Database) (customer_id : string)
  : list HistoryModel :=
  filter (fun h => String.eqb (hm_customer_id h) customer_id)
    (customer_history d).

Definition history_entry (h : HistoryModel) : HistoryEntry :=
  mkHistoryEntry (hm_timestamp h) (hm_field h) (hm_old_value h)
    (hm_new_value h) (hm_source h) (hm_confidence h).

Definition _model_to_customer (d : Database) (model : CustomerModel) : Customer :=
  let customer_data := _model_to_customer_data model in
  let history := map history_entry (history_rows d (cm_id model)) in
  mkCustomer (cm_id model) customer_data (cm_created_at model)
    (cm_updated_at model) history (cm_sources model)
    (cm_confidence_score model).

Definition get_customer (self : CustomerDataPlatform) (customer_id : string)
  : option Customer :=
  match first_by_id (db self) customer_id with
  | Some model => Some (_model_to_customer (db self) model)
  | None => None
  end.

(** [get_all_customers(limit)]: [None] and [0] both mean no limit. *)
Definition get_all_customers (self : CustomerDataPlatform) (limit : option nat)
  : list Customer :=
  let models :=
    match limit with
    | Some (S n) => firstn (S n) (customers (db self))
    | _ => customers (db self)
    end in
  map (_model_to_customer (db self)) models.

Definition get_customer_history (self : CustomerDataPlatform)
    (customer_id : string) : list HistoryEntry :=
  match get_customer self customer_id with
  | Some customer => c_history customer
  | None => []
  end.

(** [delete_customer(customer_id)]: the row with that key goes, and
    with it (cascade) the history rows that refer to it. *)
Definition delete_customer (self : CustomerDataPlatform) (customer_id : string)
  : bool * CustomerDataPlatform :=
  match first_by_id (db self) customer_id with
  | Some customer =>
      (true,
       mkCustomerDataPlatform
         (mkDatabase
            (filter (fun m => negb (String.eqb (cm_id m) (cm_id customer)))
               (customers (db self)))
            (filter (fun h => negb (String.eqb (hm_customer_id h) (cm_id customer)))
               (customer_history (db self))))
         (matcher self) (match_threshold self))
  | None => (false, self)
  end.

Section CriteriaSearch.

Variable sql_ilike : string -> string -> bool.

(** [search_customers(criteria)], called with a criteria object: one
    [ILIKE '%value%'] filter for each entry of its dictionary. *)
Definition search_customers (self : CustomerDataPlatform)
    (criteria : SearchCriteria) : list Customer :=
  let search_dict := SearchCriteria_to_dict criteria in
  let models :=
    fold_left
      (fun rows (kv : Field * string) =>
         if nonempty (snd kv) then
           filter
             (fun m =>
                column_test (sql_ilike ("%" ++ snd kv ++ "%")%string)
                  (getattr (cm_data m) (fst kv)))
             rows
         else rows)
      search_dict (customers (db self)) in
  map (_model_to_customer (db self)) models.

End CriteriaSearch.

(** The store holds no history row about the customer. *)
Definition no_history_of (d : Database) (customer_id : string) : Prop :=
  history_rows d customer_id = [].

(** Every field of the criteria is null or blank. *)
Definition criteria_blank (criteria : SearchCriteria) : bool :=
  forallb blank
    [sc_nome criteria; sc_email criteria; sc_documento criteria;
     sc_telefone criteria; sc_cidade criteria; sc_estado criteria;
     sc_profissao criteria].

(** A record with a short name and a city: no field a lookup uses. *)
Definition keyless_record : CustomerData :=
  mkCustomerData None None (Some "Li Wu") None (Some "Rua A, 1")
    (Some "Recife") None None None None.

(** Criteria whose only entry is blank. *)
Definition blank_criteria : SearchCriteria :=
  mkSearchCriteria (Some "  ") None None None None None None.

(** ** services/import_service.py: [execute_import] *)

Record ImportDetail : Type := mkImportDetail {
  d_row : nat;
  d_customer : string;
  d_status : string;
  d_message : string;
  d_customer_id : option string;
  d_changes_made : nat
}.

Record ImportResult : Type := mkImportResult {
  total_processed : nat;
  n_created : nat;
  n_updated : nat;
  n_conflicts : nat;
  n_errors : nat;
  details : list ImportDetail
}.

(** [ImportResult()] *)
Definition ImportResult_default : ImportResult :=
  mkImportResult 0 0 0 0 0 [].

(** A row of the import: a dictionary from column names to texts, as
    the list of its items (no key twice). *)
Definition Row : Type := list (string * string).

(** [d.get(key)] *)
Fixpoint dict_get (d : Row) (key : string) : option string :=
  match d with
  | [] => None
  | (k, v) :: d' => if String.eqb k key then Some v else dict_get d' key
  end.

(** The [CustomerData] built from [valid_fields], the items of the row
    whose key is one of [VALID_CUSTOMER_FIELDS]; a field without an
    item keeps its default [None]. *)
Definition customer_data_of_row (customer_dict : Row) : CustomerData :=
  fold_left
    (fun d f => setattr d f (dict_get customer_dict (field_name f)))
    VALID_CUSTOMER_FIELDS CustomerData_default.

(** ['message'] of the dictionary [add_customer_data] returns. *)
Definition result_message (r : AddResult) : string :=
  match r with
  | conflict_detected message _ _ _ _ => message
  | error message => message
  | updated _ _ message _ _ _ => message
  | created _ message => message
  end.

(** The external readings one call of [add_customer_data] consumes:
    the two clock readings and the identifier drawn. *)
Definition Readings : Type := string * string * string.

(** The counter a status raises: [result.created += 1] and the like. *)
Definition count_status (result : ImportResult) (st : string) : ImportResult :=
  if String.eqb st "created" then
    mkImportResult (total_processed result) (n_created result + 1)
      (n_updated result) (n_conflicts result) (n_errors result) (details result)
  else if String.eqb st "updated" then
    mkImportResult (total_processed result) (n_created result)
      (n_updated result + 1) (n_conflicts result) (n_errors result)
      (details result)
  else if String.eqb st "conflict_detected" then
    mkImportResult (total_processed result) (n_created result)
      (n_updated result) (n_conflicts result + 1) (n_errors result)
      (details result)
  else
    mkImportResult (total_processed result) (n_created result)
      (n_updated result) (n_conflicts result) (n_errors result + 1)
      (details result).

(** One turn of the loop of [execute_import], on row [i] (from 0). *)
Definition import_row (sql_like sql_ilike : string -> string -> bool)
    (source : string) (force_merge : bool) (readings : nat -> Readings)
    (st : ImportResult * CustomerDataPlatform) (i : nat) (customer_dict : Row)
  : ImportResult * CustomerDataPlatform :=
  let result := fst st in
  let cdp := snd st in
  let customer_data := customer_data_of_row customer_dict in
  let current_time := fst (fst (readings i)) in
  let merge_time := snd (fst (readings i)) in
  let new_id := snd (readings i) in
  let add :=
    add_customer_data sql_like sql_ilike cdp customer_data source force_merge
      current_time merge_time new_id in
  let add_result := fst add in
  let result :=
    mkImportResult (total_processed result + 1) (n_created result)
      (n_updated result) (n_conflicts result) (n_errors result)
      (details result) in
  let result := count_status result (status add_result) in
  let detail :=
    mkImportDetail (i + 1)
      (match dict_get customer_dict "nome" with
       | Some n => n
       | None => ("Nome n" ++ a_tilde ++ "o informado")%string
       end)
      (status add_result) (result_message add_result)
      (result_customer_id add_result) (result_changes_made add_result) in
  (mkImportResult (total_processed result) (n_created result)
     (n_updated result) (n_conflicts result) (n_errors result)
     (details result ++ [detail]),
   snd add).

Fixpoint import_rows (sql_like sql_ilike : string -> string -> bool)
    (source : string) (force_merge : bool) (readings : nat -> Readings)
    (st : ImportResult * CustomerDataPlatform) (i : nat) (customers : list Row)
  : ImportResult * CustomerDataPlatform :=
  match customers with
  | [] => st
  | customer_dict :: rest =>
      import_rows sql_like sql_ilike source force_merge readings
        (import_row sql_like sql_ilike source force_merge readings st i
           customer_dict)
        (S i) rest
  end.

(** [execute_import(customers, source, force_merge)], without a
    progress callback. *)
Definition execute_import (sql_like sql_ilike : string -> string -> bool)
    (cdp : CustomerDataPlatform) (customers : list Row) (source : string)
    (force_merge : bool) (readings : nat -> Readings)
  : ImportResult * CustomerDataPlatform :=
  import_rows sql_like sql_ilike source force_merge readings
    (ImportResult_default, cdp) 0 customers.

(** The changes the details of an import report, in all. *)
Definition changes_reported (l : list ImportDetail) : nat :=
  fold_right (fun d acc => d_changes_made d + acc) 0 l.

(** ** utils/helpers.py: display formats *)

(** [s[a:b]] for [0 <= a <= b], and [s[a:]]. *)
Definition slice (s : string) (a b : nat) : string := substring a (b - a) s.

Definition slice_from (s : string) (a : nat) : string :=
  substring a (String.length s - a) s.

Definition clean_document (document : option string) : string :=
  match document with
  | Some d => if nonempty d then sub_non_digits d else ""
  | None => ""
  end.

Definition clean_phone (phone : option string) : string :=
  match phone with
  | Some p => if nonempty p then sub_non_digits p else ""
  | None => ""
  end.

Definition format_document (document : option string) : string :=
  if negb (truthy document) then ""
  else
    let clean_doc := clean_document document in
    if String.length clean_doc =? 11 then
      (slice clean_doc 0 3 ++ "." ++ slice clean_doc 3 6 ++ "."
       ++ slice clean_doc 6 9 ++ "-" ++ slice_from clean_doc 9)%string
    else if String.length clean_doc =? 14 then
      (slice clean_doc 0 2 ++ "." ++ slice clean_doc 2 5 ++ "."
       ++ slice clean_doc 5 8 ++ "/" ++ slice clean_doc 8 12 ++ "-"
       ++ slice_from clean_doc 12)%string
    else or_empty document.

Definition format_phone (phone : option string) : string :=
  if negb (truthy phone) then ""
  else
    let clean_phone_num := clean_phone phone in
    if String.length clean_phone_num =? 11 then
      ("(" ++ slice clean_phone_num 0 2 ++ ") " ++ slice clean_phone_num 2 3
       ++ " " ++ slice clean_phone_num 3 7 ++ "-"
       ++ slice_from clean_phone_num 7)%string
    else if String.length clean_phone_num =? 10 then
      ("(" ++ slice clean_phone_num 0 2 ++ ") " ++ slice clean_phone_num 2 6
       ++ "-" ++ slice_from clean_phone_num 6)%string
    else or_empty phone.

Definition format_cep (cep : option string) : string :=
  if negb (truthy cep) then ""
  else
    let clean_cep := sub_non_digits (or_empty cep) in
    if String.length clean_cep =? 8 then
      (slice clean_cep 0 5 ++ "-" ++ slice_from clean_cep 5)%string
    else or_empty cep.

(** [text[:n]] for any integer [n]: a negative [n] counts from the end. *)
Definition slice_to (text : string) (n : Z) : string :=
  let len := Z.of_nat (String.length text) in
  let stop := if (n <? 0)%Z then Z.max (len + n) 0 else Z.min n len in
  substring 0 (Z.to_nat stop) text.

(** [truncate_text(text, max_length)] *)
Definition truncate_text (text : option string) (max_length : Z) : string :=
  if negb (truthy text) then ""
  else if (Z.of_nat (String.length (or_empty text)) <=? max_length)%Z
  then or_empty text
  else (slice_to (or_empty text) (max_length - 3) ++ "...")%string.

(** Every character of the string is a decimal digit. *)
Fixpoint all_digits (s : string) : bool :=
  match s with
  | EmptyString => true
  | String c s' => isdecimal c && all_digits s'
  end.

(** ** utils/validators.py: [BusinessRuleValidator] *)

(** [s.split(sep)] for a one-character separator: the pieces between
    the occurrences of [sep], empty pieces kept.  [cur] is the piece
    being read, in reverse. *)
Fixpoint split_on (sep : ascii) (cur : string) (s : string) : list string :=
  match s with
  | EmptyString => [rev_string EmptyString cur]
  | String c s' =>
      if Ascii.eqb c sep then rev_string EmptyString cur :: split_on sep EmptyString s'
      else split_on sep (String c cur) s'
  end.

(** ['@' in s] *)
Fixpoint contains_char (c : ascii) (s : string) : bool :=
  match s with
  | EmptyString => false
  | String d s' => Ascii.eqb d c || contains_char c s'
  end.

(** [email.split('@')[1] if '@' in email else ''] *)
Definition email_domain (email : string) : string :=
  if contains_char "@" email
  then nth 1 (split_on "@" EmptyString email) ""
  else "".

Definition _check_critical_conflicts (existing new : CustomerData) : list string :=
  let conflicts : list string := [] in
  let conflicts :=
    if truthy (documento existing) && truthy (documento new)
       && negb (opt_eqb (documento existing) (documento new))
    then conflicts ++ ["Conflito de documento: valores diferentes"]
    else conflicts in
  let conflicts :=
    if truthy (email existing) && truthy (email new)
       && negb (opt_eqb (email existing) (email new))
    then
      let existing_domain := email_domain (or_empty (email existing)) in
      let new_domain := email_domain (or_empty (email new)) in
      if nonempty existing_domain && nonempty new_domain
         && negb (String.eqb existing_domain new_domain)
      then conflicts ++ [("Conflito de email: dom" ++ String (ascii_of_nat 237) ""
                          ++ "nios diferentes")%string]
      else conflicts
    else conflicts in
  conflicts.

Definition _check_significant_changes (existing new : CustomerData) : list string :=
  let changes : list string := [] in
  let changes :=
    if truthy (nome existing) && truthy (nome new) then
      let similarity :=
        similarity_score (lower (or_empty (nome existing)))
          (lower (or_empty (nome new))) in
      if PrimFloat.ltb similarity 0.7%float
      then changes ++ [("Mudan" ++ String (ascii_of_nat 231) ""
                        ++ "a significativa no nome")%string]
      else changes
    else changes in
  let changes :=
    if truthy (telefone existing) && truthy (telefone new)
       && negb (opt_eqb (telefone existing) (telefone new))
    then changes ++ [("Mudan" ++ String (ascii_of_nat 231) "" ++ "a de telefone")%string]
    else changes in
  let changes :=
    if truthy (endereco existing) && truthy (endereco new)
       && negb (opt_eqb (endereco existing) (endereco new))
    then changes ++ [("Mudan" ++ String (ascii_of_nat 231) "" ++ "a de endere"
                      ++ String (ascii_of_nat 231) "" ++ "o")%string]
    else changes in
  changes.

Definition validate_merge_operation (existing_customer new_customer : CustomerData)
  : bool * list string :=
  let critical_conflicts :=
    _check_critical_conflicts existing_customer new_customer in
  match critical_conflicts with
  | _ :: _ => (false, critical_conflicts)
  | [] =>
      (true, _check_significant_changes existing_customer new_customer)
  end.

(** A document as bare digits. *)
Definition cpf_bare : option string := Some "12345678900".

(** The stored record of the document scenario with its document bare. *)
Definition ana_bare : CustomerData :=
  mkCustomerData (Some "ana@x.com") cpf_bare (Some "Ana Silva")
    None None None None None None None.

(** * Properties *)

(** ** Characters *)

Ltac ascii_cases c :=
  destruct c as [[] [] [] [] [] [] [] []]; vm_compute; reflexivity.

Lemma isspace_lower_char (c : ascii) : isspace (lower_char c) = isspace c.
Proof. ascii_cases c. Qed.

Lemma lower_char_idem (c : ascii) : lower_char (lower_char c) = lower_char c.
Proof. ascii_cases c. Qed.

Lemma isspace_not_decimal (c : ascii) : isspace c = true -> isdecimal c = false.
Proof.
  destruct c as [[] [] [] [] [] [] [] []]; vm_compute; congruence.
Qed.

(** ** The normalizers *)

Lemma lower_idem (s : string) : lower (lower s) = lower s.
Proof.
  induction s as [|c s IH]; simpl; [reflexivity|].
  now rewrite lower_char_idem, IH.
Qed.

Lemma lower_lstrip (s : string) : lower (lstrip s) = lstrip (lower s).
Proof.
  induction s as [|c s IH]; simpl; [reflexivity|].
  rewrite isspace_lower_char. now destruct (isspace c).
Qed.

Lemma lower_rstrip (s : string) : lower (rstrip s) = rstrip (lower s).
Proof.
  induction s as [|c s IH]; simpl; [reflexivity|].
  rewrite <- IH, isspace_lower_char.
  destruct (rstrip s); simpl; [now destruct (isspace c)|reflexivity].
Qed.

Lemma lower_strip (s : string) : lower (strip s) = strip (lower s).
Proof. unfold strip. now rewrite lower_rstrip, lower_lstrip. Qed.

Lemma lower_sub_spaces (s : string) (b : bool) :
  lower (sub_spaces b s) = sub_spaces b (lower s).
Proof.
  revert b; induction s as [|c s IH]; intro b; simpl; [reflexivity|].
  rewrite isspace_lower_char.
  destruct (isspace c); [destruct b|]; simpl; now rewrite IH.
Qed.

Lemma sub_spaces_idem (s : string) (b : bool) :
  sub_spaces b (sub_spaces b s) = sub_spaces b s.
Proof.
  revert b; induction s as [|c s IH]; intro b; simpl; [reflexivity|].
  destruct (isspace c) eqn:Hc.
  - destruct b; simpl; [apply IH|]. now rewrite IH.
  - simpl. rewrite Hc. destruct b; now rewrite IH.
Qed.

Lemma no_leading_lstrip (s : string) : no_leading_space (lstrip s) = true.
Proof.
  induction s as [|c s IH]; simpl; [reflexivity|].
  destruct (isspace c) eqn:Hc; [exact IH|]. simpl. now rewrite Hc.
Qed.

Lemma no_leading_rstrip (s : string) :
  no_leading_space s = true -> no_leading_space (rstrip s) = true.
Proof.
  destruct s as [|c s]; simpl; [reflexivity|]. intro Hc.
  destruct (isspace c) eqn:E; [discriminate|].
  destruct (rstrip s); simpl; now rewrite E.
Qed.

Lemma no_leading_sub_spaces (s : string) :
  no_leading_space s = true -> no_leading_space (sub_spaces false s) = true.
Proof.
  destruct s as [|c s]; simpl; [reflexivity|].
  destruct (isspace c) eqn:E; [discriminate|]. intros _. simpl. now rewrite E.
Qed.

Lemma lstrip_fixed (s : string) : no_leading_space s = true -> lstrip s = s.
Proof.
  destruct s as [|c s]; simpl; [reflexivity|].
  now destruct (isspace c).
Qed.

Lemma no_trailing_rstrip (s : string) : no_trailing_space (rstrip s) = true.
Proof.
  induction s as [|c s IH]; simpl; [reflexivity|].
  destruct (rstrip s) as [|d r] eqn:E.
  - destruct (isspace c) eqn:Hc; simpl; [reflexivity|now rewrite Hc].
  - exact IH.
Qed.

Lemma rstrip_fixed (s : string) : no_trailing_space s = true -> rstrip s = s.
Proof.
  induction s as [|c s IH]; [reflexivity|].
  cbn [no_trailing_space rstrip]. destruct s as [|d s'].
  - simpl. now destruct (isspace c).
  - intro H. now rewrite (IH H).
Qed.

Lemma sub_spaces_nonempty (s : string) (b : bool) :
  no_trailing_space s = true -> nonempty s = true ->
  nonempty (sub_spaces b s) = true.
Proof.
  revert b; induction s as [|c s IH]; intros b Hs Hn; [discriminate|].
  cbn [no_trailing_space] in Hs. destruct s as [|d s'].
  - simpl. destruct (isspace c); [discriminate|reflexivity].
  - remember (String d s') as r eqn:Er. cbn [sub_spaces].
    destruct (isspace c); [destruct b|]; try reflexivity.
    apply IH; [exact Hs|now subst r].
Qed.

Lemma no_trailing_cons (c : ascii) (r : string) :
  nonempty r = true -> no_trailing_space (String c r) = no_trailing_space r.
Proof. destruct r; [discriminate|reflexivity]. Qed.

Lemma no_trailing_sub_spaces (s : string) (b : bool) :
  no_trailing_space s = true -> no_trailing_space (sub_spaces b s) = true.
Proof.
  revert b; induction s as [|c s IH]; intros b Hs; [reflexivity|].
  cbn [no_trailing_space] in Hs. destruct s as [|d s'].
  - simpl. destruct (isspace c) eqn:Hc; [discriminate|]. simpl. now rewrite Hc.
  - assert (Hn : nonempty (String d s') = true) by reflexivity.
    remember (String d s') as r eqn:Er. cbn [sub_spaces].
    destruct (isspace c); [destruct b|]; try (now apply IH);
      rewrite no_trailing_cons; auto using sub_spaces_nonempty.
Qed.

Lemma strip_shape (s : string) :
  no_leading_space (strip s) = true /\ no_trailing_space (strip s) = true.
Proof.
  unfold strip; split.
  - apply no_leading_rstrip, no_leading_lstrip.
  - apply no_trailing_rstrip.
Qed.

Lemma strip_fixed (s : string) :
  no_leading_space s = true -> no_trailing_space s = true -> strip s = s.
Proof.
  intros H1 H2. unfold strip. rewrite (lstrip_fixed _ H1). now apply rstrip_fixed.
Qed.

(** The text [normalize_text] builds is a fixed point of each of its
    three steps. *)
Lemma normal_text_fixed (t : string) :
  let n := sub_spaces false (strip (lower t)) in
  sub_spaces false (strip (lower n)) = n.
Proof.
  intro n. subst n.
  destruct (strip_shape (lower t)) as [Hl Ht].
  rewrite lower_sub_spaces, lower_strip, lower_idem.
  rewrite (strip_fixed (sub_spaces false (strip (lower t)))).
  - apply sub_spaces_idem.
  - now apply no_leading_sub_spaces.
  - now apply no_trailing_sub_spaces.
Qed.

Lemma normalize_text_idem (s : option string) :
  normalize_text (Some (normalize_text s)) = normalize_text s.
Proof.
  destruct s as [t|]; [|reflexivity].
  destruct t as [|c t]; [reflexivity|].
  change (normalize_text (Some (String c t)))
    with (sub_spaces false (strip (lower (String c t)))).
  unfold normalize_text.
  destruct (nonempty (sub_spaces false (strip (lower (String c t))))) eqn:E.
  - apply normal_text_fixed.
  - destruct (sub_spaces false (strip (lower (String c t))));
      [reflexivity|discriminate].
Qed.

Lemma sub_non_digits_idem (s : string) :
  sub_non_digits (sub_non_digits s) = sub_non_digits s.
Proof.
  induction s as [|c s IH]; simpl; [reflexivity|].
  destruct (isdecimal c) eqn:Hc; simpl; [|exact IH]. now rewrite Hc, IH.
Qed.

Lemma normalize_document_idem (s : option string) :
  normalize_document (Some (normalize_document s)) = normalize_document s.
Proof.
  destruct s as [d|]; [|reflexivity].
  destruct d as [|c d]; [reflexivity|].
  change (normalize_document (Some (String c d)))
    with (sub_non_digits (String c d)).
  unfold normalize_document.
  destruct (nonempty (sub_non_digits (String c d))) eqn:E.
  - apply sub_non_digits_idem.
  - destruct (sub_non_digits (String c d)); [reflexivity|discriminate].
Qed.

(** C10. Each normalizer is idempotent, on every string and on the
    null input: normalizing a normalized value changes nothing. *)
Theorem normalizers_idempotent (s : option string) :
  normalize_text (Some (normalize_text s)) = normalize_text s
  /\ normalize_document (Some (normalize_document s)) = normalize_document s
  /\ normalize_phone (Some (normalize_phone s)) = normalize_phone s.
Proof.
  split; [apply normalize_text_idem|].
  split; [apply normalize_document_idem|].
  exact (normalize_document_idem s).
Qed.

(** ** The document rule of [calculate_match_score] *)

Lemma normalize_document_truthy (d : option string) :
  nonempty (normalize_document d) = true -> truthy d = true.
Proof.
  destruct d as [[|c s]|]; simpl; auto.
Qed.

Lemma document_conflict (self : CustomerMatcher) (doc1 doc2 : option string) :
  nonempty (normalize_document doc1) = true ->
  nonempty (normalize_document doc2) = true ->
  normalize_document doc1 <> normalize_document doc2 ->
  _check_document_match self doc1 doc2
  = (0.0%float,
     [("documento",
       ("Doc1: " ++ normalize_document doc1 ++ " vs Doc2: "
        ++ normalize_document doc2)%string)]).
Proof.
  intros H1 H2 Hne. unfold _check_document_match.
  rewrite (normalize_document_truthy _ H1), (normalize_document_truthy _ H2).
  apply String.eqb_neq in Hne. cbn [negb orb].
  now rewrite Hne, H1, H2.
Qed.

(** C1. When the two documents are both non-empty and unequal once
    reduced to their digits, the score is 0.0 and the conflict map
    holds the document conflict and nothing else, whatever the other
    fields of the two records are. *)
Theorem document_conflict_is_eliminatory
    (self : CustomerMatcher) (a b : CustomerData) :
  nonempty (normalize_document (documento a)) = true ->
  nonempty (normalize_document (documento b)) = true ->
  normalize_document (documento a) <> normalize_document (documento b) ->
  calculate_match_score self a b
  = (0.0%float,
     [("documento",
       ("Doc1: " ++ normalize_document (documento a) ++ " vs Doc2: "
        ++ normalize_document (documento b))%string)]).
Proof.
  intros H1 H2 Hne. unfold calculate_match_score.
  now rewrite (document_conflict self _ _ H1 H2 Hne).
Qed.

Lemma document_conflict_is_eliminatory_witness :
  calculate_match_score (CustomerMatcher_init None) ana_incoming ana_existing
  = (0.0%float, [("documento", "Doc1: 98765432100 vs Doc2: 12345678900")]).
Proof.
  apply (document_conflict_is_eliminatory (CustomerMatcher_init None)
           ana_incoming ana_existing).
  - reflexivity.
  - reflexivity.
  - vm_compute. discriminate.
Defined.

(** Raw texts alone do not make a conflict: a document without any
    digit normalizes to the empty text and counts as absent. *)
Example document_without_digits_is_no_conflict :
  _check_document_match (CustomerMatcher_init None) (Some "abc") (Some "123")
  = (0.0%float, []).
Proof. reflexivity. Qed.

(** ** The match threshold *)

(** C9. A threshold outside [0, 1] raises [ValueError] and leaves the
    platform, and so the stored threshold, as it was; a threshold
    within [0, 1] is accepted and becomes the stored threshold. *)
Theorem update_match_threshold_validates
    (self : CustomerDataPlatform) (t : float) :
  (PrimFloat.leb 0%float t && PrimFloat.leb t 1%float = false ->
   exists msg,
     update_match_threshold self t = (Raise (ValueError msg), self))
  /\ (PrimFloat.leb 0%float t && PrimFloat.leb t 1%float = true ->
      fst (update_match_threshold self t) = Return tt
      /\ match_threshold (snd (update_match_threshold self t)) = t
      /\ db (snd (update_match_threshold self t)) = db self
      /\ matcher (snd (update_match_threshold self t)) = matcher self).
Proof.
  unfold update_match_threshold. split; intro H; rewrite H.
  - eexists. reflexivity.
  - repeat split.
Qed.

Lemma update_match_threshold_validates_witness :
  (exists msg,
     update_match_threshold empty_store
       1.5%float
     = (Raise (ValueError msg), empty_store))
  /\ match_threshold
       (snd (update_match_threshold
               empty_store 0.9%float))
     = 0.9%float.
Proof.
  split.
  - apply (update_match_threshold_validates
             empty_store 1.5%float).
    reflexivity.
  - apply (update_match_threshold_validates
             empty_store 0.9%float).
    reflexivity.
Defined.

(** ** The merge engine *)

Lemma field_eqb_spec (f g : Field) : reflect (f = g) (field_eqb f g).
Proof.
  destruct f, g; vm_compute; constructor; congruence.
Qed.

Lemma field_eqb_refl (f : Field) : field_eqb f f = true.
Proof. destruct (field_eqb_spec f f); congruence. Qed.

Lemma getattr_setattr (d : CustomerData) (f g : Field) (v : option string) :
  getattr (setattr d f v) g = if field_eqb f g then v else getattr d g.
Proof. destruct f, g; reflexivity. Qed.

Lemma in_VALID_CUSTOMER_FIELDS (f : Field) : In f VALID_CUSTOMER_FIELDS.
Proof. destruct f; simpl; tauto. Qed.

Lemma NoDup_VALID_CUSTOMER_FIELDS : NoDup VALID_CUSTOMER_FIELDS.
Proof.
  unfold VALID_CUSTOMER_FIELDS.
  repeat (constructor; [simpl; intuition discriminate|]). constructor.
Qed.

Lemma CustomerData_ext (d1 d2 : CustomerData) :
  (forall f, getattr d1 f = getattr d2 f) -> d1 = d2.
Proof.
  intro H. destruct d1, d2.
  pose proof (H f_nome); pose proof (H f_email); pose proof (H f_documento);
  pose proof (H f_telefone); pose proof (H f_endereco); pose proof (H f_cidade);
  pose proof (H f_estado); pose proof (H f_cep);
  pose proof (H f_data_nascimento); pose proof (H f_profissao).
  simpl in *. congruence.
Qed.

Lemma opt_eqb_refl (v : option string) : opt_eqb v v = true.
Proof. destruct v; simpl; [apply String.eqb_refl|reflexivity]. Qed.

Section Merge.

Variables (existing new_data : CustomerData) (source current_time : string).

Let step := merge_field existing new_data source current_time.
Let entry := change_entry existing new_data source current_time.

(** The loop over the fields, from any intermediate state: every field
    visited is assigned its merged value, and the history grows by the
    entries of the changed fields, in the order of the visit. *)
Lemma merge_loop (l : list Field) (merged : CustomerData)
    (history : list HistoryEntry) :
  fold_left step l (merged, history)
  = (fold_left (fun m f => setattr m f (merged_value existing new_data f)) l merged,
     history ++ map entry (filter (changed existing new_data) l)).
Proof.
  revert merged history; induction l as [|f l IH]; intros merged history.
  - simpl. now rewrite app_nil_r.
  - assert (Hstep : step (merged, history) f
                    = (setattr merged f (merged_value existing new_data f),
                       if changed existing new_data f
                       then history ++ [entry f] else history)).
    { unfold step, merge_field, merged_value, changed, entry, change_entry.
      destruct (blank (getattr new_data f)); [reflexivity|].
      now destruct (opt_eqb (getattr existing f) (getattr new_data f)). }
    cbn [fold_left filter]. rewrite Hstep, IH.
    destruct (changed existing new_data f); [|reflexivity].
    cbn [map]. now rewrite <- app_assoc.
Qed.

Lemma getattr_assign_loop (l : list Field) (merged : CustomerData) (g : Field) :
  getattr (fold_left (fun m f => setattr m f (merged_value existing new_data f))
             l merged) g
  = if existsb (field_eqb g) l then merged_value existing new_data g
    else getattr merged g.
Proof.
  revert merged; induction l as [|f l IH]; intro merged; [reflexivity|].
  cbn [fold_left existsb]. rewrite IH, getattr_setattr.
  destruct (existsb (field_eqb g) l); [now rewrite orb_true_r|].
  rewrite orb_false_r.
  destruct (field_eqb_spec g f) as [->|Hne].
  - now rewrite field_eqb_refl.
  - destruct (field_eqb_spec f g); congruence.
Qed.

Lemma entries_for_changes (l : list Field) (f : Field) :
  NoDup l ->
  entries_for f (map entry (filter (changed existing new_data) l))
  = if changed existing new_data f && existsb (field_eqb f) l
    then [entry f] else [].
Proof.
  unfold entries_for.
  induction l as [|g l IH]; intro Hnd.
  - simpl. now rewrite andb_false_r.
  - inversion Hnd as [|? ? Hnotin Hnd']; subst.
    specialize (IH Hnd'). cbn [filter existsb].
    destruct (field_eqb_spec f g) as [->|Hne].
    + assert (Hex : existsb (field_eqb g) l = false).
      { apply not_true_is_false. intro Hex. apply existsb_exists in Hex.
        destruct Hex as [x [Hin Hx]].
        destruct (field_eqb_spec g x); [subst; contradiction|discriminate]. }
      rewrite Hex, andb_false_r in IH.
      destruct (changed existing new_data g); cbn [andb orb map filter].
      * unfold entry at 1, change_entry. cbn [he_field].
        rewrite String.eqb_refl. now rewrite IH.
      * exact IH.
    + cbn [orb].
      destruct (changed existing new_data g); cbn [map filter]; [|exact IH].
      unfold entry at 1, change_entry. cbn [he_field].
      fold (field_eqb g f).
      destruct (field_eqb_spec g f); [congruence|exact IH].
Qed.

End Merge.

Lemma filter_none {A : Type} (p : A -> bool) (l : list A) :
  (forall x, p x = false) -> filter p l = [].
Proof.
  intro H. induction l as [|x l IH]; simpl; [reflexivity|]. now rewrite H.
Qed.

Lemma existsb_VALID_CUSTOMER_FIELDS (f : Field) :
  existsb (field_eqb f) VALID_CUSTOMER_FIELDS = true.
Proof. destruct f; reflexivity. Qed.

Lemma merge_customer_data_eq (existing new_data : CustomerData)
    (source current_time : string) :
  _merge_customer_data existing new_data source current_time
  = (fold_left (fun m f => setattr m f (merged_value existing new_data f))
       VALID_CUSTOMER_FIELDS CustomerData_default,
     map (change_entry existing new_data source current_time)
       (filter (changed existing new_data) VALID_CUSTOMER_FIELDS)).
Proof. unfold _merge_customer_data. now rewrite merge_loop. Qed.

(** C3. Every field of the merged record is the incoming value when
    that value is present (not null, not blank once stripped) and the
    existing value otherwise; the history holds, for each field whose
    incoming value is present and differs from the existing one,
    exactly one entry, with the old value, the new value, the source
    and confidence 1.0, and holds no entry about any other field; so
    every merged value is the existing or the incoming one. *)
Theorem merge_customer_data_fields_and_history
    (existing incoming : CustomerData) (source current_time : string) :
  let merged := fst (_merge_customer_data existing incoming source current_time) in
  let history := snd (_merge_customer_data existing incoming source current_time) in
  (forall f : Field,
     getattr merged f
     = if blank (getattr incoming f) then getattr existing f
       else getattr incoming f)
  /\ (forall f : Field,
        entries_for f history
        = if negb (blank (getattr incoming f))
             && negb (opt_eqb (getattr existing f) (getattr incoming f))
          then [mkHistoryEntry current_time (field_name f)
                  (getattr existing f) (getattr incoming f) source 1.0%float]
          else [])
  /\ Forall (fun e => exists f : Field, he_field e = field_name f) history
  /\ (forall f : Field,
        getattr merged f = getattr existing f
        \/ getattr merged f = getattr incoming f).
Proof.
  cbv zeta. rewrite merge_customer_data_eq. cbn [fst snd].
  assert (Hv : forall f : Field,
            getattr (fold_left
                       (fun m f => setattr m f (merged_value existing incoming f))
                       VALID_CUSTOMER_FIELDS CustomerData_default) f
            = if blank (getattr incoming f) then getattr existing f
              else getattr incoming f).
  { intro f. rewrite getattr_assign_loop, existsb_VALID_CUSTOMER_FIELDS.
    reflexivity. }
  split; [exact Hv|]. split; [|split].
  - intro f.
    rewrite (entries_for_changes existing incoming source current_time
               VALID_CUSTOMER_FIELDS f NoDup_VALID_CUSTOMER_FIELDS).
    rewrite existsb_VALID_CUSTOMER_FIELDS, andb_true_r. reflexivity.
  - apply Forall_forall. intros e He. apply in_map_iff in He.
    destruct He as [f [<- _]]. now exists f.
  - intro f. rewrite Hv. destruct (blank (getattr incoming f)); auto.
Qed.

(** C8. Merging a record into a record with the same ten field values
    gives that record back and an empty history. *)
Theorem merge_customer_data_idempotent (a : CustomerData)
    (source current_time : string) :
  _merge_customer_data a a source current_time = (a, []).
Proof.
  rewrite merge_customer_data_eq. f_equal.
  - apply CustomerData_ext. intro f.
    rewrite getattr_assign_loop, existsb_VALID_CUSTOMER_FIELDS.
    unfold merged_value. now destruct (blank (getattr a f)).
  - rewrite filter_none; [reflexivity|].
    intro f. unfold changed. now rewrite opt_eqb_refl, andb_false_r.
Qed.

(** ** Blank values *)

Lemma rstrip_empty (s : string) : nonempty (rstrip s) = false -> all_space s = true.
Proof.
  induction s as [|c s IH]; simpl; [reflexivity|].
  destruct (rstrip s).
  - destruct (isspace c); [intros _; now apply IH|discriminate].
  - discriminate.
Qed.

Lemma lstrip_all_space (s : string) : all_space (lstrip s) = true -> all_space s = true.
Proof.
  induction s as [|c s IH]; simpl; [reflexivity|].
  destruct (isspace c) eqn:Hc; [exact IH|]. simpl. now rewrite Hc.
Qed.

Lemma all_space_lstrip (s : string) : all_space s = true -> lstrip s = "".
Proof.
  induction s as [|c s IH]; simpl; [reflexivity|].
  destruct (isspace c); [exact IH|discriminate].
Qed.

Lemma all_space_lower (s : string) : all_space (lower s) = all_space s.
Proof.
  induction s as [|c s IH]; simpl; [reflexivity|].
  now rewrite isspace_lower_char, IH.
Qed.

Lemma strip_empty (s : string) : nonempty (strip s) = false -> all_space s = true.
Proof. intro H. now apply lstrip_all_space, rstrip_empty. Qed.

Lemma all_space_no_digits (s : string) : all_space s = true -> sub_non_digits s = "".
Proof.
  induction s as [|c s IH]; simpl; [reflexivity|].
  intro H. apply andb_prop in H. destruct H as [Hc Hs].
  now rewrite (isspace_not_decimal _ Hc), IH.
Qed.

Lemma blank_normalize_document (v : option string) :
  blank v = true -> normalize_document v = "".
Proof.
  destruct v as [s|]; [|reflexivity]. simpl. intro H.
  apply negb_true_iff, strip_empty in H.
  destruct (nonempty s); [now apply all_space_no_digits|reflexivity].
Qed.

Lemma blank_normalize_text (v : option string) :
  blank v = true -> normalize_text v = "".
Proof.
  destruct v as [s|]; [|reflexivity]. simpl. intro H.
  apply negb_true_iff, strip_empty in H.
  destruct (nonempty s); [|reflexivity].
  unfold strip. rewrite all_space_lstrip; [reflexivity|].
  now rewrite all_space_lower.
Qed.

Lemma is_empty_blank (d : CustomerData) (f : Field) :
  is_empty d = true -> blank (getattr d f) = true.
Proof.
  unfold is_empty, values. cbn [forallb]. intro H.
  repeat (apply andb_prop in H; let H1 := fresh in destruct H as [H1 H]).
  destruct f; assumption.
Qed.

(** ** The candidate finder on an empty record *)

Lemma empty_candidate_queries (d : CustomerData) :
  is_empty d = true ->
  candidate_queries d
  = if truthy (email d) then [email_eq (or_empty (email d))] else [].
Proof.
  intro H. unfold candidate_queries.
  pose proof (blank_normalize_document _ (is_empty_blank d f_documento H)) as Hd.
  pose proof (blank_normalize_text _ (is_empty_blank d f_nome H)) as Hn.
  pose proof (blank_normalize_document _ (is_empty_blank d f_telefone H)) as Ht.
  cbn [getattr] in Hd, Hn, Ht.
  change (normalize_phone (telefone d)) with (normalize_document (telefone d)).
  rewrite Hd, Hn, Ht. cbn [nonempty].
  destruct (truthy (documento d)), (truthy (nome d)), (truthy (telefone d));
    cbn [app]; now rewrite ?app_nil_r.
Qed.

(** [add_customer_data] holds no guard against an empty record: it
    never calls [is_empty].  For an empty record the candidate finder issues
    no document, name or phone lookup, and an email lookup only when
    the email is a non-empty blank text; when the email is null or
    [""], no lookup is issued, nothing is matched, and, whatever the
    source and the [force_merge] flag, the record is stored as a new
    customer with status ['created']. *)
Theorem add_customer_data_empty_record
    (sql_like sql_ilike : string -> string -> bool)
    (self : CustomerDataPlatform) (d : CustomerData)
    (source : string) (force_merge : bool)
    (current_time merge_time new_id : string) :
  is_empty d = true ->
  candidate_queries d
  = (if truthy (email d) then [email_eq (or_empty (email d))] else [])
  /\ (truthy (email d) = false ->
      candidate_queries d = []
      /\ _find_matching_customers sql_like sql_ilike self d = []
      /\ add_customer_data sql_like sql_ilike self d source force_merge
           current_time merge_time new_id
         = (created new_id ("Novo cliente " ++ new_id ++ " criado")%string,
            mkCustomerDataPlatform
              (mkDatabase
                 (customers (db self)
                  ++ [mkCustomerModel new_id d current_time current_time
                        [source] 1.0%float])
                 (customer_history (db self)))
              (matcher self) (match_threshold self))).
Proof.
  intro H. pose proof (empty_candidate_queries d H) as Hq.
  split; [exact Hq|]. intro He. rewrite He in Hq.
  assert (Hm : _find_matching_customers sql_like sql_ilike self d = []).
  { unfold _find_matching_customers, _find_potential_matches_in_db.
    now rewrite Hq. }
  split; [exact Hq|]. split; [exact Hm|].
  unfold add_customer_data. rewrite Hm. now destruct d.
Qed.

(** C4. The empty record is not rejected.  Whatever the store holds
    and whatever the source and the [force_merge] flag,
    [add_customer_data] on [CustomerData()] (every field [None], so
    [is_empty()] answers [True]) returns status ['created'] and appends
    a row that holds the empty record: the store is mutated, where a
    rejection without any store change is asked for. *)
Theorem empty_record_is_not_rejected
    (sql_like sql_ilike : string -> string -> bool)
    (self : CustomerDataPlatform) (source : string) (force_merge : bool)
    (current_time merge_time new_id : string) :
  let r :=
    add_customer_data sql_like sql_ilike self CustomerData_default source
      force_merge current_time merge_time new_id in
  is_empty CustomerData_default = true
  /\ status (fst r) = "created"
  /\ customers (db (snd r))
     = customers (db self)
       ++ [mkCustomerModel new_id CustomerData_default current_time
             current_time [source] 1.0%float]
  /\ db (snd r) <> db self.
Proof.
  cbv zeta.
  destruct (add_customer_data_empty_record sql_like sql_ilike self
              CustomerData_default source force_merge current_time
              merge_time new_id eq_refl) as [_ H].
  destruct (H eq_refl) as [_ [_ ->]]. cbn [fst snd status db customers].
  split; [reflexivity|]. split; [reflexivity|]. split; [reflexivity|].
  intro Heq. apply (f_equal (fun d => length (customers d))) in Heq.
  cbn [customers] in Heq. rewrite length_app in Heq. cbn [length] in Heq. lia.
Qed.

(** An empty record whose email is a blank text does reach the store,
    and can match the row that holds the same blank email. *)
Example blank_email_is_looked_up :
  is_empty blank_email = true
  /\ candidate_queries blank_email
     = [email_eq " "]
  /\ map mr_customer_id
       (_find_matching_customers like_match ilike_match
          (CustomerDataPlatform_init
             (mkDatabase
                [mkCustomerModel "id1"
                   blank_email
                   "t0" "t0" ["manual"] 1.0%float] []))
          blank_email)
     = ["id1"].
Proof. repeat split. Qed.

(** ** Conflicts reported by [add_customer_data] *)

Lemma match_candidate_safe (self : CustomerDataPlatform)
    (customer_data : CustomerData) (model : CustomerModel) (m : MatchResult) :
  In m (match_candidate self customer_data model) ->
  mr_is_safe_match m = match mr_conflicts m with [] => true | _ :: _ => false end.
Proof.
  unfold match_candidate.
  destruct (calculate_match_score (matcher self) customer_data
              (_model_to_customer_data model)) as [score conflicts].
  destruct (PrimFloat.ltb score (match_threshold self)); [intros []|].
  destruct conflicts; (intros [<-|[]]); reflexivity.
Qed.

Lemma in_insert_by_score (x y : MatchResult) (l : list MatchResult) :
  In y (insert_by_score x l) -> y = x \/ In y l.
Proof.
  induction l as [|z l IH]; simpl.
  - intros [<-|[]]. now left.
  - destruct (PrimFloat.ltb (mr_score x) (mr_score z)); simpl.
    + intros [<-|H]; [right; now left|].
      destruct (IH H); [now left|right; now right].
    + intros [<-|H]; [now left|now right].
Qed.

Lemma in_sort_by_score (y : MatchResult) (l : list MatchResult) :
  In y (sort_by_score l) -> In y l.
Proof.
  induction l as [|x l IH]; simpl; [auto|].
  intro H. apply in_insert_by_score in H. destruct H as [->|H]; auto.
Qed.

Lemma find_matching_customers_safe
    (sql_like sql_ilike : string -> string -> bool)
    (self : CustomerDataPlatform) (customer_data : CustomerData)
    (m : MatchResult) :
  In m (_find_matching_customers sql_like sql_ilike self customer_data) ->
  mr_is_safe_match m = match mr_conflicts m with [] => true | _ :: _ => false end.
Proof.
  unfold _find_matching_customers. intro H.
  apply in_sort_by_score, in_flat_map in H. destruct H as [model [_ H]].
  now apply match_candidate_safe in H.
Qed.

(** C7. When the best-ranked match, the head of the sorted list, has
    conflicts and [force_merge] is false, the answer is
    ['conflict_detected'] with the conflicts, the score and the reason
    of that match, and the platform, hence every customer row and
    every history row of the store, is left as it was. *)
Theorem add_customer_data_rejects_conflict
    (sql_like sql_ilike : string -> string -> bool)
    (self : CustomerDataPlatform) (customer_data : CustomerData)
    (source : string) (current_time merge_time new_id : string)
    (best_match : MatchResult) (others : list MatchResult) :
  _find_matching_customers sql_like sql_ilike self customer_data
  = best_match :: others ->
  mr_conflicts best_match <> [] ->
  exists message suggested_actions,
    add_customer_data sql_like sql_ilike self customer_data source false
      current_time merge_time new_id
    = (conflict_detected message (mr_conflicts best_match) suggested_actions
         (mr_score best_match) (mr_reason best_match),
       self)
    /\ status (conflict_detected message (mr_conflicts best_match)
                 suggested_actions (mr_score best_match) (mr_reason best_match))
       = "conflict_detected".
Proof.
  intros Hm Hc.
  assert (Hsafe : mr_is_safe_match best_match = false).
  { rewrite (find_matching_customers_safe sql_like sql_ilike self customer_data).
    - destruct (mr_conflicts best_match); congruence.
    - rewrite Hm. now left. }
  unfold add_customer_data. rewrite Hm, Hsafe. cbn [negb andb].
  do 2 eexists. split; reflexivity.
Qed.

Lemma add_customer_data_rejects_conflict_witness :
  exists message suggested_actions,
    add_customer_data like_match ilike_match phone_store phone_incoming
      "csv_import" false "t1" "t2" "id2"
    = (conflict_detected message [("telefone", "Tel1: 222 vs Tel2: 111")]
         suggested_actions 0.76470588235294112%float
         "Conflitos detectados: telefone: Tel1: 222 vs Tel2: 111",
       phone_store)
    /\ status (conflict_detected message [("telefone", "Tel1: 222 vs Tel2: 111")]
                 suggested_actions 0.76470588235294112%float
                 "Conflitos detectados: telefone: Tel1: 222 vs Tel2: 111")
       = "conflict_detected".
Proof.
  apply (add_customer_data_rejects_conflict like_match ilike_match
           phone_store phone_incoming "csv_import" "t1" "t2" "id2"
           (mkMatchResult "id1" 0.76470588235294112%float
              [("telefone", "Tel1: 222 vs Tel2: 111")] false
              "Conflitos detectados: telefone: Tel1: 222 vs Tel2: 111")
           []).
  - vm_compute. reflexivity.
  - discriminate.
Defined.

(** ** Termination of [get_matching_blocks] *)

Section LongestMatch.

Variables (a b : list ascii) (alo blo bhi : nat).

Lemma j2len_get_le (j2len : list (nat * nat)) (n : nat) :
  (forall j, assoc_nat j j2len <= n) -> forall j, j2len_get j2len j <= n.
Proof. intros H [|j]; simpl; [lia|apply H]. Qed.

Lemma flm_inner_within (js : list nat) (i : nat)
    (j2len newj2len : list (nat * nat)) (best : Match) :
  alo <= i ->
  (forall j, assoc_nat j j2len <= i - alo) ->
  (forall j, assoc_nat j newj2len <= S i - alo) ->
  best_within alo (S i) best ->
  let '(newj2len', best') := flm_inner js blo bhi i j2len newj2len best in
  (forall j, assoc_nat j newj2len' <= S i - alo) /\ best_within alo (S i) best'.
Proof.
  intros Hi Hold. revert newj2len best.
  induction js as [|j js IH]; intros newj2len best Hnew Hbest;
    cbn [flm_inner].
  - now split.
  - destruct (j <? blo); [now apply IH|].
    destruct (bhi <=? j); [now split|].
    destruct best as [[besti bestj] bestsize].
    pose proof (j2len_get_le j2len _ Hold j) as Hk.
    apply IH.
    + intro j0. cbn [assoc_nat]. destruct (j =? j0); [lia|apply Hnew].
    + destruct (bestsize <? j2len_get j2len j + 1); [|exact Hbest].
      unfold best_within. lia.
Qed.

Lemma flm_loop_within (n i : nat) (j2len : list (nat * nat)) (best : Match) :
  alo <= i ->
  (forall j, assoc_nat j j2len <= i - alo) ->
  best_within alo i best ->
  best_within alo (i + n)
    (snd (fold_left
            (fun st i =>
               let '(j2len, best) := st in
               flm_inner (b2j b (at_ a i)) blo bhi i j2len [] best)
            (seq i n) (j2len, best))).
Proof.
  revert i j2len best; induction n as [|n IH]; intros i j2len best Hi Hold Hbest.
  - simpl. now rewrite Nat.add_0_r.
  - cbn [seq fold_left].
    assert (Hbest' : best_within alo (S i) best).
    { destruct best as [[besti bestj] bestsize]. simpl in *. lia. }
    pose proof (flm_inner_within (b2j b (at_ a i)) i j2len [] best Hi Hold
                  (fun _ => Nat.le_0_l _) Hbest') as Hin.
    destruct (flm_inner (b2j b (at_ a i)) blo bhi i j2len [] best)
      as [newj2len best'].
    destruct Hin as [Hnew Hb].
    replace (i + S n) with (S i + n) by lia.
    apply IH; [lia| |exact Hb].
    intro j. specialize (Hnew j). lia.
Qed.

Lemma flm_outer_within (ahi : nat) :
  best_within alo (alo + (ahi - alo)) (snd (flm_outer a b alo ahi blo bhi)).
Proof.
  unfold flm_outer. apply flm_loop_within.
  - lia.
  - intro j. simpl. lia.
  - simpl. lia.
Qed.

Lemma extend_back_within (besti bestj bestsize : nat) :
  alo <= besti ->
  let '(i, _, k) := extend_back a b alo blo besti bestj bestsize in
  alo <= i /\ i + k = besti + bestsize.
Proof.
  revert bestj bestsize; induction besti as [|i' IH]; intros bestj bestsize H.
  - simpl. lia.
  - destruct bestj as [|j']; [simpl; lia|].
    cbn [extend_back].
    destruct ((alo <? S i') && (blo <? S j') && Ascii.eqb (at_ a i') (at_ b j'))
      eqn:E; [|lia].
    apply andb_prop in E. destruct E as [E _].
    apply andb_prop in E. destruct E as [E _].
    apply Nat.ltb_lt in E.
    specialize (IH j' (S bestsize)).
    destruct (extend_back a b alo blo i' j' (S bestsize)) as [[i j] k].
    lia.
Qed.

Lemma extend_forward_within (besti bestj bestsize room : nat) :
  let '(i, _, k) := extend_forward a b bhi besti bestj bestsize room in
  i = besti /\ bestsize <= k <= bestsize + room.
Proof.
  revert bestsize; induction room as [|room IH]; intro bestsize; simpl.
  - lia.
  - destruct ((bestj + bestsize <? bhi)
              && Ascii.eqb (at_ a (besti + bestsize)) (at_ b (bestj + bestsize)));
      [|lia].
    specialize (IH (S bestsize)).
    destruct (extend_forward a b bhi besti bestj (S bestsize) room) as [[i j] k].
    lia.
Qed.

(** The block [find_longest_match] returns starts at or after [alo],
    and is empty or ends at or before [ahi]. *)
Lemma find_longest_match_within (ahi : nat) :
  let '(i, _, k) := find_longest_match a b alo ahi blo bhi in
  alo <= i /\ (k = 0 \/ i + k <= ahi).
Proof.
  unfold find_longest_match.
  pose proof (flm_outer_within ahi) as H1.
  destruct (flm_outer a b alo ahi blo bhi) as [j2len [[besti bestj] bestsize]].
  simpl in H1.
  pose proof (extend_back_within besti bestj bestsize (proj1 H1)) as H2.
  destruct (extend_back a b alo blo besti bestj bestsize) as [[i1 j1] k1].
  pose proof (extend_forward_within i1 j1 k1 (ahi - (i1 + k1))) as H3.
  destruct (extend_forward a b bhi i1 j1 k1 (ahi - (i1 + k1))) as [[i j] k].
  lia.
Qed.

End LongestMatch.

Lemma matching_loop_enough_fuel (a b : list ascii) (fuel : nat)
    (queue : list Range) (blocks : list Match) :
  queue_measure queue <= fuel ->
  exists result, matching_loop fuel a b queue blocks = Some result.
Proof.
  revert queue blocks; induction fuel as [|fuel IH]; intros queue blocks Hm.
  - destruct queue as [|[[[alo ahi] blo] bhi] queue]; simpl in *;
      [eauto|lia].
  - destruct queue as [|[[[alo ahi] blo] bhi] queue]; [simpl; eauto|].
    cbn [matching_loop].
    pose proof (find_longest_match_within a b alo blo bhi ahi) as Hb.
    destruct (find_longest_match a b alo ahi blo bhi) as [[i j] k].
    cbn [queue_measure] in Hm.
    destruct (0 <? k) eqn:Hk; [|apply IH; lia].
    apply Nat.ltb_lt in Hk. apply IH.
    destruct ((alo <? i) && (blo <? j)), ((i + k <? ahi) && (j + k <? bhi));
      cbn [queue_measure]; lia.
Qed.

(** The loop of [get_matching_blocks] empties its queue within the
    turns the embedding allows it. *)
Lemma matching_loop_terminates (a b : list ascii) :
  exists blocks,
    matching_loop (blocks_fuel a) a b [(0, length a, 0, length b)] []
    = Some blocks.
Proof.
  apply matching_loop_enough_fuel. unfold blocks_fuel. simpl. lia.
Qed.

(** ** The similarity scorer *)

Lemma indices_from_absent (c : ascii) (b : list ascii) (i : nat) :
  existsb (Ascii.eqb c) b = false -> indices_from c b i = [].
Proof.
  revert i; induction b as [|x b IH]; intro i; simpl; [reflexivity|].
  intro H. apply orb_false_elim in H. destruct H as [Hx Hb].
  rewrite Ascii.eqb_sym, Hx. now apply IH.
Qed.

Lemma b2j_absent (c : ascii) (b : list ascii) :
  existsb (Ascii.eqb c) b = false -> b2j b c = [].
Proof.
  intro H. unfold b2j. rewrite (indices_from_absent c b 0 H).
  now destruct (popular b c).
Qed.

Lemma share_no_char_at (a b : list ascii) (i : nat) :
  share_no_char a b = true -> i < length a ->
  existsb (Ascii.eqb (at_ a i)) b = false.
Proof.
  unfold share_no_char. intros H Hi.
  rewrite forallb_forall in H. apply negb_true_iff, H.
  unfold at_. now apply nth_In.
Qed.

Lemma share_no_char_sym (a b : list ascii) :
  share_no_char a b = true -> share_no_char b a = true.
Proof.
  unfold share_no_char. intro H. rewrite forallb_forall in *.
  intros c Hc. apply negb_true_iff, not_true_is_false. intro Hex.
  apply existsb_exists in Hex. destruct Hex as [x [Hx Hcx]].
  apply Ascii.eqb_eq in Hcx. subst x.
  specialize (H c Hx). apply negb_true_iff in H.
  assert (existsb (Ascii.eqb c) b = true); [|congruence].
  apply existsb_exists. exists c. split; [exact Hc|apply Ascii.eqb_refl].
Qed.

Lemma flm_loop_no_char (a b : list ascii) (blo bhi : nat) (best : Match)
    (n i : nat) (j2len : list (nat * nat)) :
  share_no_char a b = true -> i + n <= length a ->
  snd (fold_left
         (fun st i =>
            let '(j2len, best) := st in
            flm_inner (b2j b (at_ a i)) blo bhi i j2len [] best)
         (seq i n) (j2len, best))
  = best.
Proof.
  intro H. revert i j2len; induction n as [|n IH]; intros i j2len Hi;
    [reflexivity|].
  cbn [seq fold_left].
  rewrite (b2j_absent _ _ (share_no_char_at a b i H ltac:(lia))).
  cbn [flm_inner]. apply IH. lia.
Qed.

Lemma find_longest_match_no_char (a b : list ascii) :
  share_no_char a b = true ->
  find_longest_match a b 0 (length a) 0 (length b) = (0, 0, 0).
Proof.
  intro H. unfold find_longest_match, flm_outer.
  pose proof (flm_loop_no_char a b 0 (length b) (0, 0, 0)
                (length a - 0) 0 [] H ltac:(lia)) as Hl.
  destruct (fold_left _ _ _) as [j2len best]. simpl in Hl. subst best.
  cbn [extend_back]. cbn [Nat.add Nat.sub].
  destruct a as [|x a']; [reflexivity|].
  cbn [length Nat.sub extend_forward Nat.add].
  destruct b as [|y b']; [reflexivity|].
  pose proof (share_no_char_at (x :: a') (y :: b') 0 H ltac:(simpl; lia)) as Hx.
  cbn [at_ nth existsb] in Hx. apply orb_false_elim in Hx.
  unfold at_ at 1 2. cbn [nth]. rewrite (proj1 Hx).
  now rewrite andb_false_r.
Qed.

Lemma matches_no_char (a b : list ascii) :
  share_no_char a b = true -> matches a b = 0.
Proof.
  intro H. unfold matches, get_matching_blocks, blocks_fuel.
  replace (2 * length a + 1) with (S (2 * length a)) by lia.
  cbn [matching_loop]. rewrite (find_longest_match_no_char a b H).
  cbn [Nat.ltb Nat.leb].
  destruct (2 * length a); reflexivity.
Qed.

Lemma similarity_score_same_matches (a b : string) :
  matches (seq_of a) (seq_of b) = matches (seq_of b) (seq_of a) ->
  similarity_score a b = similarity_score b a.
Proof.
  intro H. unfold similarity_score, ratio.
  rewrite H, (Nat.add_comm (length (seq_of b))).
  now destruct (nonempty a), (nonempty b).
Qed.

(** C6, as the code has it.  The score is [2.0 * M / T] with the same
    [T = len(a) + len(b)] in both orders, so the two orders give the
    same score whenever they match the same number [M] of characters;
    they do so when either string is empty (both scores are 0.0) and
    when the strings share no character. *)
Theorem similarity_score_commutes_on_equal_matches (a b : string) :
  (matches (seq_of a) (seq_of b) = matches (seq_of b) (seq_of a) ->
   similarity_score a b = similarity_score b a)
  /\ (nonempty a = false \/ nonempty b = false ->
      similarity_score a b = 0.0%float /\ similarity_score b a = 0.0%float)
  /\ (share_no_char (seq_of a) (seq_of b) = true ->
      similarity_score a b = similarity_score b a).
Proof.
  split; [apply similarity_score_same_matches|]. split.
  - unfold similarity_score. intros [H|H]; rewrite H; cbn [negb orb];
      split; try reflexivity; now rewrite orb_true_r.
  - intro H. apply similarity_score_same_matches.
    rewrite (matches_no_char _ _ H).
    now rewrite (matches_no_char _ _ (share_no_char_sym _ _ H)).
Qed.

Lemma similarity_score_commutes_on_equal_matches_witness :
  similarity_score "abxcd" "abcd" = similarity_score "abcd" "abxcd"
  /\ similarity_score "ana" "bob" = similarity_score "bob" "ana".
Proof.
  split.
  - apply (proj1 (similarity_score_commutes_on_equal_matches "abxcd" "abcd")).
    reflexivity.
  - apply (proj2 (proj2 (similarity_score_commutes_on_equal_matches "ana" "bob"))).
    reflexivity.
Defined.

(** C6, for every pair of strings, does not hold: the longest block is
    chosen by its position in the first argument, and the two orders
    of "tide" and "diet" match one character and two. *)
Lemma similarity_score_not_commutative :
  similarity_score "tide" "diet" = 0.25%float
  /\ similarity_score "diet" "tide" = 0.5%float
  /\ PrimFloat.eqb (similarity_score "tide" "diet")
       (similarity_score "diet" "tide") = false.
Proof. repeat split. Qed.

(** ** The denominator and the range of the score *)

(** The denominator the code accumulates: the weights of the document,
    the email, the name, the phone and the address, each when both
    records hold a non-empty value; the birth date adds nothing. *)
Lemma match_totals_weight (self : CustomerMatcher) (a b : CustomerData)
    (doc_score : float) :
  snd (fst (match_totals self a b doc_score))
  = let add_if (present : bool) (w acc : float) : float :=
      if present then PrimFloat.add acc w else acc in
    add_if (truthy (endereco a) && truthy (endereco b)) (w_endereco (weights self))
      (add_if (truthy (telefone a) && truthy (telefone b)) (w_telefone (weights self))
         (add_if (truthy (nome a) && truthy (nome b)) (w_nome (weights self))
            (add_if (truthy (email a) && truthy (email b)) (w_email (weights self))
               (add_if (truthy (documento a) && truthy (documento b))
                  (w_documento (weights self)) 0.0%float)))).
Proof.
  unfold match_totals.
  destruct (_check_name_match self (nome a) (nome b)).
  destruct (_check_phone_match self (telefone a) (telefone b)).
  destruct (_check_birthdate_match self (data_nascimento a) (data_nascimento b)).
  reflexivity.
Qed.

(** C2 at a pair of records that both hold an email and a birth date:
    the denominator [total_weight] is the email weight alone, while
    the sum over the fields both records hold adds the birth-date
    weight. *)
Lemma total_weight_leaves_birth_date_out :
  snd (fst (match_totals (CustomerMatcher_init None)
              email_and_birthdate email_and_birthdate 0.0%float))
  = 0.25%float
  /\ spec_total_weight (CustomerMatcher_init None)
       email_and_birthdate email_and_birthdate
     = PrimFloat.add 0.25%float 0.05%float
  /\ PrimFloat.ltb
       (snd (fst (match_totals (CustomerMatcher_init None)
                    email_and_birthdate email_and_birthdate 0.0%float)))
       (spec_total_weight (CustomerMatcher_init None)
          email_and_birthdate email_and_birthdate)
     = true.
Proof. repeat split. Qed.

(** C5 at the same pair: the birth-date weight is in the numerator and
    not in the denominator, and the score is 1.2. *)
Lemma score_exceeds_one :
  calculate_match_score (CustomerMatcher_init None)
    email_and_birthdate email_and_birthdate
  = (1.2%float, [])
  /\ PrimFloat.leb
       (fst (calculate_match_score (CustomerMatcher_init None)
               email_and_birthdate email_and_birthdate))
       1.0%float
     = false.
Proof. repeat split. Qed.

(** The score reaches the store: sending the stored record again is a
    safe merge that raises the confidence of the row to 1.2, a value
    the integrity check [0.0 <= confidence_score <= 1.0] of
    [utils/validators.py] reports. *)
Example stored_confidence_exceeds_one :
  map cm_confidence_score
    (customers
       (db (snd (add_customer_data like_match ilike_match birthdate_store
                   email_and_birthdate "csv_import" false "t1" "t2" "id2"))))
  = [1.2%float]
  /\ status
       (fst (add_customer_data like_match ilike_match birthdate_store
               email_and_birthdate "csv_import" false "t1" "t2" "id2"))
     = "updated".
Proof. split; reflexivity. Qed.

(** * Further properties of the engine *)

(** ** The conflict map and the score of unrelated records *)

Lemma name_conflicts_shape (self : CustomerMatcher) (n1 n2 : option string) :
  snd (_check_name_match self n1 n2) = []
  \/ exists v, snd (_check_name_match self n1 n2) = [("nome", v)].
Proof.
  unfold _check_name_match.
  destruct (negb (truthy n1) || negb (truthy n2)); [now left|].
  cbv zeta. destruct (PrimFloat.ltb _ _); [now left|].
  destruct (PrimFloat.ltb _ _); [right; eexists; reflexivity|now left].
Qed.

Lemma phone_conflicts_shape (self : CustomerMatcher) (p1 p2 : option string) :
  snd (_check_phone_match self p1 p2) = []
  \/ exists v, snd (_check_phone_match self p1 p2) = [("telefone", v)].
Proof.
  unfold _check_phone_match.
  destruct (negb (truthy p1) || negb (truthy p2)); [now left|].
  cbv zeta. destruct (_ && _); [now left|].
  destruct (_ && _); [right; eexists; reflexivity|now left].
Qed.

Lemma birthdate_conflicts_shape (self : CustomerMatcher) (d1 d2 : option string) :
  snd (_check_birthdate_match self d1 d2) = []
  \/ exists v, snd (_check_birthdate_match self d1 d2) = [("data_nascimento", v)].
Proof.
  unfold _check_birthdate_match.
  destruct (negb (truthy d1) || negb (truthy d2)); [now left|].
  destruct (opt_eqb d1 d2); [now left|right; eexists; reflexivity].
Qed.

Lemma document_conflicts_shape (self : CustomerMatcher) (d1 d2 : option string) :
  snd (_check_document_match self d1 d2) = []
  \/ exists v, snd (_check_document_match self d1 d2) = [("documento", v)].
Proof.
  unfold _check_document_match.
  destruct (negb (truthy d1) || negb (truthy d2)); [now left|].
  cbv zeta. destruct (_ && _); [now left|].
  destruct (_ && _); [right; eexists; reflexivity|now left].
Qed.

(** X1. Only the document, the name, the phone and the birth date can
    appear in the conflict map, each at most once; an email or an
    address that differs is never reported. *)
Theorem conflict_keys_are_known (self : CustomerMatcher) (a b : CustomerData) :
  let conflicts := snd (calculate_match_score self a b) in
  (forall k, In k (map fst conflicts) -> In k CONFLICT_KEYS)
  /\ NoDup (map fst conflicts)
  /\ length conflicts <= 3.
Proof.
  cbv zeta. unfold calculate_match_score.
  destruct (document_conflicts_shape self (documento a) (documento b))
    as [Hd|[v Hd]];
    destruct (_check_document_match self (documento a) (documento b))
      as [doc_score doc_conflicts]; simpl in Hd; subst doc_conflicts.
  2:{ cbn [snd map fst]. split; [|split].
      - intros k [<-|[]]. simpl. tauto.
      - repeat constructor. simpl. tauto.
      - simpl. lia. }
  unfold match_totals.
  destruct (name_conflicts_shape self (nome a) (nome b)) as [Hn|[vn Hn]];
    destruct (_check_name_match self (nome a) (nome b)) as [ns nc];
    simpl in Hn; subst nc;
  destruct (phone_conflicts_shape self (telefone a) (telefone b)) as [Hp|[vp Hp]];
    destruct (_check_phone_match self (telefone a) (telefone b)) as [ps pc];
    simpl in Hp; subst pc;
  destruct (birthdate_conflicts_shape self (data_nascimento a) (data_nascimento b))
    as [Hb|[vb Hb]];
    destruct (_check_birthdate_match self (data_nascimento a) (data_nascimento b))
      as [bs bc];
    simpl in Hb; subst bc;
  cbn [snd fst map dict_update dict_set fold_left String.eqb Ascii.eqb Bool.eqb
       length];
  (split; [|split]);
  try (simpl; lia);
  try (repeat constructor; simpl; intuition discriminate);
  try (intros k Hk; simpl in Hk; simpl; intuition).
Qed.

Lemma both_truthy_false (v1 v2 : option string) :
  truthy v1 && truthy v2 = false ->
  negb (truthy v1) || negb (truthy v2) = true.
Proof. now destruct (truthy v1), (truthy v2). Qed.

(** X2. Two records that hold no weighted field in common (for each of the
    six, one of the two values is null or empty) score 0.0 with an
    empty conflict map. *)
Theorem no_common_field_scores_zero (self : CustomerMatcher) (a b : CustomerData) :
  (forall f, In f WEIGHTED_FIELDS ->
             truthy (getattr a f) && truthy (getattr b f) = false) ->
  calculate_match_score self a b = (0.0%float, []).
Proof.
  intro H.
  pose proof (H f_documento ltac:(simpl; tauto)) as Hd.
  pose proof (H f_email ltac:(simpl; tauto)) as He.
  pose proof (H f_nome ltac:(simpl; tauto)) as Hn.
  pose proof (H f_telefone ltac:(simpl; tauto)) as Ht.
  pose proof (H f_data_nascimento ltac:(simpl; tauto)) as Hb.
  pose proof (H f_endereco ltac:(simpl; tauto)) as Ha.
  cbn [getattr] in *.
  unfold calculate_match_score, match_totals, _check_document_match,
    _check_email_match, _check_name_match, _check_phone_match,
    _check_birthdate_match, _check_address_match.
  rewrite Hd, He, Hn, Ht, Ha.
  rewrite (both_truthy_false _ _ Hd), (both_truthy_false _ _ He),
    (both_truthy_false _ _ Hn), (both_truthy_false _ _ Ht),
    (both_truthy_false _ _ Hb), (both_truthy_false _ _ Ha).
  reflexivity.
Qed.

Lemma no_common_field_scores_zero_witness :
  calculate_match_score (CustomerMatcher_init None)
    (setattr CustomerData_default f_email (Some "a@x.com"))
    (setattr CustomerData_default f_telefone (Some "11999998888"))
  = (0.0%float, []).
Proof.
  apply no_common_field_scores_zero.
  intros f Hf. simpl in Hf.
  repeat (destruct Hf as [<-|Hf]; [reflexivity|]). destruct Hf.
Defined.

(** ** More on the merge engine *)

Lemma is_empty_all_blank (d : CustomerData) :
  is_empty d = true <-> (forall f, blank (getattr d f) = true).
Proof.
  split.
  - intros H f. now apply is_empty_blank.
  - intro H. unfold is_empty, values. cbn [forallb].
    pose proof (H f_email); pose proof (H f_documento); pose proof (H f_nome);
    pose proof (H f_telefone); pose proof (H f_endereco); pose proof (H f_cidade);
    pose proof (H f_estado); pose proof (H f_cep);
    pose proof (H f_data_nascimento); pose proof (H f_profissao).
    cbn [getattr] in *.
    repeat (apply andb_true_intro; split; [assumption|]). reflexivity.
Qed.

Lemma merged_getattr (existing new_data : CustomerData)
    (source current_time : string) (f : Field) :
  getattr (fst (_merge_customer_data existing new_data source current_time)) f
  = merged_value existing new_data f.
Proof.
  rewrite merge_customer_data_eq. cbn [fst].
  now rewrite getattr_assign_loop, existsb_VALID_CUSTOMER_FIELDS.
Qed.

(** X3. An incoming record whose fields are all null or blank changes
    nothing: the merged record is the existing one and the history is
    empty.  A blank value never erases a stored one. *)
Theorem merge_blank_record_changes_nothing
    (existing incoming : CustomerData) (source current_time : string) :
  is_empty incoming = true ->
  _merge_customer_data existing incoming source current_time = (existing, []).
Proof.
  intro H. rewrite is_empty_all_blank in H.
  rewrite merge_customer_data_eq. f_equal.
  - apply CustomerData_ext. intro f.
    rewrite getattr_assign_loop, existsb_VALID_CUSTOMER_FIELDS.
    unfold merged_value. now rewrite H.
  - rewrite filter_none; [reflexivity|].
    intro f. unfold changed. now rewrite H.
Qed.

Lemma merge_blank_record_changes_nothing_witness :
  _merge_customer_data ana_existing blank_email "csv_import" "t1"
  = (ana_existing, []).
Proof.
  apply merge_blank_record_changes_nothing. reflexivity.
Defined.

(** X4. Merging is stable: once a record has been merged in, merging the
    same record again into the result changes no field and writes no
    history, whatever the source and the time of the second merge. *)
Theorem merge_twice_changes_nothing
    (existing incoming : CustomerData)
    (source current_time source' current_time' : string) :
  _merge_customer_data
    (fst (_merge_customer_data existing incoming source current_time))
    incoming source' current_time'
  = (fst (_merge_customer_data existing incoming source current_time), []).
Proof.
  set (merged := fst (_merge_customer_data existing incoming source current_time)).
  assert (Hm : forall f, getattr merged f = merged_value existing incoming f)
    by (intro f; apply merged_getattr).
  rewrite merge_customer_data_eq. f_equal.
  - apply CustomerData_ext. intro f.
    rewrite getattr_assign_loop, existsb_VALID_CUSTOMER_FIELDS.
    unfold merged_value at 1. rewrite Hm. unfold merged_value.
    now destruct (blank (getattr incoming f)).
  - rewrite filter_none; [reflexivity|].
    intro f. unfold changed. rewrite Hm. unfold merged_value.
    destruct (blank (getattr incoming f)); [reflexivity|].
    now rewrite opt_eqb_refl.
Qed.

(** X5. A merge never blanks a field: the merged record is empty only when
    both the existing and the incoming record are. *)
Theorem merge_is_empty (existing incoming : CustomerData)
    (source current_time : string) :
  is_empty (fst (_merge_customer_data existing incoming source current_time))
  = is_empty existing && is_empty incoming.
Proof.
  set (merged := fst (_merge_customer_data existing incoming source current_time)).
  assert (Hm : forall f, blank (getattr merged f)
                         = blank (getattr existing f) && blank (getattr incoming f)).
  { intro f. unfold merged. rewrite merged_getattr. unfold merged_value.
    destruct (blank (getattr incoming f)) eqn:E;
      [now rewrite andb_true_r|now rewrite E, andb_false_r]. }
  apply eq_true_iff_eq. rewrite andb_true_iff, !is_empty_all_blank.
  split.
  - intro H. split; intro f; specialize (H f); rewrite Hm in H;
      apply andb_prop in H; tauto.
  - intros [H1 H2] f. now rewrite Hm, H1, H2.
Qed.

(** ** Matching blocks are common substrings *)

Lemma indices_from_spec (c : ascii) (b : list ascii) (i0 j : nat) :
  In j (indices_from c b i0) -> i0 <= j /\ at_ b (j - i0) = c.
Proof.
  revert i0; induction b as [|x b IH]; intros i0; simpl; [tauto|].
  destruct (Ascii.eqb x c) eqn:E.
  - intros [<-|H].
    + rewrite Nat.sub_diag. apply Ascii.eqb_eq in E. now split.
    + destruct (IH (S i0) H) as [Hle Hat]. split; [lia|].
      unfold at_ in *. replace (j - i0) with (S (j - S i0)) by lia. exact Hat.
  - intro H. destruct (IH (S i0) H) as [Hle Hat]. split; [lia|].
    unfold at_ in *. replace (j - i0) with (S (j - S i0)) by lia. exact Hat.
Qed.

Lemma b2j_spec (b : list ascii) (c : ascii) (j : nat) :
  In j (b2j b c) -> at_ b j = c.
Proof.
  unfold b2j. destruct (popular b c); [intros []|].
  intro H. apply indices_from_spec in H. now rewrite Nat.sub_0_r in H.
Qed.

Section LongestMatchSound.

Variables (a b : list ascii) (alo blo bhi : nat).

Lemma flm_inner_ok (js : list nat) (i : nat)
    (j2len newj2len : list (nat * nat)) (best : Match) :
  alo <= i ->
  (forall j, In j js -> at_ b j = at_ a i) ->
  j2len_ok a b alo blo bhi i j2len ->
  j2len_ok a b alo blo bhi (S i) newj2len ->
  best_ok a b alo blo bhi (S i) best ->
  let '(newj2len', best') := flm_inner js blo bhi i j2len newj2len best in
  j2len_ok a b alo blo bhi (S i) newj2len'
  /\ best_ok a b alo blo bhi (S i) best'.
Proof.
  intros Hi Hjs Hold. revert newj2len best Hjs.
  induction js as [|j js IH]; intros newj2len best Hjs Hnew Hbest;
    cbn [flm_inner].
  - now split.
  - assert (Hjs' : forall j0, In j0 js -> at_ b j0 = at_ a i)
      by (intros j0 H0; apply Hjs; now right).
    destruct (j <? blo) eqn:Hlo; [now apply IH|].
    destruct (bhi <=? j) eqn:Hhi; [now split|].
    apply Nat.ltb_ge in Hlo. apply Nat.leb_gt in Hhi.
    destruct best as [[besti bestj] bestsize].
    assert (Hk : j2len_get j2len j <= i - alo
                 /\ j2len_get j2len j <= j - blo
                 /\ forall t, t < j2len_get j2len j ->
                              at_ a (i - 1 - t) = at_ b (j - 1 - t)).
    { destruct j as [|j']; cbn [j2len_get].
      - repeat split; lia.
      - destruct (Hold j') as [H1 [H2 [_ H4]]]. repeat split; try lia.
        intros t Ht. rewrite (H4 t Ht). f_equal. lia. }
    destruct Hk as [Hk1 [Hk2 Hk3]].
    set (k := j2len_get j2len j + 1) in *.
    assert (Hrun : forall t, t < k -> at_ a (i - t) = at_ b (j - t)).
    { intros [|t] Ht.
      - rewrite !Nat.sub_0_r. symmetry. apply Hjs. now left.
      - replace (i - S t) with (i - 1 - t) by lia.
        replace (j - S t) with (j - 1 - t) by lia.
        apply Hk3. unfold k in Ht. lia. }
    apply IH; [exact Hjs'| |].
    + intro j0. cbn [assoc_nat]. destruct (j =? j0) eqn:E; [|apply Hnew].
      apply Nat.eqb_eq in E. subst j0. cbv zeta.
      repeat split; try (unfold k; lia).
      intros t Ht. replace (S i - 1 - t) with (i - t) by lia. now apply Hrun.
    + destruct (bestsize <? k) eqn:Hb; [|exact Hbest].
      unfold best_ok. repeat split; try (unfold k; lia).
      intros t Ht.
      replace (i + 1 - k + t) with (i - (k - 1 - t)) by (unfold k in *; lia).
      replace (j + 1 - k + t) with (j - (k - 1 - t)) by (unfold k in *; lia).
      apply Hrun. lia.
Qed.

Lemma j2len_ok_nil (i : nat) : j2len_ok a b alo blo bhi i [].
Proof.
  intro j. cbn [assoc_nat]. cbv zeta. repeat split; lia.
Qed.

Lemma best_ok_step (i : nat) (best : Match) :
  best_ok a b alo blo bhi i best -> best_ok a b alo blo bhi (S i) best.
Proof.
  destruct best as [[besti bestj] bestsize]. unfold best_ok.
  intros [H1 [H2 [H3 [H4 [H0 H5]]]]]. intuition lia.
Qed.

Lemma flm_loop_ok (n i : nat) (j2len : list (nat * nat)) (best : Match) :
  alo <= i ->
  j2len_ok a b alo blo bhi i j2len ->
  best_ok a b alo blo bhi i best ->
  best_ok a b alo blo bhi (i + n)
    (snd (fold_left
            (fun st i =>
               let '(j2len, best) := st in
               flm_inner (b2j b (at_ a i)) blo bhi i j2len [] best)
            (seq i n) (j2len, best))).
Proof.
  revert i j2len best; induction n as [|n IH]; intros i j2len best Hi Hold Hbest.
  - cbn [seq fold_left snd]. now rewrite Nat.add_0_r.
  - cbn [seq fold_left].
    pose proof (flm_inner_ok (b2j b (at_ a i)) i j2len [] best Hi
                  (fun j Hj => b2j_spec b (at_ a i) j Hj) Hold
                  (j2len_ok_nil (S i)) (best_ok_step i best Hbest)) as Hin.
    destruct (flm_inner (b2j b (at_ a i)) blo bhi i j2len [] best)
      as [newj2len best'].
    destruct Hin as [Hnew Hb].
    replace (i + S n) with (S i + n) by lia.
    apply IH; [lia|exact Hnew|exact Hb].
Qed.

Lemma extend_back_ok (i : nat) (besti bestj bestsize : nat) :
  best_ok a b alo blo bhi i (besti, bestj, bestsize) ->
  best_ok a b alo blo bhi i (extend_back a b alo blo besti bestj bestsize).
Proof.
  revert bestj bestsize; induction besti as [|i' IH]; intros bestj bestsize H.
  - exact H.
  - destruct bestj as [|j']; [exact H|].
    cbn [extend_back].
    destruct ((alo <? S i') && (blo <? S j') && Ascii.eqb (at_ a i') (at_ b j'))
      eqn:E; [|exact H].
    apply andb_prop in E. destruct E as [E E3].
    apply andb_prop in E. destruct E as [E1 E2].
    apply Nat.ltb_lt in E1, E2. apply Ascii.eqb_eq in E3.
    apply IH. unfold best_ok in *.
    destruct H as [H1 [H2 [H3 [H4 [H0 H5]]]]].
    repeat split; try lia.
    intros [|t] Ht.
    + now rewrite !Nat.add_0_r.
    + replace (i' + S t) with (S i' + t) by lia.
      replace (j' + S t) with (S j' + t) by lia. apply H5. lia.
Qed.

Lemma extend_forward_ok (ahi : nat) (besti bestj bestsize room : nat) :
  besti + bestsize + room <= ahi ->
  best_ok a b alo blo bhi (besti + bestsize) (besti, bestj, bestsize) ->
  let '(i, j, k) := extend_forward a b bhi besti bestj bestsize room in
  best_ok a b alo blo bhi (i + k) (i, j, k) /\ i + k <= ahi.
Proof.
  revert bestsize; induction room as [|room IH]; intros bestsize Hr H;
    cbn [extend_forward].
  - split; [exact H|lia].
  - destruct ((bestj + bestsize <? bhi)
              && Ascii.eqb (at_ a (besti + bestsize)) (at_ b (bestj + bestsize)))
      eqn:E; [|split; [exact H|lia]].
    apply andb_prop in E. destruct E as [E1 E2].
    apply Nat.ltb_lt in E1. apply Ascii.eqb_eq in E2.
    apply IH; [lia|].
    unfold best_ok in *. destruct H as [H1 [H2 [H3 [H4 [H0 H5]]]]].
    repeat split; try lia.
    intros t Ht. destruct (Nat.eq_dec t bestsize) as [->|Hne]; [exact E2|].
    apply H5. lia.
Qed.

Lemma best_ok_weaken (i i' : nat) (best : Match) :
  best_ok a b alo blo bhi i best ->
  (let '(besti, _, bestsize) := best in besti + bestsize <= i') ->
  best_ok a b alo blo bhi i' best.
Proof.
  destruct best as [[besti bestj] bestsize]. unfold best_ok.
  intros [H1 [H2 [H3 [H4 [H0 H5]]]]] H. intuition lia.
Qed.

(** The block [find_longest_match] returns is a common substring of
    [a[alo:ahi]] and [b[blo:bhi]]; an empty block sits at
    [(alo, blo)] or later. *)
Lemma find_longest_match_ok (ahi : nat) :
  let '(i, j, k) := find_longest_match a b alo ahi blo bhi in
  alo <= i /\ blo <= j
  /\ (0 < k -> i + k <= ahi /\ j + k <= bhi)
  /\ forall t, t < k -> at_ a (i + t) = at_ b (j + t).
Proof.
  unfold find_longest_match.
  assert (H1 : best_ok a b alo blo bhi (alo + (ahi - alo))
                 (snd (flm_outer a b alo ahi blo bhi))).
  { unfold flm_outer. apply flm_loop_ok; [lia|apply j2len_ok_nil|].
    unfold best_ok. repeat split; lia. }
  destruct (flm_outer a b alo ahi blo bhi) as [j2len [[besti bestj] bestsize]].
  cbn [snd] in H1.
  pose proof (extend_back_ok _ besti bestj bestsize H1) as H2.
  assert (Hsum : let '(i1, _, k1) := extend_back a b alo blo besti bestj bestsize in
                 i1 + k1 = besti + bestsize).
  { pose proof (extend_back_within a b alo blo besti bestj bestsize) as Hw.
    destruct (extend_back a b alo blo besti bestj bestsize) as [[i1 j1] k1].
    unfold best_ok in H1. apply Hw. tauto. }
  destruct (extend_back a b alo blo besti bestj bestsize) as [[i1 j1] k1].
  assert (H2' : best_ok a b alo blo bhi (i1 + k1) (i1, j1, k1)).
  { apply (best_ok_weaken _ _ _ H2). lia. }
  destruct (le_lt_dec (i1 + k1) ahi) as [Hle|Hgt].
  - pose proof (extend_forward_ok ahi i1 j1 k1 (ahi - (i1 + k1))
                  ltac:(lia) H2') as H3.
    destruct (extend_forward a b bhi i1 j1 k1 (ahi - (i1 + k1))) as [[i j] k].
    destruct H3 as [H3 H3']. unfold best_ok in H3.
    destruct H3 as [Ha [_ [Hb [Hc [_ Hd]]]]]. repeat split; auto.
  - replace (ahi - (i1 + k1)) with 0 by lia. cbn [extend_forward].
    unfold best_ok in H1, H2'.
    destruct H1 as [? [? _]]. destruct H2' as [Ha [_ [Hb [Hc [_ Hd]]]]].
    repeat split; auto; lia.
Qed.

End LongestMatchSound.

Lemma total_size_app (l1 l2 : list Match) :
  total_size (l1 ++ l2) = total_size l1 + total_size l2.
Proof.
  induction l1 as [|m l1 IH]; simpl; [reflexivity|]. rewrite IH. lia.
Qed.

Lemma matching_loop_ok (a b : list ascii) (fuel : nat) (queue : list Range)
    (blocks result : list Match) :
  Forall (range_ok a b) queue ->
  Forall (is_match a b) blocks ->
  matching_loop fuel a b queue blocks = Some result ->
  Forall (is_match a b) result
  /\ total_size result <= total_size blocks + queue_room_a queue
  /\ total_size result <= total_size blocks + queue_room_b queue.
Proof.
  revert queue blocks; induction fuel as [|fuel IH]; intros queue blocks Hq Hb.
  - destruct queue as [|[[[alo ahi] blo] bhi] queue]; simpl; [|discriminate].
    intro H; inversion H; subst. repeat split; auto; lia.
  - destruct queue as [|[[[alo ahi] blo] bhi] queue].
    { simpl. intro H; inversion H; subst. repeat split; auto; lia. }
    cbn [matching_loop].
    pose proof (find_longest_match_ok a b alo blo bhi ahi) as Hf.
    destruct (find_longest_match a b alo ahi blo bhi) as [[i j] k].
    destruct Hf as [Hi [Hj [Hk Hrun]]].
    inversion Hq as [|? ? Hr Hq']; subst. destruct Hr as [Hra Hrb].
    destruct (0 <? k) eqn:E.
    + apply Nat.ltb_lt in E. destruct (Hk E) as [Hka Hkb].
      intro Hres. apply IH in Hres.
      * destruct Hres as [H1 [H2 H3]]. split; [exact H1|].
        rewrite total_size_app in H2, H3. cbn [total_size fold_right snd] in H2, H3.
        destruct ((alo <? i) && (blo <? j)), ((i + k <? ahi) && (j + k <? bhi));
          cbn [queue_room_a queue_room_b] in *; lia.
      * destruct ((alo <? i) && (blo <? j)), ((i + k <? ahi) && (j + k <? bhi));
          repeat (constructor; [unfold range_ok; lia|]); exact Hq'.
      * apply Forall_app. split; [exact Hb|]. constructor; [|constructor].
        unfold is_match. repeat split; try lia. exact Hrun.
    + intro Hres. apply IH in Hres; [|exact Hq'|exact Hb].
      destruct Hres as [H1 [H2 H3]]. split; [exact H1|].
      cbn [queue_room_a queue_room_b]. lia.
Qed.

Lemma in_insert_match (x y : Match) (l : list Match) :
  In y (insert_match x l) -> y = x \/ In y l.
Proof.
  induction l as [|z l IH]; simpl.
  - intros [<-|[]]. now left.
  - destruct (match_ltb z x); simpl.
    + intros [<-|H]; [right; now left|].
      destruct (IH H); [now left|right; now right].
    + intros [<-|H]; [now left|now right].
Qed.

Lemma total_size_insert_match (x : Match) (l : list Match) :
  total_size (insert_match x l) = snd x + total_size l.
Proof.
  induction l as [|z l IH]; simpl; [reflexivity|].
  destruct (match_ltb z x); simpl; [rewrite IH|]; lia.
Qed.

Lemma sort_matches_ok (a b : list ascii) (l : list Match) :
  Forall (is_match a b) l ->
  Forall (is_match a b) (sort_matches l)
  /\ total_size (sort_matches l) = total_size l.
Proof.
  induction l as [|x l IH]; intro H; [now split|].
  inversion H as [|? ? Hx Hl]; subst. destruct (IH Hl) as [H1 H2].
  cbn [sort_matches fold_right]. fold (sort_matches l). split.
  - apply Forall_forall. intros y Hy. apply in_insert_match in Hy.
    destruct Hy as [->|Hy]; [exact Hx|].
    rewrite Forall_forall in H1. now apply H1.
  - rewrite total_size_insert_match, H2. reflexivity.
Qed.

Lemma collapse_adjacent_ok (a b : list ascii) (blocks : list Match)
    (i1 j1 k1 : nat) (non_adjacent : list Match) :
  Forall (is_match a b) blocks ->
  is_match a b (i1, j1, k1) ->
  Forall (is_match a b) non_adjacent ->
  Forall (is_match a b) (collapse_adjacent blocks i1 j1 k1 non_adjacent)
  /\ total_size (collapse_adjacent blocks i1 j1 k1 non_adjacent)
     = total_size non_adjacent + k1 + total_size blocks.
Proof.
  revert i1 j1 k1 non_adjacent;
    induction blocks as [|[[i2 j2] k2] blocks IH];
    intros i1 j1 k1 non_adjacent Hb H1 Hn.
  - cbn [collapse_adjacent]. destruct (0 <? k1) eqn:E.
    + split.
      * apply Forall_app. split; [exact Hn|]. constructor; [exact H1|constructor].
      * rewrite total_size_app. simpl. lia.
    + apply Nat.ltb_ge in E. split; [exact Hn|]. simpl. lia.
  - inversion Hb as [|? ? H2 Hb']; subst. cbn [collapse_adjacent].
    destruct ((i1 + k1 =? i2) && (j1 + k1 =? j2)) eqn:E.
    + apply andb_prop in E. destruct E as [E1 E2].
      apply Nat.eqb_eq in E1, E2. subst i2 j2.
      destruct (IH i1 j1 (k1 + k2) non_adjacent Hb') as [H3 H4]; [|exact Hn|].
      * unfold is_match in *. destruct H1 as [Ha [Hb1 Hc]].
        destruct H2 as [Ha2 [Hb2 Hc2]]. repeat split; try lia.
        intros t Ht. destruct (lt_dec t k1) as [Hlt|Hge]; [now apply Hc|].
        replace (i1 + t) with (i1 + k1 + (t - k1)) by lia.
        replace (j1 + t) with (j1 + k1 + (t - k1)) by lia.
        apply Hc2. lia.
      * split; [exact H3|]. rewrite H4. simpl. lia.
    + destruct (IH i2 j2 k2
                  (if 0 <? k1 then non_adjacent ++ [(i1, j1, k1)] else non_adjacent)
                  Hb' H2) as [H3 H4].
      * destruct (0 <? k1); [|exact Hn].
        apply Forall_app. split; [exact Hn|]. constructor; [exact H1|constructor].
      * split; [exact H3|]. rewrite H4.
        destruct (0 <? k1) eqn:E1.
        -- rewrite total_size_app. simpl. lia.
        -- apply Nat.ltb_ge in E1. simpl. lia.
Qed.

Lemma fold_left_total_size (l : list Match) (acc : nat) :
  fold_left (fun acc m => acc + snd m) l acc = acc + total_size l.
Proof.
  revert acc; induction l as [|m l IH]; intro acc; simpl; [lia|].
  rewrite IH. lia.
Qed.

Lemma get_matching_blocks_ok (a b : list ascii) :
  Forall (is_match a b) (get_matching_blocks a b)
  /\ total_size (get_matching_blocks a b) <= length a
  /\ total_size (get_matching_blocks a b) <= length b.
Proof.
  unfold get_matching_blocks.
  assert (H : exists blocks,
             Forall (is_match a b) blocks
             /\ total_size blocks <= length a /\ total_size blocks <= length b
             /\ match matching_loop (blocks_fuel a) a b
                        [(0, length a, 0, length b)] [] with
                | Some blocks => blocks
                | None => []
                end = blocks).
  { destruct (matching_loop (blocks_fuel a) a b [(0, length a, 0, length b)] [])
      as [blocks|] eqn:E.
    - apply matching_loop_ok in E.
      + destruct E as [H1 [H2 H3]]. exists blocks.
        cbn [total_size fold_right queue_room_a queue_room_b] in H2, H3.
        repeat split; auto; lia.
      + constructor; [unfold range_ok; lia|constructor].
      + constructor.
    - exists []. repeat split; simpl; auto; lia. }
  destruct H as [blocks [H1 [H2 [H3 ->]]]].
  destruct (sort_matches_ok a b blocks H1) as [H4 H5].
  destruct (collapse_adjacent_ok a b (sort_matches blocks) 0 0 0 [] H4) as [H6 H7].
  { unfold is_match. repeat split; lia. }
  { constructor. }
  split; [|split].
  - apply Forall_app. split; [exact H6|]. constructor; [|constructor].
    unfold is_match. repeat split; lia.
  - rewrite total_size_app, H7, H5. simpl. lia.
  - rewrite total_size_app, H7, H5. simpl. lia.
Qed.

(** X6. Every block [get_matching_blocks] returns is a common substring:
    it lies inside both strings and the characters it pairs are
    equal; the list ends with the sentinel [(len(a), len(b), 0)]. *)
Theorem matching_blocks_are_common_substrings (a b : list ascii) :
  (forall i j k, In (i, j, k) (get_matching_blocks a b) ->
     i + k <= length a /\ j + k <= length b
     /\ forall t, t < k -> at_ a (i + t) = at_ b (j + t))
  /\ last (get_matching_blocks a b) (0, 0, 0) = (length a, length b, 0).
Proof.
  split.
  - intros i j k Hin.
    destruct (get_matching_blocks_ok a b) as [H _].
    rewrite Forall_forall in H. exact (H _ Hin).
  - unfold get_matching_blocks. apply last_last.
Qed.

(** X7. The matched characters are at most the characters of either
    string, so the numerator [2 * M] of the ratio never exceeds its
    denominator [len(a) + len(b)]. *)
Theorem matches_bounded (a b : list ascii) :
  matches a b <= length a
  /\ matches a b <= length b
  /\ 2 * matches a b <= length a + length b.
Proof.
  unfold matches. rewrite fold_left_total_size.
  destruct (get_matching_blocks_ok a b) as [_ [H1 H2]]. lia.
Qed.

(** ** The candidate finder and the match list *)

Lemma mem_string_In (x : string) (l : list string) :
  mem_string x l = true <-> In x l.
Proof.
  induction l as [|y l IH]; simpl; [split; [discriminate|tauto]|].
  rewrite orb_true_iff, String.eqb_eq, IH. tauto.
Qed.

Lemma unique_by_id_spec (candidates : list CustomerModel) (seen_ids : list string) :
  NoDup (map cm_id (unique_by_id candidates seen_ids))
  /\ (forall m, In m (unique_by_id candidates seen_ids) ->
                In m candidates /\ ~ In (cm_id m) seen_ids)
  /\ (forall m, In m candidates ->
                In (cm_id m) seen_ids
                \/ In (cm_id m) (map cm_id (unique_by_id candidates seen_ids))).
Proof.
  revert seen_ids; induction candidates as [|c rest IH]; intro seen_ids.
  - simpl. repeat split; try constructor; tauto.
  - cbn [unique_by_id].
    destruct (mem_string (cm_id c) seen_ids) eqn:E.
    + destruct (IH seen_ids) as [H1 [H2 H3]]. apply mem_string_In in E.
      split; [exact H1|]. split.
      * intros m Hm. destruct (H2 m Hm). split; [now right|assumption].
      * intros m [<-|Hm]; [now left|now apply H3].
    + destruct (IH (cm_id c :: seen_ids)) as [H1 [H2 H3]].
      assert (Hc : ~ In (cm_id c) seen_ids).
      { intro Hin. apply mem_string_In in Hin. congruence. }
      split; [|split].
      * cbn [map]. constructor; [|exact H1].
        intro Hin. apply in_map_iff in Hin. destruct Hin as [m [Hid Hm]].
        destruct (H2 m Hm) as [_ Hn]. apply Hn. left. now symmetry.
      * intros m [<-|Hm]; [split; [now left|exact Hc]|].
        destruct (H2 m Hm) as [Hin Hn]. split; [now right|].
        intro Hs. apply Hn. now right.
      * intros m [<-|Hm]; [right; now left|].
        destruct (H3 m Hm) as [[Heq|Hs]|Hr].
        -- right. left. exact Heq.
        -- now left.
        -- right. now right.
Qed.

Lemma run_query_rows (sql_like sql_ilike : string -> string -> bool)
    (d : Database) (q : Query) (m : CustomerModel) :
  In m (run_query sql_like sql_ilike d q) -> In m (customers d).
Proof.
  destruct q; cbn [run_query]; intro H; apply filter_In in H; tauto.
Qed.

Lemma find_potential_matches_rows
    (sql_like sql_ilike : string -> string -> bool)
    (self : CustomerDataPlatform) (customer_data : CustomerData) :
  NoDup (map cm_id
           (_find_potential_matches_in_db sql_like sql_ilike self customer_data))
  /\ (forall m,
        In m (_find_potential_matches_in_db sql_like sql_ilike self customer_data) ->
        In m (customers (db self))).
Proof.
  unfold _find_potential_matches_in_db.
  destruct (unique_by_id_spec
              (flat_map (run_query sql_like sql_ilike (db self))
                 (candidate_queries customer_data)) []) as [H1 [H2 _]].
  split; [exact H1|].
  intros m Hm. destruct (H2 m Hm) as [Hin _].
  apply in_flat_map in Hin. destruct Hin as [q [_ Hq]].
  now apply run_query_rows in Hq.
Qed.

(** X8. The candidates are rows of the store, no two of them with the same
    id, and no row found by one of the lookups is lost when the
    duplicates are removed. *)
Theorem find_potential_matches_unique
    (sql_like sql_ilike : string -> string -> bool)
    (self : CustomerDataPlatform) (customer_data : CustomerData) :
  let candidates :=
    _find_potential_matches_in_db sql_like sql_ilike self customer_data in
  NoDup (map cm_id candidates)
  /\ (forall m, In m candidates -> In m (customers (db self)))
  /\ (forall q m, In q (candidate_queries customer_data) ->
                  In m (run_query sql_like sql_ilike (db self) q) ->
                  In (cm_id m) (map cm_id candidates)).
Proof.
  cbv zeta.
  destruct (find_potential_matches_rows sql_like sql_ilike self customer_data)
    as [H1 H2].
  split; [exact H1|]. split; [exact H2|].
  intros q m Hq Hm. unfold _find_potential_matches_in_db.
  destruct (unique_by_id_spec
              (flat_map (run_query sql_like sql_ilike (db self))
                 (candidate_queries customer_data)) []) as [_ [_ H3]].
  destruct (H3 m) as [[]|H]; [|exact H].
  apply in_flat_map. now exists q.
Qed.

Lemma insert_by_score_perm (x : MatchResult) (l : list MatchResult) :
  Permutation (insert_by_score x l) (x :: l).
Proof.
  induction l as [|y l IH]; simpl; [reflexivity|].
  destruct (PrimFloat.ltb (mr_score x) (mr_score y)); [|reflexivity].
  rewrite IH. apply perm_swap.
Qed.

Lemma sort_by_score_perm (l : list MatchResult) :
  Permutation (sort_by_score l) l.
Proof.
  induction l as [|x l IH]; simpl; [reflexivity|].
  rewrite insert_by_score_perm. now constructor.
Qed.

Lemma match_candidate_spec (self : CustomerDataPlatform)
    (customer_data : CustomerData) (model : CustomerModel) (m : MatchResult) :
  In m (match_candidate self customer_data model) ->
  match_candidate self customer_data model = [m]
  /\ mr_customer_id m = cm_id model
  /\ (mr_score m, mr_conflicts m)
     = calculate_match_score (matcher self) customer_data
         (_model_to_customer_data model)
  /\ PrimFloat.ltb (mr_score m) (match_threshold self) = false.
Proof.
  unfold match_candidate.
  destruct (calculate_match_score (matcher self) customer_data
              (_model_to_customer_data model)) as [score conflicts].
  destruct (PrimFloat.ltb score (match_threshold self)) eqn:E; [intros []|].
  destruct conflicts; intros [<-|[]]; repeat split; assumption.
Qed.

Lemma flat_map_ids (self : CustomerDataPlatform) (customer_data : CustomerData)
    (rows : list CustomerModel) :
  NoDup (map cm_id rows) ->
  NoDup (map mr_customer_id
           (flat_map (match_candidate self customer_data) rows)).
Proof.
  induction rows as [|r rows IH]; intro H; [constructor|].
  cbn [map] in H. inversion H as [|? ? Hn Hd]; subst.
  cbn [flat_map]. rewrite map_app. specialize (IH Hd).
  destruct (match_candidate self customer_data r) as [|m l] eqn:E; [exact IH|].
  pose proof (match_candidate_spec self customer_data r m) as Hs.
  rewrite E in Hs. destruct (Hs (or_introl eq_refl)) as [Hl [Hid _]].
  inversion Hl; subst l. cbn [map app]. constructor; [|exact IH].
  rewrite Hid. intro Hin. apply Hn.
  apply in_map_iff in Hin. destruct Hin as [m' [Hid' Hm']].
  apply in_flat_map in Hm'. destruct Hm' as [r' [Hr' Hm'']].
  apply match_candidate_spec in Hm''. destruct Hm'' as [_ [Hid'' _]].
  apply in_map_iff. exists r'. split; [congruence|exact Hr'].
Qed.

(** X9. Every match in the list is about a row of the store, carries the
    score and the conflicts [calculate_match_score] gives for that row,
    has a score that is not below the threshold, and is marked safe
    exactly when its conflict map is empty; no customer appears twice. *)
Theorem find_matching_customers_sound
    (sql_like sql_ilike : string -> string -> bool)
    (self : CustomerDataPlatform) (customer_data : CustomerData) :
  let matches := _find_matching_customers sql_like sql_ilike self customer_data in
  (forall m, In m matches ->
     exists model,
       In model (customers (db self))
       /\ mr_customer_id m = cm_id model
       /\ (mr_score m, mr_conflicts m)
          = calculate_match_score (matcher self) customer_data
              (_model_to_customer_data model)
       /\ PrimFloat.ltb (mr_score m) (match_threshold self) = false
       /\ mr_is_safe_match m
          = match mr_conflicts m with [] => true | _ :: _ => false end)
  /\ NoDup (map mr_customer_id matches)
  /\ length matches <= length (customers (db self)).
Proof.
  cbv zeta.
  destruct (find_potential_matches_rows sql_like sql_ilike self customer_data)
    as [Hnd Hrows].
  unfold _find_matching_customers.
  set (rows := _find_potential_matches_in_db sql_like sql_ilike self customer_data)
    in *.
  pose proof (sort_by_score_perm
                (flat_map (match_candidate self customer_data) rows)) as Hp.
  split; [|split].
  - intros m Hm. apply (Permutation_in _ Hp) in Hm.
    apply in_flat_map in Hm. destruct Hm as [model [Hmodel Hm]].
    pose proof (match_candidate_safe self customer_data model m Hm) as Hsafe.
    apply match_candidate_spec in Hm. destruct Hm as [_ [Hid [Hs Ht]]].
    exists model. repeat split; auto.
  - apply (Permutation_NoDup (Permutation_sym (Permutation_map _ Hp))).
    now apply flat_map_ids.
  - rewrite (Permutation_length Hp).
    assert (Hl : length (flat_map (match_candidate self customer_data) rows)
                 <= length rows).
    { clear. induction rows as [|r rows IH]; [simpl; lia|].
      cbn [flat_map]. rewrite length_app. cbn [length].
      unfold match_candidate at 1.
      destruct (calculate_match_score _ _ _) as [s c].
      destruct (PrimFloat.ltb s _); [simpl; lia|].
      destruct c; simpl; lia. }
    assert (Hr : length rows <= length (customers (db self))).
    { rewrite <- (length_map cm_id rows), <- (length_map cm_id (customers (db self))).
      apply NoDup_incl_length; [exact Hnd|].
      intros i Hi. apply in_map_iff in Hi. destruct Hi as [m [<- Hm]].
      apply in_map. now apply Hrows. }
    lia.
Qed.

(** ** What [add_customer_data] does to the store *)

Lemma getattr_fold_setattr (g : Field -> option string) (l : list Field)
    (d : CustomerData) (x : Field) :
  getattr (fold_left (fun d f => setattr d f (g f)) l d) x
  = if existsb (field_eqb x) l then g x else getattr d x.
Proof.
  revert d; induction l as [|f l IH]; intro d; [reflexivity|].
  cbn [fold_left existsb]. rewrite IH, getattr_setattr.
  destruct (existsb (field_eqb x) l); [now rewrite orb_true_r|].
  rewrite orb_false_r.
  destruct (field_eqb_spec x f) as [->|Hne].
  - now rewrite field_eqb_refl.
  - destruct (field_eqb_spec f x); congruence.
Qed.

Lemma copy_all_fields (merged d : CustomerData) :
  fold_left (fun d field => setattr d field (getattr merged field))
    VALID_CUSTOMER_FIELDS d
  = merged.
Proof.
  apply CustomerData_ext. intro f.
  now rewrite getattr_fold_setattr, existsb_VALID_CUSTOMER_FIELDS.
Qed.

Lemma find_by_id_some (rows : list CustomerModel) (i : string) (m : CustomerModel) :
  find (fun r => String.eqb (cm_id r) i) rows = Some m ->
  cm_id m = i /\ In m rows.
Proof.
  intro H. apply find_some in H. destruct H as [Hin Heq].
  apply String.eqb_eq in Heq. now split.
Qed.

Lemma write_row_keys (model existing : CustomerModel) (rows : list CustomerModel) :
  find (fun r => String.eqb (cm_id r) (cm_id model)) rows = Some existing ->
  cm_created_at model = cm_created_at existing ->
  map (fun m => (cm_id m, cm_created_at m)) (write_row model rows)
  = map (fun m => (cm_id m, cm_created_at m)) rows.
Proof.
  intros Hf Hc. induction rows as [|r rows IH]; [reflexivity|].
  cbn [find write_row] in *.
  destruct (String.eqb (cm_id r) (cm_id model)) eqn:E.
  - inversion Hf; subst r. apply String.eqb_eq in E.
    cbn [map]. now rewrite E, Hc.
  - cbn [map]. now rewrite (IH Hf).
Qed.

Lemma write_row_ids (model existing : CustomerModel) (rows : list CustomerModel) :
  find (fun r => String.eqb (cm_id r) (cm_id model)) rows = Some existing ->
  map cm_id (write_row model rows) = map cm_id rows.
Proof.
  intro Hf. induction rows as [|r rows IH]; [reflexivity|].
  cbn [find write_row] in *.
  destruct (String.eqb (cm_id r) (cm_id model)) eqn:E.
  - apply String.eqb_eq in E. cbn [map]. now rewrite E.
  - cbn [map]. now rewrite (IH Hf).
Qed.

Lemma write_row_find (model existing : CustomerModel) (rows : list CustomerModel) :
  find (fun r => String.eqb (cm_id r) (cm_id model)) rows = Some existing ->
  find (fun r => String.eqb (cm_id r) (cm_id model)) (write_row model rows)
  = Some model.
Proof.
  intro Hf. induction rows as [|r rows IH]; [discriminate|].
  cbn [find write_row] in *.
  destruct (String.eqb (cm_id r) (cm_id model)) eqn:E.
  - cbn [find]. now rewrite String.eqb_refl.
  - cbn [find]. rewrite E. now apply IH.
Qed.

Lemma write_row_find_other (model : CustomerModel) (rows : list CustomerModel)
    (i : string) :
  i <> cm_id model ->
  find (fun r => String.eqb (cm_id r) i) (write_row model rows)
  = find (fun r => String.eqb (cm_id r) i) rows.
Proof.
  intro Hne. induction rows as [|r rows IH]; [reflexivity|].
  cbn [write_row].
  destruct (String.eqb (cm_id r) (cm_id model)) eqn:E.
  - apply String.eqb_eq in E. cbn [find].
    assert (H1 : String.eqb (cm_id model) i = false)
      by (apply String.eqb_neq; congruence).
    assert (H2 : String.eqb (cm_id r) i = false)
      by (apply String.eqb_neq; congruence).
    now rewrite H1, H2.
  - cbn [find]. destruct (String.eqb (cm_id r) i); [reflexivity|exact IH].
Qed.

(** The customer of a match is a row of the store. *)
Lemma best_match_is_stored (sql_like sql_ilike : string -> string -> bool)
    (self : CustomerDataPlatform) (customer_data : CustomerData)
    (best_match : MatchResult) (others : list MatchResult) :
  _find_matching_customers sql_like sql_ilike self customer_data
  = best_match :: others ->
  exists existing,
    first_by_id (db self) (mr_customer_id best_match) = Some existing.
Proof.
  intro Hm.
  destruct (find_potential_matches_rows sql_like sql_ilike self customer_data)
    as [_ Hrows].
  assert (Hin : In best_match
                  (_find_matching_customers sql_like sql_ilike self customer_data))
    by (rewrite Hm; now left).
  unfold _find_matching_customers in Hin.
  apply (Permutation_in _ (sort_by_score_perm _)) in Hin.
  apply in_flat_map in Hin. destruct Hin as [model [Hmodel Hb]].
  apply match_candidate_spec in Hb. destruct Hb as [_ [Hid _]].
  unfold first_by_id.
  destruct (find (fun m => String.eqb (cm_id m) (mr_customer_id best_match))
              (customers (db self))) as [e|] eqn:E; [now exists e|].
  pose proof (find_none _ _ E model (Hrows _ Hmodel)) as Hn.
  cbv beta in Hn. rewrite Hid, String.eqb_refl in Hn. discriminate.
Qed.

(** The four ways [add_customer_data] can end, each with the state it
    leaves. *)
Lemma add_customer_data_cases (sql_like sql_ilike : string -> string -> bool)
    (self : CustomerDataPlatform) (customer_data : CustomerData)
    (source : string) (force_merge : bool)
    (current_time merge_time new_id : string) :
  let r := add_customer_data sql_like sql_ilike self customer_data source
             force_merge current_time merge_time new_id in
  let matches := _find_matching_customers sql_like sql_ilike self customer_data in
  (matches = []
   /\ exists message,
        fst r = created new_id message
        /\ snd r
           = mkCustomerDataPlatform
               (mkDatabase
                  (customers (db self)
                   ++ [mkCustomerModel new_id customer_data current_time
                         current_time [source] 1.0%float])
                  (customer_history (db self)))
               (matcher self) (match_threshold self))
  \/ (exists best_match others message suggested_actions,
        matches = best_match :: others
        /\ mr_is_safe_match best_match = false /\ force_merge = false
        /\ fst r = conflict_detected message (mr_conflicts best_match)
                     suggested_actions (mr_score best_match)
                     (mr_reason best_match)
        /\ snd r = self)
  \/ (exists best_match others existing message,
        matches = best_match :: others
        /\ (mr_is_safe_match best_match = true \/ force_merge = true)
        /\ first_by_id (db self) (mr_customer_id best_match) = Some existing
        /\ fst r
           = updated (mr_customer_id best_match)
               (if force_merge && negb (mr_is_safe_match best_match)
                then "forced_merge" else "safe_merge")
               message (mr_score best_match)
               (if negb (mr_is_safe_match best_match)
                then mr_conflicts best_match else [])
               (length (snd (_merge_customer_data (cm_data existing)
                               customer_data source merge_time)))
        /\ snd r
           = mkCustomerDataPlatform
               (mkDatabase
                  (write_row
                     (mkCustomerModel (cm_id existing)
                        (fst (_merge_customer_data (cm_data existing)
                                customer_data source merge_time))
                        (cm_created_at existing) current_time
                        (if mem_string source (cm_sources existing)
                         then cm_sources existing
                         else cm_sources existing ++ [source])
                        (float_max (cm_confidence_score existing)
                           (mr_score best_match)))
                     (customers (db self)))
                  (customer_history (db self)
                   ++ map (history_model (mr_customer_id best_match))
                        (snd (_merge_customer_data (cm_data existing)
                                customer_data source merge_time))))
               (matcher self) (match_threshold self)).
Proof.
  cbv zeta. unfold add_customer_data.
  destruct (_find_matching_customers sql_like sql_ilike self customer_data)
    as [|best_match others] eqn:Hm.
  - left. split; [reflexivity|]. eexists. split; [reflexivity|].
    cbn [snd]. now destruct customer_data.
  - right.
    destruct (best_match_is_stored _ _ _ _ _ _ Hm) as [existing He].
    destruct (negb (mr_is_safe_match best_match) && negb force_merge) eqn:E.
    + left. apply andb_prop in E. destruct E as [E1 E2].
      apply negb_true_iff in E1, E2.
      exists best_match, others. do 2 eexists. repeat split; auto.
    + right. rewrite He.
      assert (Hd : _model_to_customer_data existing = cm_data existing)
        by (unfold _model_to_customer_data; now destruct (cm_data existing)).
      rewrite Hd.
      destruct (_merge_customer_data (cm_data existing) customer_data source
                  merge_time) as [merged_data new_history] eqn:Hmerge.
      rewrite copy_all_fields.
      exists best_match, others, existing. eexists.
      rewrite Hmerge. cbn [fst snd].
      split; [reflexivity|]. split.
      { destruct (mr_is_safe_match best_match), force_merge;
          simpl in E; try discriminate; auto. }
      split; [exact He|]. split; reflexivity.
Qed.

Lemma find_app_other {A : Type} (p : A -> bool) (l : list A) (x : A) :
  p x = false -> find p (l ++ [x]) = find p l.
Proof.
  intro H. induction l as [|y l IH]; simpl; [now rewrite H|].
  now destruct (p y).
Qed.

(** X10. [add_customer_data] ends in one of three ways, never with the
    "customer not found" error: the customer of the best match is
    always a row of the store.  It creates exactly when nothing
    matches, and with [force_merge] it never reports a conflict. *)
Theorem add_customer_data_outcomes
    (sql_like sql_ilike : string -> string -> bool)
    (self : CustomerDataPlatform) (customer_data : CustomerData)
    (source : string) (force_merge : bool)
    (current_time merge_time new_id : string) :
  let r := add_customer_data sql_like sql_ilike self customer_data source
             force_merge current_time merge_time new_id in
  (status (fst r) = "created" \/ status (fst r) = "updated"
   \/ status (fst r) = "conflict_detected")
  /\ (status (fst r) = "created"
      <-> _find_matching_customers sql_like sql_ilike self customer_data = [])
  /\ (force_merge = true -> status (fst r) <> "conflict_detected").
Proof.
  cbv zeta.
  destruct (add_customer_data_cases sql_like sql_ilike self customer_data source
              force_merge current_time merge_time new_id)
    as [[Hm [msg [Hr Hs]]]
       |[[best [others [msg [acts [Hm [Hsafe [Hf [Hr Hs]]]]]]]]
        |[best [others [existing [msg [Hm [Hok [He [Hr Hs]]]]]]]]]];
    rewrite Hr; cbn [status].
  - split; [now left|]. split; [tauto|]. intros _; discriminate.
  - split; [right; now right|]. split.
    + rewrite Hm. split; discriminate.
    + congruence.
  - split; [right; now left|]. split.
    + rewrite Hm. split; discriminate.
    + intros _; discriminate.
Qed.

(** X11. [add_customer_data] never removes, reorders or rekeys a row and
    never rewrites history: the matcher and the threshold stay, the
    history table only grows at its end, and the keys and creation
    times of the rows are those of before, followed by the new row
    when one is created. *)
Theorem add_customer_data_only_appends
    (sql_like sql_ilike : string -> string -> bool)
    (self : CustomerDataPlatform) (customer_data : CustomerData)
    (source : string) (force_merge : bool)
    (current_time merge_time new_id : string) :
  let r := add_customer_data sql_like sql_ilike self customer_data source
             force_merge current_time merge_time new_id in
  matcher (snd r) = matcher self
  /\ match_threshold (snd r) = match_threshold self
  /\ (exists rows,
        customer_history (db (snd r)) = customer_history (db self) ++ rows
        /\ length rows = result_changes_made (fst r))
  /\ store_keys (db (snd r))
     = store_keys (db self)
       ++ (if String.eqb (status (fst r)) "created"
           then [(new_id, current_time)] else []).
Proof.
  cbv zeta.
  destruct (add_customer_data_cases sql_like sql_ilike self customer_data source
              force_merge current_time merge_time new_id)
    as [[Hm [msg [Hr Hs]]]
       |[[best [others [msg [acts [Hm [Hsafe [Hf [Hr Hs]]]]]]]]
        |[best [others [existing [msg [Hm [Hok [He [Hr Hs]]]]]]]]]];
    rewrite Hr, Hs; cbn [status matcher match_threshold db customer_history
                         customers result_changes_made String.eqb Ascii.eqb
                         Bool.eqb];
    (split; [reflexivity|]); (split; [reflexivity|]).
  - split; [exists []; now rewrite app_nil_r|].
    unfold store_keys. cbn [customers]. now rewrite map_app.
  - split; [exists []; now rewrite app_nil_r|]. now rewrite app_nil_r.
  - split; [eexists; split; [reflexivity|now rewrite length_map]|].
    rewrite app_nil_r. unfold store_keys. cbn [customers].
    unfold first_by_id in He.
    destruct (find_by_id_some _ _ _ He) as [Hid _].
    apply (write_row_keys _ existing); [|reflexivity].
    cbn [cm_id]. now rewrite Hid.
Qed.

(** X12. The primary key survives: when the ids of the rows are pairwise
    distinct and the id drawn for a new customer is not in use, the
    ids are pairwise distinct after the call. *)
Theorem add_customer_data_keeps_ids_unique
    (sql_like sql_ilike : string -> string -> bool)
    (self : CustomerDataPlatform) (customer_data : CustomerData)
    (source : string) (force_merge : bool)
    (current_time merge_time new_id : string) :
  NoDup (map cm_id (customers (db self))) ->
  ~ In new_id (map cm_id (customers (db self))) ->
  NoDup (map cm_id
           (customers
              (db (snd (add_customer_data sql_like sql_ilike self customer_data
                          source force_merge current_time merge_time new_id))))).
Proof.
  intros Hnd Hfresh.
  destruct (add_customer_data_cases sql_like sql_ilike self customer_data source
              force_merge current_time merge_time new_id)
    as [[Hm [msg [Hr Hs]]]
       |[[best [others [msg [acts [Hm [Hsafe [Hf [Hr Hs]]]]]]]]
        |[best [others [existing [msg [Hm [Hok [He [Hr Hs]]]]]]]]]];
    rewrite Hs.
  - cbn [db customers]. rewrite map_app. cbn [map cm_id].
    apply NoDup_app; [exact Hnd|repeat constructor; simpl; tauto|].
    intros x Hx [<-|[]]. contradiction.
  - exact Hnd.
  - cbn [db customers].
    unfold first_by_id in He. destruct (find_by_id_some _ _ _ He) as [Hid _].
    rewrite (write_row_ids _ existing); [exact Hnd|].
    cbn [cm_id]. now rewrite Hid.
Qed.

Lemma add_customer_data_keeps_ids_unique_witness :
  NoDup (map cm_id
           (customers
              (db (snd (add_customer_data like_match ilike_match phone_store
                          email_and_birthdate "manual" false "t1" "t2" "id2"))))).
Proof.
  apply add_customer_data_keeps_ids_unique.
  - repeat constructor. simpl. tauto.
  - simpl. intros [H|[]]. discriminate.
Defined.

(** X13. A call touches at most one customer: looking up any id other than
    the one the result names finds what it found before. *)
Theorem add_customer_data_touches_one_customer
    (sql_like sql_ilike : string -> string -> bool)
    (self : CustomerDataPlatform) (customer_data : CustomerData)
    (source : string) (force_merge : bool)
    (current_time merge_time new_id : string) (i : string) :
  result_customer_id
    (fst (add_customer_data sql_like sql_ilike self customer_data source
            force_merge current_time merge_time new_id))
  <> Some i ->
  first_by_id
    (db (snd (add_customer_data sql_like sql_ilike self customer_data source
                force_merge current_time merge_time new_id))) i
  = first_by_id (db self) i.
Proof.
  destruct (add_customer_data_cases sql_like sql_ilike self customer_data source
              force_merge current_time merge_time new_id)
    as [[Hm [msg [Hr Hs]]]
       |[[best [others [msg [acts [Hm [Hsafe [Hf [Hr Hs]]]]]]]]
        |[best [others [existing [msg [Hm [Hok [He [Hr Hs]]]]]]]]]];
    rewrite Hr, Hs; cbn [result_customer_id]; intro Hne.
  - unfold first_by_id. cbn [db customers].
    apply find_app_other. cbn [cm_id]. apply String.eqb_neq. congruence.
  - reflexivity.
  - unfold first_by_id. cbn [db customers].
    apply write_row_find_other. cbn [cm_id].
    unfold first_by_id in He. destruct (find_by_id_some _ _ _ He) as [Hid _].
    congruence.
Qed.

Lemma add_customer_data_touches_one_customer_witness :
  first_by_id
    (db (snd (add_customer_data like_match ilike_match phone_store
                other_email "manual" false "t1" "t2" "id2"))) "id1"
  = first_by_id (db phone_store) "id1".
Proof.
  apply add_customer_data_touches_one_customer.
  vm_compute. discriminate.
Defined.

(** ** Reading customers back and deleting them *)

Lemma model_to_customer_data_eq (model : CustomerModel) :
  _model_to_customer_data model = cm_data model.
Proof. unfold _model_to_customer_data. now destruct (cm_data model). Qed.

Lemma filter_all {A : Type} (p : A -> bool) (l : list A) :
  (forall x, In x l -> p x = true) -> filter p l = l.
Proof.
  induction l as [|x l IH]; intro H; simpl; [reflexivity|].
  rewrite (H x (or_introl eq_refl)), IH; [reflexivity|].
  intros y Hy. apply H. now right.
Qed.

Lemma find_app_fresh (rows : list CustomerModel) (x : CustomerModel) :
  ~ In (cm_id x) (map cm_id rows) ->
  find (fun m => String.eqb (cm_id m) (cm_id x)) (rows ++ [x]) = Some x.
Proof.
  intro H. induction rows as [|r rows IH]; cbn [app find].
  - now rewrite String.eqb_refl.
  - destruct (String.eqb (cm_id r) (cm_id x)) eqn:E.
    + apply String.eqb_eq in E. exfalso. apply H. left. exact E.
    + apply IH. intro Hin. apply H. now right.
Qed.

Lemma created_customer_reads_back_aux
    (sql_like sql_ilike : string -> string -> bool)
    (self : CustomerDataPlatform) (customer_data : CustomerData)
    (source : string) (force_merge : bool)
    (current_time merge_time new_id : string) :
  _find_matching_customers sql_like sql_ilike self customer_data = [] ->
  ~ In new_id (map cm_id (customers (db self))) ->
  snd (add_customer_data sql_like sql_ilike self customer_data source
         force_merge current_time merge_time new_id)
  = mkCustomerDataPlatform
      (mkDatabase
         (customers (db self)
          ++ [mkCustomerModel new_id customer_data current_time current_time
                [source] 1.0%float])
         (customer_history (db self)))
      (matcher self) (match_threshold self)
  /\ first_by_id
       (db (snd (add_customer_data sql_like sql_ilike self customer_data source
                   force_merge current_time merge_time new_id))) new_id
     = Some (mkCustomerModel new_id customer_data current_time current_time
               [source] 1.0%float).
Proof.
  intros Hm Hfresh.
  destruct (add_customer_data_cases sql_like sql_ilike self customer_data source
              force_merge current_time merge_time new_id)
    as [[_ [msg [Hr Hs]]]
       |[[best [others [msg [acts [Hm' _]]]]]
        |[best [others [existing [msg [Hm' _]]]]]]];
    try congruence.
  split; [exact Hs|]. rewrite Hs. unfold first_by_id. cbn [db customers].
  exact (find_app_fresh _
           (mkCustomerModel new_id customer_data current_time current_time
              [source] 1.0%float) Hfresh).
Qed.

(** X14. Create, then read: when nothing matches and the drawn id is in use
    neither as a key nor in a history row, [get_customer] on that id
    returns the record as it was sent, with the one source, confidence
    1.0, both timestamps at the time of the call and no history. *)
Theorem created_customer_reads_back
    (sql_like sql_ilike : string -> string -> bool)
    (self : CustomerDataPlatform) (customer_data : CustomerData)
    (source : string) (force_merge : bool)
    (current_time merge_time new_id : string) :
  _find_matching_customers sql_like sql_ilike self customer_data = [] ->
  ~ In new_id (map cm_id (customers (db self))) ->
  no_history_of (db self) new_id ->
  get_customer
    (snd (add_customer_data sql_like sql_ilike self customer_data source
            force_merge current_time merge_time new_id)) new_id
  = Some (mkCustomer new_id customer_data current_time current_time []
            [source] 1.0%float).
Proof.
  intros Hm Hfresh Hh.
  destruct (created_customer_reads_back_aux sql_like sql_ilike self customer_data
              source force_merge current_time merge_time new_id Hm Hfresh)
    as [Hs Hfind].
  unfold get_customer. rewrite Hfind. rewrite Hs.
  unfold _model_to_customer. cbn [cm_id cm_created_at cm_updated_at cm_sources
                                  cm_confidence_score].
  rewrite model_to_customer_data_eq. cbn [cm_data].
  unfold no_history_of, history_rows in *. cbn [db customer_history].
  now rewrite Hh.
Qed.

Lemma created_customer_reads_back_witness :
  get_customer
    (snd (add_customer_data like_match ilike_match phone_store other_email
            "manual" false "t1" "t2" "id2")) "id2"
  = Some (mkCustomer "id2" other_email "t1" "t1" [] ["manual"] 1.0%float).
Proof.
  apply created_customer_reads_back.
  - reflexivity.
  - simpl. intros [H|[]]. discriminate.
  - reflexivity.
Defined.

(** X15. Update, then read: after an update of customer [i], [get_customer]
    on [i] returns the merged record (for each field the incoming value
    when it is present, the stored one otherwise), the creation time of
    before, the time of the call as update time, a source list that
    holds the source, and a history longer by the number of changes the
    result reports. *)
Theorem updated_customer_reads_back
    (sql_like sql_ilike : string -> string -> bool)
    (self : CustomerDataPlatform) (customer_data : CustomerData)
    (source : string) (force_merge : bool)
    (current_time merge_time new_id : string) (i : string) :
  status (fst (add_customer_data sql_like sql_ilike self customer_data source
                 force_merge current_time merge_time new_id)) = "updated" ->
  result_customer_id
    (fst (add_customer_data sql_like sql_ilike self customer_data source
            force_merge current_time merge_time new_id)) = Some i ->
  exists before after,
    get_customer self i = Some before
    /\ get_customer
         (snd (add_customer_data sql_like sql_ilike self customer_data source
                 force_merge current_time merge_time new_id)) i
       = Some after
    /\ (forall f, getattr (c_data after) f
                  = if blank (getattr customer_data f)
                    then getattr (c_data before) f
                    else getattr customer_data f)
    /\ c_created_at after = c_created_at before
    /\ c_updated_at after = current_time
    /\ In source (c_sources after)
    /\ (forall s, In s (c_sources before) -> In s (c_sources after))
    /\ length (c_history after)
       = length (c_history before)
         + result_changes_made
             (fst (add_customer_data sql_like sql_ilike self customer_data source
                     force_merge current_time merge_time new_id)).
Proof.
  destruct (add_customer_data_cases sql_like sql_ilike self customer_data source
              force_merge current_time merge_time new_id)
    as [[_ [msg [Hr Hs]]]
       |[[best [others [msg [acts [Hm [Hsafe [Hf [Hr Hs]]]]]]]]
        |[best [others [existing [msg [Hm [Hok [He [Hr Hs]]]]]]]]]];
    rewrite Hr, Hs; cbn [status result_customer_id result_changes_made];
    try discriminate.
  intros _ Hi. inversion Hi; subst i. clear Hi.
  pose proof He as He'. unfold first_by_id in He'.
  destruct (find_by_id_some _ _ _ He') as [Hid _].
  exists (_model_to_customer (db self) existing).
  eexists. split; [unfold get_customer; now rewrite He|]. split.
  { unfold get_customer, first_by_id. cbn [db customers].
    rewrite <- Hid in He' |- *.
    match goal with
    | |- context [write_row ?m _] =>
        pose proof (write_row_find m existing (customers (db self))) as Hw
    end.
    cbn [cm_id] in Hw. rewrite (Hw He'). reflexivity. }
  unfold _model_to_customer.
  cbn [c_data c_created_at c_updated_at c_sources c_history cm_id cm_data
       cm_created_at cm_updated_at cm_sources].
  rewrite !model_to_customer_data_eq. cbn [cm_data].
  split; [intro f; rewrite merged_getattr; reflexivity|].
  split; [reflexivity|]. split; [reflexivity|]. split; [|split].
  - destruct (mem_string source (cm_sources existing)) eqn:E.
    + now apply mem_string_In.
    + apply in_or_app. right. now left.
  - intros s Hs'. destruct (mem_string source (cm_sources existing));
      [exact Hs'|apply in_or_app; now left].
  - rewrite !length_map. rewrite Hid.
    unfold history_rows. cbn [customer_history].
    rewrite filter_app, length_app. f_equal.
    rewrite filter_all; [now rewrite length_map|].
    intros h Hh. apply in_map_iff in Hh.
    destruct Hh as [e [<- _]]. cbn [history_model hm_customer_id].
    apply String.eqb_refl.
Qed.

Lemma updated_customer_reads_back_witness :
  exists before after,
    get_customer phone_store "id1" = Some before
    /\ get_customer
         (snd (add_customer_data like_match ilike_match phone_store
                 phone_incoming "csv_import" true "t1" "t2" "id2")) "id1"
       = Some after
    /\ (forall f, getattr (c_data after) f
                  = if blank (getattr phone_incoming f)
                    then getattr (c_data before) f
                    else getattr phone_incoming f)
    /\ c_created_at after = c_created_at before
    /\ c_updated_at after = "t1"
    /\ In "csv_import" (c_sources after)
    /\ (forall s, In s (c_sources before) -> In s (c_sources after))
    /\ length (c_history after)
       = length (c_history before)
         + result_changes_made
             (fst (add_customer_data like_match ilike_match phone_store
                     phone_incoming "csv_import" true "t1" "t2" "id2")).
Proof.
  apply (updated_customer_reads_back like_match ilike_match phone_store
           phone_incoming "csv_import" true "t1" "t2" "id2" "id1").
  - reflexivity.
  - reflexivity.
Defined.

Lemma find_filter_other (rows : list CustomerModel) (i j : string) :
  j <> i ->
  find (fun m => String.eqb (cm_id m) j)
    (filter (fun m => negb (String.eqb (cm_id m) i)) rows)
  = find (fun m => String.eqb (cm_id m) j) rows.
Proof.
  intro Hne. induction rows as [|r rows IH]; [reflexivity|].
  cbn [filter find].
  destruct (String.eqb (cm_id r) i) eqn:Ei; cbn [negb].
  - apply String.eqb_eq in Ei.
    assert (Hj : String.eqb (cm_id r) j = false)
      by (apply String.eqb_neq; congruence).
    now rewrite Hj.
  - cbn [find]. destruct (String.eqb (cm_id r) j); [reflexivity|exact IH].
Qed.

Lemma find_filter_same (rows : list CustomerModel) (i : string) :
  find (fun m => String.eqb (cm_id m) i)
    (filter (fun m => negb (String.eqb (cm_id m) i)) rows)
  = None.
Proof.
  induction rows as [|r rows IH]; [reflexivity|].
  cbn [filter]. destruct (String.eqb (cm_id r) i) eqn:E; cbn [negb];
    [exact IH|]. cbn [find]. now rewrite E.
Qed.

Lemma filter_filter_other (rows : list HistoryModel) (i j : string) :
  j <> i ->
  filter (fun h => String.eqb (hm_customer_id h) j)
    (filter (fun h => negb (String.eqb (hm_customer_id h) i)) rows)
  = filter (fun h => String.eqb (hm_customer_id h) j) rows.
Proof.
  intro Hne. induction rows as [|r rows IH]; [reflexivity|].
  cbn [filter].
  destruct (String.eqb (hm_customer_id r) i) eqn:Ei; cbn [negb].
  - apply String.eqb_eq in Ei.
    assert (Hj : String.eqb (hm_customer_id r) j = false)
      by (apply String.eqb_neq; congruence).
    now rewrite Hj.
  - cbn [filter]. destruct (String.eqb (hm_customer_id r) j);
      [now rewrite IH|exact IH].
Qed.

(** X16. [delete_customer] answers [True] exactly when the id is a key of
    the store; afterwards the customer and its history cannot be read
    any more, every other customer reads as before, and a call that
    answers [False] leaves the platform as it was. *)
Theorem delete_customer_removes_one
    (self : CustomerDataPlatform) (i : string) :
  (fst (delete_customer self i) = true
   <-> In i (map cm_id (customers (db self))))
  /\ get_customer (snd (delete_customer self i)) i = None
  /\ get_customer_history (snd (delete_customer self i)) i = []
  /\ (forall j, j <> i ->
        get_customer (snd (delete_customer self i)) j = get_customer self j)
  /\ (fst (delete_customer self i) = false -> snd (delete_customer self i) = self).
Proof.
  unfold delete_customer, first_by_id.
  destruct (find (fun m => String.eqb (cm_id m) i) (customers (db self)))
    as [customer|] eqn:E.
  - destruct (find_by_id_some _ _ _ E) as [Hid Hin]. rewrite Hid.
    cbn [fst snd].
    assert (Hget : get_customer
                     {| db := {| customers :=
                                   filter (fun m => negb (String.eqb (cm_id m) i))
                                     (customers (db self));
                                 customer_history :=
                                   filter (fun h => negb (String.eqb (hm_customer_id h) i))
                                     (customer_history (db self)) |};
                        matcher := matcher self;
                        match_threshold := match_threshold self |} i = None).
    { unfold get_customer, first_by_id. cbn [db customers].
      now rewrite find_filter_same. }
    split; [|split; [exact Hget|split; [|split]]].
    + split; [intros _|reflexivity]. rewrite <- Hid. now apply in_map.
    + unfold get_customer_history. now rewrite Hget.
    + intros j Hj. unfold get_customer, first_by_id. cbn [db customers].
      rewrite (find_filter_other _ _ _ Hj).
      destruct (find (fun m => String.eqb (cm_id m) j) (customers (db self)))
        as [model|] eqn:Ej; [|reflexivity].
      unfold _model_to_customer, history_rows. cbn [customer_history].
      destruct (find_by_id_some _ _ _ Ej) as [Hidj _].
      rewrite Hidj, (filter_filter_other _ _ _ Hj). reflexivity.
    + discriminate.
  - cbn [fst snd]. split; [|split; [|split; [|split]]].
    + split; [discriminate|]. intro Hin. apply in_map_iff in Hin.
      destruct Hin as [m [Hid Hm]].
      pose proof (find_none _ _ E m Hm) as Hn. cbv beta in Hn.
      rewrite Hid, String.eqb_refl in Hn. discriminate.
    + unfold get_customer, first_by_id. now rewrite E.
    + unfold get_customer_history, get_customer, first_by_id. now rewrite E.
    + reflexivity.
    + reflexivity.
Qed.

Lemma filter_app_fresh (rows : list CustomerModel) (x : CustomerModel) :
  ~ In (cm_id x) (map cm_id rows) ->
  filter (fun m => negb (String.eqb (cm_id m) (cm_id x))) (rows ++ [x]) = rows.
Proof.
  intro H. rewrite filter_app. cbn [filter]. rewrite String.eqb_refl.
  cbn [negb]. rewrite app_nil_r. apply filter_all.
  intros m Hm. apply negb_true_iff, String.eqb_neq. intro Heq.
  apply H. rewrite <- Heq. now apply in_map.
Qed.

Lemma no_history_filter (rows : list HistoryModel) (i : string) :
  filter (fun h => String.eqb (hm_customer_id h) i) rows = [] ->
  filter (fun h => negb (String.eqb (hm_customer_id h) i)) rows = rows.
Proof.
  induction rows as [|r rows IH]; [reflexivity|]. cbn [filter].
  destruct (String.eqb (hm_customer_id r) i); [discriminate|].
  intro H. cbn [negb]. now rewrite (IH H).
Qed.

(** X17. Create, then delete: deleting the customer a call has just created
    gives back the platform the call started from. *)
Theorem delete_undoes_create
    (sql_like sql_ilike : string -> string -> bool)
    (self : CustomerDataPlatform) (customer_data : CustomerData)
    (source : string) (force_merge : bool)
    (current_time merge_time new_id : string) :
  _find_matching_customers sql_like sql_ilike self customer_data = [] ->
  ~ In new_id (map cm_id (customers (db self))) ->
  no_history_of (db self) new_id ->
  delete_customer
    (snd (add_customer_data sql_like sql_ilike self customer_data source
            force_merge current_time merge_time new_id)) new_id
  = (true, self).
Proof.
  intros Hm Hfresh Hh.
  pose proof (created_customer_reads_back_aux sql_like sql_ilike self
                customer_data source force_merge current_time merge_time new_id
                Hm Hfresh) as [Hs Hfind].
  unfold delete_customer. rewrite Hs. rewrite Hs in Hfind.
  unfold first_by_id in *. cbn [db customers customer_history] in *.
  rewrite Hfind. cbn [cm_id matcher match_threshold].
  pose proof (filter_app_fresh (customers (db self))
                (mkCustomerModel new_id customer_data current_time current_time
                   [source] 1.0%float) Hfresh) as Hf.
  cbn [cm_id] in Hf. rewrite Hf.
  unfold no_history_of, history_rows in Hh. rewrite (no_history_filter _ _ Hh).
  destruct self as [[cs hs] m t]. reflexivity.
Qed.

Lemma delete_undoes_create_witness :
  delete_customer
    (snd (add_customer_data like_match ilike_match phone_store other_email
            "manual" false "t1" "t2" "id2")) "id2"
  = (true, phone_store).
Proof.
  apply delete_undoes_create.
  - reflexivity.
  - simpl. intros [H|[]]. discriminate.
  - reflexivity.
Defined.

(** ** Listing and searching *)

(** X18. [get_all_customers]: a limit of 0 is no limit at all, a positive
    limit keeps that many customers from the front of the full list,
    and every customer [get_customer] can return is in the full list. *)
Theorem get_all_customers_limit (self : CustomerDataPlatform) :
  get_all_customers self (Some 0) = get_all_customers self None
  /\ (forall n, 0 < n ->
        get_all_customers self (Some n)
        = firstn n (get_all_customers self None)
        /\ length (get_all_customers self (Some n))
           = Nat.min n (length (customers (db self))))
  /\ (forall i c, get_customer self i = Some c ->
        In c (get_all_customers self None))
  /\ map c_id (get_all_customers self None) = map cm_id (customers (db self)).
Proof.
  split; [reflexivity|]. split; [|split].
  - intros [|n] Hn; [lia|]. unfold get_all_customers. split.
    + now rewrite firstn_map.
    + now rewrite length_map, length_firstn.
  - intros i c. unfold get_customer, get_all_customers, first_by_id.
    destruct (find _ _) as [model|] eqn:E; [|discriminate].
    intro H; inversion H; subst c. apply in_map.
    now apply find_by_id_some in E.
  - unfold get_all_customers. rewrite map_map. reflexivity.
Qed.

Lemma search_fold_incl (sql_ilike : string -> string -> bool)
    (dict : list (Field * string)) (rows : list CustomerModel) (m : CustomerModel) :
  In m
    (fold_left
       (fun rows (kv : Field * string) =>
          if nonempty (snd kv) then
            filter
              (fun m =>
                 column_test (sql_ilike ("%" ++ snd kv ++ "%")%string)
                   (getattr (cm_data m) (fst kv)))
              rows
          else rows)
       dict rows) ->
  In m rows
  /\ forall f v, In (f, v) dict -> nonempty v = true ->
       column_test (sql_ilike ("%" ++ v ++ "%")%string) (getattr (cm_data m) f)
       = true.
Proof.
  revert rows; induction dict as [|[f0 v0] dict IH]; intros rows H.
  - split; [exact H|]. intros f v [].
  - cbn [fold_left fst snd] in H. apply IH in H. destruct H as [Hin Hall].
    destruct (nonempty v0) eqn:E.
    + apply filter_In in Hin. destruct Hin as [Hin Hp]. split; [exact Hin|].
      intros f v [Heq|Hd] Hv; [inversion Heq; subst; exact Hp|now apply Hall].
    + split; [exact Hin|].
      intros f v [Heq|Hd] Hv; [inversion Heq; subst; congruence|now apply Hall].
Qed.

Lemma blank_nonempty (v : string) : blank (Some v) = false -> nonempty v = true.
Proof.
  destruct v as [|c v]; [|reflexivity]. vm_compute. discriminate.
Qed.

(** X19. [search_customers] only returns customers of the store, and each
    of them passes the [ILIKE '%value%'] test of every criterion that
    is neither null nor blank. *)
Theorem search_customers_filters (sql_ilike : string -> string -> bool)
    (self : CustomerDataPlatform) (criteria : SearchCriteria) (c : Customer) :
  In c (search_customers sql_ilike self criteria) ->
  In c (get_all_customers self None)
  /\ forall f v, In (f, v) (SearchCriteria_to_dict criteria) ->
       column_test (sql_ilike ("%" ++ v ++ "%")%string) (getattr (c_data c) f)
       = true.
Proof.
  unfold search_customers, get_all_customers. cbv zeta. intro H.
  apply in_map_iff in H. destruct H as [m [<- Hm]].
  apply search_fold_incl in Hm. destruct Hm as [Hin Hall].
  split; [now apply in_map|].
  intros f v Hd. unfold _model_to_customer. cbn [c_data].
  rewrite model_to_customer_data_eq. apply Hall; [exact Hd|].
  apply blank_nonempty.
  unfold SearchCriteria_to_dict in Hd. apply in_flat_map in Hd.
  destruct Hd as [[f' [v'|]] [_ Hv]]; cbn [fst snd] in Hv; [|destruct Hv].
  destruct (blank (Some v')) eqn:E; cbn [negb] in Hv; [destruct Hv|].
  destruct Hv as [Heq|[]]. inversion Heq; subst. exact E.
Qed.

Lemma search_customers_filters_witness :
  In (_model_to_customer (db phone_store)
        (mkCustomerModel "id1" phone_existing "t0" "t0" ["manual"] 1.0%float))
     (get_all_customers phone_store None).
Proof.
  apply (search_customers_filters ilike_match phone_store
           (mkSearchCriteria None (Some "X@Y") None None None None None)).
  left. reflexivity.
Defined.

(** X20. Criteria whose fields are all null or blank filter nothing:
    the search returns every customer. *)
Theorem search_customers_blank_criteria (sql_ilike : string -> string -> bool)
    (self : CustomerDataPlatform) (criteria : SearchCriteria) :
  criteria_blank criteria = true ->
  search_customers sql_ilike self criteria = get_all_customers self None.
Proof.
  unfold criteria_blank. cbn [forallb]. intro H.
  repeat (apply andb_prop in H; let H1 := fresh "Hb" in destruct H as [H1 H]).
  assert (Hd : SearchCriteria_to_dict criteria = []).
  { unfold SearchCriteria_to_dict. cbn [flat_map fst snd].
    destruct (sc_nome criteria), (sc_email criteria), (sc_documento criteria),
      (sc_telefone criteria), (sc_cidade criteria), (sc_estado criteria),
      (sc_profissao criteria);
      rewrite ?Hb, ?Hb0, ?Hb1, ?Hb2, ?Hb3, ?Hb4, ?Hb5; reflexivity. }
  unfold search_customers. now rewrite Hd.
Qed.

Lemma search_customers_blank_criteria_witness :
  search_customers ilike_match phone_store blank_criteria
  = get_all_customers phone_store None.
Proof.
  apply search_customers_blank_criteria. reflexivity.
Defined.

(** ** Records no lookup can find *)

(** X21. A record that gives the candidate finder nothing to look up (no
    document digit, no email, no name word longer than two characters,
    no phone digit) matches nothing, whatever the store holds: every
    call with it creates one more customer. *)
Theorem keyless_record_is_always_created
    (sql_like sql_ilike : string -> string -> bool)
    (self : CustomerDataPlatform) (customer_data : CustomerData)
    (source : string) (force_merge : bool)
    (current_time merge_time new_id : string) :
  candidate_queries customer_data = [] ->
  _find_matching_customers sql_like sql_ilike self customer_data = []
  /\ status (fst (add_customer_data sql_like sql_ilike self customer_data source
                    force_merge current_time merge_time new_id)) = "created"
  /\ length (customers
               (db (snd (add_customer_data sql_like sql_ilike self customer_data
                           source force_merge current_time merge_time new_id))))
     = S (length (customers (db self))).
Proof.
  intro Hq.
  assert (Hm : _find_matching_customers sql_like sql_ilike self customer_data = []).
  { unfold _find_matching_customers, _find_potential_matches_in_db.
    now rewrite Hq. }
  split; [exact Hm|].
  destruct (add_customer_data_cases sql_like sql_ilike self customer_data source
              force_merge current_time merge_time new_id)
    as [[_ [msg [Hr Hs]]]
       |[[best [others [msg [acts [Hm' _]]]]]
        |[best [others [existing [msg [Hm' _]]]]]]];
    try congruence.
  rewrite Hr, Hs. cbn [status db customers]. split; [reflexivity|].
  rewrite length_app. simpl. lia.
Qed.

Lemma keyless_record_is_always_created_witness :
  status (fst (add_customer_data like_match ilike_match phone_store
                 keyless_record "manual" false "t1" "t2" "id2")) = "created".
Proof.
  apply (keyless_record_is_always_created like_match ilike_match phone_store
           keyless_record "manual" false "t1" "t2" "id2").
  reflexivity.
Defined.

(** ** Batch import *)

Section BatchImport.

Variables (sql_like sql_ilike : string -> string -> bool).
Variables (source : string) (force_merge : bool) (readings : nat -> Readings).

Lemma write_row_length (model : CustomerModel) (rows : list CustomerModel) :
  length (write_row model rows) = length rows.
Proof.
  induction rows as [|r rows IH]; [reflexivity|]. cbn [write_row].
  destruct (String.eqb (cm_id r) (cm_id model)); cbn [length]; congruence.
Qed.

Lemma count_status_created (r : ImportResult) :
  count_status r "created"
  = mkImportResult (total_processed r) (n_created r + 1) (n_updated r)
      (n_conflicts r) (n_errors r) (details r).
Proof. reflexivity. Qed.

Lemma count_status_updated (r : ImportResult) :
  count_status r "updated"
  = mkImportResult (total_processed r) (n_created r) (n_updated r + 1)
      (n_conflicts r) (n_errors r) (details r).
Proof. reflexivity. Qed.

Lemma count_status_conflict (r : ImportResult) :
  count_status r "conflict_detected"
  = mkImportResult (total_processed r) (n_created r) (n_updated r)
      (n_conflicts r + 1) (n_errors r) (details r).
Proof. reflexivity. Qed.

Lemma import_row_eq (result : ImportResult) (cdp : CustomerDataPlatform)
    (i : nat) (customer_dict : Row) :
  import_row sql_like sql_ilike source force_merge readings (result, cdp) i
    customer_dict
  = let add :=
      add_customer_data sql_like sql_ilike cdp
        (customer_data_of_row customer_dict) source force_merge
        (fst (fst (readings i))) (snd (fst (readings i))) (snd (readings i)) in
    let counted :=
      count_status
        (mkImportResult (total_processed result + 1) (n_created result)
           (n_updated result) (n_conflicts result) (n_errors result)
           (details result))
        (status (fst add)) in
    (mkImportResult (total_processed counted) (n_created counted)
       (n_updated counted) (n_conflicts counted) (n_errors counted)
       (details counted
        ++ [mkImportDetail (i + 1)
              (match dict_get customer_dict "nome" with
               | Some n => n
               | None => ("Nome n" ++ a_tilde ++ "o informado")%string
               end)
              (status (fst add)) (result_message (fst add))
              (result_customer_id (fst add)) (result_changes_made (fst add))]),
     snd add).
Proof. reflexivity. Qed.

(** What one row adds to the report and to the store. *)
Lemma import_row_step (result : ImportResult) (cdp : CustomerDataPlatform)
    (i : nat) (customer_dict : Row) :
  let st' := import_row sql_like sql_ilike source force_merge readings
               (result, cdp) i customer_dict in
  exists detail dc du dk,
    details (fst st') = details result ++ [detail]
    /\ d_row detail = i + 1
    /\ total_processed (fst st') = total_processed result + 1
    /\ n_created (fst st') = n_created result + dc
    /\ n_updated (fst st') = n_updated result + du
    /\ n_conflicts (fst st') = n_conflicts result + dk
    /\ n_errors (fst st') = n_errors result
    /\ dc + du + dk = 1
    /\ (force_merge = true -> dk = 0)
    /\ length (customers (db (snd st'))) = length (customers (db cdp)) + dc
    /\ length (customer_history (db (snd st')))
       = length (customer_history (db cdp)) + d_changes_made detail
    /\ matcher (snd st') = matcher cdp
    /\ match_threshold (snd st') = match_threshold cdp.
Proof.
  cbv zeta. rewrite import_row_eq. cbv zeta.
  set (customer_data := customer_data_of_row customer_dict).
  destruct (add_customer_data_cases sql_like sql_ilike cdp customer_data source
              force_merge (fst (fst (readings i))) (snd (fst (readings i)))
              (snd (readings i)))
    as [[Hm [msg [Hr Hs]]]
       |[[best [others [msg [acts [Hm [Hsafe [Hf [Hr Hs]]]]]]]]
        |[best [others [existing [msg [Hm [Hok [He [Hr Hs]]]]]]]]]];
    rewrite Hr, Hs; clear Hr Hs;
    cbn [fst snd status result_changes_made result_customer_id result_message].
  - rewrite count_status_created.
    cbn [total_processed n_created n_updated n_conflicts n_errors details].
    eexists. exists 1, 0, 0.
    split; [reflexivity|].
    cbn [d_row d_changes_made db customers customer_history matcher
         match_threshold].
    rewrite length_app. cbn [length]. repeat split; lia.
  - rewrite count_status_conflict.
    cbn [total_processed n_created n_updated n_conflicts n_errors details].
    eexists. exists 0, 0, 1.
    split; [reflexivity|]. cbn [d_row d_changes_made].
    repeat split; try lia. rewrite Hf. discriminate.
  - rewrite count_status_updated.
    cbn [total_processed n_created n_updated n_conflicts n_errors details].
    eexists. exists 0, 1, 0.
    split; [reflexivity|].
    cbn [d_row d_changes_made db customers customer_history matcher
         match_threshold].
    rewrite length_app, length_map, write_row_length. repeat split; lia.
Qed.

Lemma import_rows_spec (customer_rows : list Row) (result : ImportResult)
    (cdp : CustomerDataPlatform) (i : nat) :
  let st' := import_rows sql_like sql_ilike source force_merge readings
               (result, cdp) i customer_rows in
  exists new_details dc du dk,
    details (fst st') = details result ++ new_details
    /\ map d_row new_details = seq (i + 1) (length customer_rows)
    /\ total_processed (fst st') = total_processed result + length customer_rows
    /\ n_created (fst st') = n_created result + dc
    /\ n_updated (fst st') = n_updated result + du
    /\ n_conflicts (fst st') = n_conflicts result + dk
    /\ n_errors (fst st') = n_errors result
    /\ dc + du + dk = length customer_rows
    /\ (force_merge = true -> dk = 0)
    /\ length (customers (db (snd st')))
       = length (customers (db cdp)) + dc
    /\ length (customer_history (db (snd st')))
       = length (customer_history (db cdp)) + changes_reported new_details
    /\ matcher (snd st') = matcher cdp
    /\ match_threshold (snd st') = match_threshold cdp.
Proof.
  cbv zeta. revert result cdp i.
  induction customer_rows as [|row rest IH]; intros result cdp i.
  - cbn [import_rows fst snd length]. exists [], 0, 0, 0.
    rewrite app_nil_r. cbn [map seq changes_reported fold_right].
    repeat split; lia.
  - cbn [import_rows].
    pose proof (import_row_step result cdp i row) as Hstep. cbv zeta in Hstep.
    destruct (import_row sql_like sql_ilike source force_merge readings
                (result, cdp) i row) as [result1 cdp1].
    cbn [fst snd] in Hstep.
    destruct Hstep as [detail [dc1 [du1 [dk1 Hstep]]]].
    destruct Hstep as [H1 [H2 [H3 [H4 [H5 [H6 [H7 [H8 [H9 [H10 [H11 [H12 H13]]]]]]]]]]]].
    destruct (IH result1 cdp1 (S i)) as [nd [dc [du [dk HI]]]].
    destruct HI as [I1 [I2 [I3 [I4 [I5 [I6 [I7 [I8 [I9 [I10 [I11 [I12 I13]]]]]]]]]]]].
    exists (detail :: nd), (dc1 + dc), (du1 + du), (dk1 + dk).
    cbn [length map seq changes_reported fold_right].
    fold (changes_reported nd).
    rewrite I1, H1, <- app_assoc. cbn [app].
    replace (S (i + 1)) with (S i + 1) by lia. rewrite <- I2, H2.
    repeat split; try lia; try congruence.
    intro Hf. rewrite (H9 Hf), (I9 Hf). reflexivity.
Qed.

End BatchImport.

(** X22. The report of an import accounts for every row: as many rows are
    processed, and as many details written, numbered from 1, as there
    are rows; each row counts in exactly one of created, updated and
    conflicts; and with [force_merge] no conflict is counted. *)
Theorem execute_import_accounts_for_every_row
    (sql_like sql_ilike : string -> string -> bool)
    (cdp : CustomerDataPlatform) (customer_rows : list Row) (source : string)
    (force_merge : bool) (readings : nat -> Readings) :
  let result := fst (execute_import sql_like sql_ilike cdp customer_rows source
                       force_merge readings) in
  total_processed result = length customer_rows
  /\ map d_row (details result) = seq 1 (length customer_rows)
  /\ n_created result + n_updated result + n_conflicts result
     = total_processed result
  /\ n_errors result = 0
  /\ (force_merge = true -> n_conflicts result = 0).
Proof.
  cbv zeta. unfold execute_import.
  destruct (import_rows_spec sql_like sql_ilike source force_merge readings
              customer_rows ImportResult_default cdp 0)
    as [nd [dc [du [dk H]]]].
  destruct H as [I1 [I2 [I3 [I4 [I5 [I6 [I7 [I8 [I9 _]]]]]]]]].
  cbn [ImportResult_default details total_processed n_created n_updated
       n_conflicts n_errors app Nat.add] in *.
  rewrite I1, I2, I3, I4, I5, I6, I7.
  repeat split; try lia. intro Hf. now rewrite (I9 Hf).
Qed.

(** X23. The report of an import agrees with the store: the customer table
    grows by the number of rows reported as created, the history table
    by the changes the details report, and nothing else moves. *)
Theorem execute_import_matches_the_store
    (sql_like sql_ilike : string -> string -> bool)
    (cdp : CustomerDataPlatform) (customer_rows : list Row) (source : string)
    (force_merge : bool) (readings : nat -> Readings) :
  let r := execute_import sql_like sql_ilike cdp customer_rows source
             force_merge readings in
  length (customers (db (snd r)))
  = length (customers (db cdp)) + n_created (fst r)
  /\ length (customer_history (db (snd r)))
     = length (customer_history (db cdp)) + changes_reported (details (fst r))
  /\ matcher (snd r) = matcher cdp
  /\ match_threshold (snd r) = match_threshold cdp.
Proof.
  cbv zeta. unfold execute_import.
  destruct (import_rows_spec sql_like sql_ilike source force_merge readings
              customer_rows ImportResult_default cdp 0)
    as [nd [dc [du [dk H]]]].
  destruct H as [I1 [_ [_ [I4 [_ [_ [_ [_ [_ [I10 [I11 [I12 I13]]]]]]]]]]]].
  cbn [ImportResult_default details n_created app Nat.add] in *.
  rewrite I1, I4, I10, I11. repeat split; assumption.
Qed.

(** ** [normalize_text] joins the words of the lower-cased text *)

Lemma append_assoc (s1 s2 s3 : string) :
  ((s1 ++ s2) ++ s3 = s1 ++ (s2 ++ s3))%string.
Proof. induction s1 as [|c s1 IH]; simpl; [reflexivity|now rewrite IH]. Qed.

Lemma rev_string_acc (s acc : string) :
  rev_string acc s = (rev_string "" s ++ acc)%string.
Proof.
  revert acc; induction s as [|c s IH]; intro acc; [reflexivity|].
  cbn [rev_string]. rewrite (IH (String c acc)), (IH (String c "")).
  rewrite append_assoc. reflexivity.
Qed.

Lemma append_empty_r (s : string) : (s ++ "")%string = s.
Proof. induction s as [|c s IH]; simpl; [reflexivity|now rewrite IH]. Qed.

Lemma rstrip_cons_nonspace (c : ascii) (s : string) :
  isspace c = false -> rstrip (String c s) = String c (rstrip s).
Proof. intro H. cbn [rstrip]. rewrite H. now destruct (rstrip s). Qed.

Lemma all_space_rstrip (s : string) : all_space s = true -> rstrip s = "".
Proof.
  induction s as [|c s IH]; [reflexivity|]. cbn [all_space rstrip].
  intro H. apply andb_prop in H. destruct H as [Hc Hs].
  now rewrite (IH Hs), Hc.
Qed.

Lemma all_space_split (s : string) : all_space s = true -> split_ws "" s = [].
Proof.
  induction s as [|c s IH]; [reflexivity|]. cbn [all_space split_ws].
  intro H. apply andb_prop in H. destruct H as [Hc Hs].
  rewrite Hc. now apply IH.
Qed.

Lemma not_all_space_split (s cur : string) :
  all_space s = false -> split_ws cur s <> [].
Proof.
  revert cur; induction s as [|c s IH]; intros cur H; [discriminate|].
  cbn [all_space split_ws] in *.
  destruct (isspace c); cbn [andb] in H.
  - destruct cur; [now apply IH|discriminate].
  - clear H. destruct (all_space s) eqn:E.
    + revert E. clear. revert c cur.
      induction s as [|d s IH]; intros c cur E; [discriminate|].
      cbn [all_space split_ws] in *. apply andb_prop in E. destruct E as [Hd Hs].
      rewrite Hd. discriminate.
    + now apply IH.
Qed.

Lemma join_cons (x : string) (l : list string) :
  l <> [] -> join " " (x :: l) = (x ++ " " ++ join " " l)%string.
Proof. destruct l; [congruence|reflexivity]. Qed.

Lemma split_join (s cur : string) :
  join " " (split_ws cur s)
  = match cur with
    | EmptyString => sub_spaces true (rstrip s)
    | String _ _ => (rev_string "" cur ++ sub_spaces false (rstrip s))%string
    end.
Proof.
  revert cur; induction s as [|c s IH]; intro cur.
  - destruct cur; cbn [split_ws join rstrip sub_spaces];
      [reflexivity|now rewrite append_empty_r].
  - cbn [split_ws]. destruct (isspace c) eqn:Hc.
    + destruct (all_space s) eqn:Hs.
      * assert (Hr : rstrip (String c s) = "")
          by (cbn [rstrip]; now rewrite (all_space_rstrip _ Hs), Hc).
        rewrite Hr, (all_space_split _ Hs).
        destruct cur; cbn [join sub_spaces];
          [reflexivity|now rewrite append_empty_r].
      * assert (Hr : rstrip (String c s) = String c (rstrip s)).
        { cbn [rstrip]. destruct (rstrip s) eqn:E; [|reflexivity].
          assert (all_space s = true); [|congruence].
          apply rstrip_empty. now rewrite E. }
        rewrite Hr. destruct cur; cbn [sub_spaces]; rewrite Hc.
        -- apply (IH "").
        -- rewrite join_cons by (now apply not_all_space_split).
           now rewrite (IH "").
    + rewrite (rstrip_cons_nonspace _ _ Hc).
      rewrite (IH (String c cur)).
      cbn [rev_string]. rewrite rev_string_acc.
      destruct cur; cbn [sub_spaces rev_string]; rewrite Hc;
        [reflexivity|now rewrite append_assoc].
Qed.

Lemma sub_spaces_lstrip (s : string) :
  sub_spaces false (rstrip (lstrip s)) = sub_spaces true (rstrip s).
Proof.
  induction s as [|c s IH]; [reflexivity|]. cbn [lstrip].
  destruct (isspace c) eqn:Hc.
  - rewrite IH. cbn [rstrip]. destruct (rstrip s) eqn:E.
    + now rewrite Hc.
    + cbn [sub_spaces]. now rewrite Hc.
  - rewrite (rstrip_cons_nonspace _ _ Hc). cbn [sub_spaces]. now rewrite Hc.
Qed.

(** X24. [normalize_text(s)] is [' '.join(s.lower().split())]: the words of
    the lower-cased text, in order, with one space between two words. *)
Theorem normalize_text_joins_words (text : option string) :
  normalize_text text = join " " (split (lower (or_empty text))).
Proof.
  destruct text as [t|]; [|reflexivity].
  destruct t as [|c t]; [reflexivity|].
  cbn [or_empty]. unfold normalize_text, strip, split. cbn [nonempty].
  now rewrite split_join, sub_spaces_lstrip.
Qed.

(** ** Display formats and the digits they carry *)

Lemma sub_non_digits_app (x y : string) :
  sub_non_digits (x ++ y) = (sub_non_digits x ++ sub_non_digits y)%string.
Proof.
  induction x as [|c x IH]; [reflexivity|].
  cbn [append sub_non_digits]. destruct (isdecimal c); cbn [append];
    now rewrite IH.
Qed.

Lemma all_digits_sub_non_digits (s : string) :
  all_digits (sub_non_digits s) = true.
Proof.
  induction s as [|c s IH]; [reflexivity|].
  cbn [sub_non_digits]. destruct (isdecimal c) eqn:Hc; [|exact IH].
  cbn [all_digits]. now rewrite Hc, IH.
Qed.

Lemma sub_non_digits_digits (s : string) :
  all_digits s = true -> sub_non_digits s = s.
Proof.
  induction s as [|c s IH]; [reflexivity|].
  cbn [all_digits sub_non_digits]. intros H.
  apply andb_prop in H. destruct H as [Hc Hs].
  now rewrite Hc, IH.
Qed.

Lemma all_digits_substring (s : string) (a n : nat) :
  all_digits s = true -> all_digits (substring a n s) = true.
Proof.
  revert a n. induction s as [|c s IH]; intros a n H.
  - now destruct a, n.
  - cbn [all_digits] in H. apply andb_prop in H. destruct H as [Hc Hs].
    destruct a as [|a]; cbn [substring].
    + destruct n as [|n]; [reflexivity|].
      cbn [all_digits]. now rewrite Hc, IH.
    + now apply IH.
Qed.

Lemma substring_split (s : string) (a n m : nat) :
  substring a (n + m) s = (substring a n s ++ substring (a + n) m s)%string.
Proof.
  revert a n m. induction s as [|c s IH]; intros a n m.
  - destruct a, n, m; reflexivity.
  - destruct a as [|a].
    + destruct n as [|n]; [reflexivity|].
      cbn [Nat.add substring append]. f_equal. apply (IH 0 n m).
    + cbn [Nat.add substring]. apply IH.
Qed.

Lemma empty_append (s : string) : ("" ++ s)%string = s.
Proof. reflexivity. Qed.

Lemma substring_join (s : string) (a n b m k : nat) :
  b = a + n -> k = n + m ->
  (substring a n s ++ substring b m s)%string = substring a k s.
Proof. intros -> ->. symmetry. apply substring_split. Qed.

Lemma substring_all (s : string) : substring 0 (String.length s) s = s.
Proof.
  induction s as [|c s IH]; [reflexivity|].
  cbn [String.length substring]. now rewrite IH.
Qed.

Lemma nonempty_app_cons (x y : string) (c : ascii) :
  nonempty (x ++ String c y) = true.
Proof. now destruct x. Qed.

Lemma truthy_or_empty (v : option string) :
  truthy v = true -> Some (or_empty v) = v /\ nonempty (or_empty v) = true.
Proof. destruct v as [[|c s]|]; cbn; intros H; now try discriminate. Qed.

Lemma clean_document_eq (d : option string) :
  clean_document d = normalize_document d.
Proof. reflexivity. Qed.

Lemma clean_document_some (s : string) :
  clean_document (Some s) = sub_non_digits s.
Proof. now destruct s. Qed.

Lemma all_digits_clean_document (d : option string) :
  all_digits (clean_document d) = true.
Proof.
  destruct d as [s|]; [|reflexivity].
  rewrite clean_document_some. apply all_digits_sub_non_digits.
Qed.

(** Digits of a piece followed by a separator that holds no digit. *)
Lemma sub_non_digits_piece (s sep rest : string) (a n : nat) :
  all_digits s = true -> sub_non_digits sep = "" ->
  sub_non_digits (substring a n s ++ sep ++ rest)
  = (substring a n s ++ sub_non_digits rest)%string.
Proof.
  intros Hs Hsep.
  rewrite !sub_non_digits_app, Hsep.
  rewrite (sub_non_digits_digits _ (all_digits_substring s a n Hs)).
  reflexivity.
Qed.

Lemma cpf_digits (s : string) :
  all_digits s = true -> String.length s = 11 ->
  sub_non_digits
    (slice s 0 3 ++ "." ++ slice s 3 6 ++ "." ++ slice s 6 9 ++ "-"
     ++ slice_from s 9) = s.
Proof.
  intros Hs Hlen. unfold slice, slice_from. rewrite Hlen.
  cbn [Nat.sub].
  rewrite !sub_non_digits_piece by (assumption || reflexivity).
  rewrite (sub_non_digits_digits _ (all_digits_substring s 9 2 Hs)).
  rewrite (substring_join s 6 3 9 2 5 eq_refl eq_refl),
    (substring_join s 3 3 6 5 8 eq_refl eq_refl),
    (substring_join s 0 3 3 8 11 eq_refl eq_refl).
  rewrite <- Hlen. apply substring_all.
Qed.

Lemma cnpj_digits (s : string) :
  all_digits s = true -> String.length s = 14 ->
  sub_non_digits
    (slice s 0 2 ++ "." ++ slice s 2 5 ++ "." ++ slice s 5 8 ++ "/"
     ++ slice s 8 12 ++ "-" ++ slice_from s 12) = s.
Proof.
  intros Hs Hlen. unfold slice, slice_from. rewrite Hlen.
  cbn [Nat.sub].
  rewrite !sub_non_digits_piece by (assumption || reflexivity).
  rewrite (sub_non_digits_digits _ (all_digits_substring s 12 2 Hs)).
  rewrite (substring_join s 8 4 12 2 6 eq_refl eq_refl),
    (substring_join s 5 3 8 6 9 eq_refl eq_refl),
    (substring_join s 2 3 5 9 12 eq_refl eq_refl),
    (substring_join s 0 2 2 12 14 eq_refl eq_refl).
  rewrite <- Hlen. apply substring_all.
Qed.

Lemma mobile_digits (s : string) :
  all_digits s = true -> String.length s = 11 ->
  sub_non_digits
    ("(" ++ slice s 0 2 ++ ") " ++ slice s 2 3 ++ " " ++ slice s 3 7 ++ "-"
     ++ slice_from s 7) = s.
Proof.
  intros Hs Hlen. unfold slice, slice_from. rewrite Hlen.
  cbn [Nat.sub].
  rewrite (sub_non_digits_app "("). change (sub_non_digits "(") with "".
  rewrite empty_append.
  rewrite !sub_non_digits_piece by (assumption || reflexivity).
  rewrite (sub_non_digits_digits _ (all_digits_substring s 7 4 Hs)).
  rewrite (substring_join s 3 4 7 4 8 eq_refl eq_refl),
    (substring_join s 2 1 3 8 9 eq_refl eq_refl),
    (substring_join s 0 2 2 9 11 eq_refl eq_refl).
  rewrite <- Hlen. apply substring_all.
Qed.

Lemma landline_digits (s : string) :
  all_digits s = true -> String.length s = 10 ->
  sub_non_digits
    ("(" ++ slice s 0 2 ++ ") " ++ slice s 2 6 ++ "-" ++ slice_from s 6) = s.
Proof.
  intros Hs Hlen. unfold slice, slice_from. rewrite Hlen.
  cbn [Nat.sub].
  rewrite (sub_non_digits_app "("). change (sub_non_digits "(") with "".
  rewrite empty_append.
  rewrite !sub_non_digits_piece by (assumption || reflexivity).
  rewrite (sub_non_digits_digits _ (all_digits_substring s 6 4 Hs)).
  rewrite (substring_join s 2 4 6 4 8 eq_refl eq_refl),
    (substring_join s 0 2 2 8 10 eq_refl eq_refl).
  rewrite <- Hlen. apply substring_all.
Qed.

Lemma cep_digits (s : string) :
  all_digits s = true -> String.length s = 8 ->
  sub_non_digits (slice s 0 5 ++ "-" ++ slice_from s 5) = s.
Proof.
  intros Hs Hlen. unfold slice, slice_from. rewrite Hlen.
  cbn [Nat.sub].
  rewrite !sub_non_digits_piece by (assumption || reflexivity).
  rewrite (sub_non_digits_digits _ (all_digits_substring s 5 3 Hs)).
  rewrite (substring_join s 0 5 5 3 8 eq_refl eq_refl).
  rewrite <- Hlen. apply substring_all.
Qed.

(** The shape every formatter shares: the formatted text is not empty
    and holds the digits of the input. *)
Lemma format_document_digits (d : option string) :
  truthy d = true ->
  nonempty (format_document d) = true
  /\ sub_non_digits (format_document d) = clean_document d.
Proof.
  intros Hd. unfold format_document. rewrite Hd. cbn [negb].
  pose proof (all_digits_clean_document d) as Hs.
  destruct (String.length (clean_document d) =? 11) eqn:H11.
  { apply Nat.eqb_eq in H11. split.
    - apply nonempty_app_cons.
    - now apply cpf_digits. }
  destruct (String.length (clean_document d) =? 14) eqn:H14.
  { apply Nat.eqb_eq in H14. split.
    - apply nonempty_app_cons.
    - now apply cnpj_digits. }
  destruct (truthy_or_empty d Hd) as [He Hn]. split; [exact Hn|].
  rewrite <- clean_document_some, He. reflexivity.
Qed.

Lemma format_phone_digits (p : option string) :
  truthy p = true ->
  nonempty (format_phone p) = true
  /\ sub_non_digits (format_phone p) = clean_phone p.
Proof.
  intros Hp. unfold format_phone. rewrite Hp. cbn [negb].
  pose proof (all_digits_clean_document p) as Hs.
  change (clean_document p) with (clean_phone p) in Hs.
  destruct (String.length (clean_phone p) =? 11) eqn:H11.
  { apply Nat.eqb_eq in H11. split; [reflexivity|now apply mobile_digits]. }
  destruct (String.length (clean_phone p) =? 10) eqn:H10.
  { apply Nat.eqb_eq in H10. split; [reflexivity|now apply landline_digits]. }
  destruct (truthy_or_empty p Hp) as [He Hn]. split; [exact Hn|].
  change (clean_phone p) with (clean_document p).
  rewrite <- clean_document_some, He. reflexivity.
Qed.

Lemma format_cep_digits (c : option string) :
  truthy c = true ->
  nonempty (format_cep c) = true
  /\ sub_non_digits (format_cep c) = sub_non_digits (or_empty c).
Proof.
  intros Hc. unfold format_cep. rewrite Hc. cbn [negb].
  pose proof (all_digits_sub_non_digits (or_empty c)) as Hs.
  destruct (String.length (sub_non_digits (or_empty c)) =? 8) eqn:H8.
  { apply Nat.eqb_eq in H8. split.
    - apply nonempty_app_cons.
    - now apply cep_digits. }
  destruct (truthy_or_empty c Hc) as [He Hn]. now split.
Qed.

Lemma truthy_some_nonempty (s : string) :
  nonempty s = true -> truthy (Some s) = true.
Proof. now destruct s. Qed.

Lemma not_truthy_cases (v : option string) :
  truthy v = false -> v = None \/ v = Some "".
Proof. destruct v as [[|c s]|]; cbn; intros H; auto; discriminate. Qed.

(** X25. [format_document] keeps the digits of the document, and
    formatting a formatted document changes nothing: whatever the
    input, [clean_document(format_document(d)) == clean_document(d)]
    and [format_document(format_document(d)) == format_document(d)]. *)
Theorem format_document_round_trip (d : option string) :
  clean_document (Some (format_document d)) = clean_document d
  /\ format_document (Some (format_document d)) = format_document d.
Proof.
  destruct (truthy d) eqn:Hd.
  - destruct (format_document_digits d Hd) as [Hn Hdig].
    assert (Hc : clean_document (Some (format_document d)) = clean_document d)
      by now rewrite clean_document_some.
    split; [exact Hc|].
    unfold format_document at 1.
    rewrite (truthy_some_nonempty _ Hn), Hc. cbn [negb or_empty].
    unfold format_document. rewrite Hd. cbn [negb].
    destruct (String.length (clean_document d) =? 11); [reflexivity|].
    destruct (String.length (clean_document d) =? 14); reflexivity.
  - destruct (not_truthy_cases d Hd) as [-> | ->]; now split.
Qed.

(** X26. [format_phone] and [format_cep] keep the digits of their input
    and are idempotent, for every input string. *)
Theorem format_phone_and_cep_round_trip (v : option string) :
  (clean_phone (Some (format_phone v)) = clean_phone v
   /\ format_phone (Some (format_phone v)) = format_phone v)
  /\ (sub_non_digits (format_cep v) = sub_non_digits (or_empty v)
      /\ format_cep (Some (format_cep v)) = format_cep v).
Proof.
  destruct (truthy v) eqn:Hv.
  - split.
    + destruct (format_phone_digits v Hv) as [Hn Hdig].
      assert (Hc : clean_phone (Some (format_phone v)) = clean_phone v).
      { change (clean_phone (Some (format_phone v)))
          with (clean_document (Some (format_phone v))).
        now rewrite clean_document_some. }
      split; [exact Hc|].
      unfold format_phone at 1.
      rewrite (truthy_some_nonempty _ Hn), Hc. cbn [negb or_empty].
      unfold format_phone. rewrite Hv. cbn [negb].
      destruct (String.length (clean_phone v) =? 11); [reflexivity|].
      destruct (String.length (clean_phone v) =? 10); reflexivity.
    + destruct (format_cep_digits v Hv) as [Hn Hdig].
      split; [exact Hdig|].
      unfold format_cep at 1.
      rewrite (truthy_some_nonempty _ Hn). cbn [negb or_empty]. rewrite Hdig.
      unfold format_cep. rewrite Hv. cbn [negb].
      destruct (String.length (sub_non_digits (or_empty v)) =? 8); reflexivity.
  - destruct (not_truthy_cases v Hv) as [-> | ->]; repeat split.
Qed.

(** ** [truncate_text] *)

Lemma length_append (x y : string) :
  String.length (x ++ y) = String.length x + String.length y.
Proof. induction x as [|c x IH]; cbn; [reflexivity|now rewrite IH]. Qed.

Lemma length_prefix (s : string) (k : nat) :
  String.length (substring 0 k s) = Nat.min k (String.length s).
Proof.
  revert k. induction s as [|c s IH]; intros [|k]; cbn; try reflexivity.
  now rewrite IH.
Qed.

Lemma length_truncated (text : string) (max_length : Z) :
  (max_length < Z.of_nat (String.length text))%Z ->
  Z.of_nat (String.length (slice_to text (max_length - 3) ++ "..."))
  = ((if max_length - 3 <? 0
      then Z.max (Z.of_nat (String.length text) + (max_length - 3)) 0
      else max_length - 3) + 3)%Z.
Proof.
  intros Hlong. rewrite length_append, Nat2Z.inj_add.
  unfold slice_to. rewrite length_prefix.
  change (Z.of_nat (String.length "...")) with 3%Z.
  destruct (max_length - 3 <? 0)%Z eqn:Hneg.
  - apply Z.ltb_lt in Hneg. lia.
  - apply Z.ltb_ge in Hneg. lia.
Qed.

(** X27. With a limit of at least 3, [truncate_text] never returns more
    than [max_length] characters. *)
Theorem truncate_text_fits (text : option string) (max_length : Z) :
  (3 <= max_length)%Z ->
  (Z.of_nat (String.length (truncate_text text max_length)) <= max_length)%Z.
Proof.
  intros Hmax. unfold truncate_text.
  destruct (truthy text); cbn [negb]; [|cbn; lia].
  destruct (Z.of_nat (String.length (or_empty text)) <=? max_length)%Z eqn:Hle.
  - now apply Z.leb_le in Hle.
  - apply Z.leb_gt in Hle. rewrite (length_truncated _ _ Hle).
    destruct (max_length - 3 <? 0)%Z eqn:Hneg; [apply Z.ltb_lt in Hneg|]; lia.
Qed.

Lemma truncate_text_fits_witness :
  (3 <= 8)%Z
  /\ (Z.of_nat (String.length (truncate_text (Some "Ana Silva Santos") 8)) <= 8)%Z.
Proof.
  split; [lia|].
  apply (truncate_text_fits (Some "Ana Silva Santos") 8). lia.
Defined.

(** X28. With a limit below 3, [truncate_text] does not shorten a text
    that is too long down to the limit: the result is longer than
    [max_length], because the three dots are always appended and a
    negative slice bound counts from the end. *)
Theorem truncate_text_small_limit_overflows (text : string) (max_length : Z) :
  (max_length < 3)%Z ->
  (max_length < Z.of_nat (String.length text))%Z ->
  (max_length < Z.of_nat (String.length (truncate_text (Some text) max_length)))%Z.
Proof.
  intros Hsmall Hlong. unfold truncate_text.
  destruct text as [|c s]; [exact Hlong|].
  cbn [truthy negb or_empty].
  destruct (Z.of_nat (String.length (String c s)) <=? max_length)%Z eqn:Hle.
  - apply Z.leb_le in Hle. lia.
  - rewrite (length_truncated _ _ Hlong).
    destruct (max_length - 3 <? 0)%Z eqn:Hneg; [|apply Z.ltb_ge in Hneg]; lia.
Qed.

Lemma truncate_text_small_limit_overflows_witness :
  (2 < 3)%Z
  /\ (2 < Z.of_nat (String.length "abcdefghij"))%Z
  /\ (2 < Z.of_nat (String.length (truncate_text (Some "abcdefghij") 2)))%Z.
Proof.
  split; [lia|]. split; [cbn; lia|].
  apply (truncate_text_small_limit_overflows "abcdefghij" 2); cbn; lia.
Defined.

(** ** The merge validator and the matcher *)

Lemma critical_document_conflict (existing new : CustomerData) :
  truthy (documento existing) = true -> truthy (documento new) = true ->
  opt_eqb (documento existing) (documento new) = false ->
  fst (validate_merge_operation existing new) = false.
Proof.
  intros He Hn Hneq.
  unfold validate_merge_operation, _check_critical_conflicts.
  rewrite He, Hn, Hneq. cbn [andb negb app].
  destruct (truthy (email existing) && truthy (email new)
            && negb (opt_eqb (email existing) (email new))); [|reflexivity].
  destruct (nonempty (email_domain (or_empty (email existing)))
            && nonempty (email_domain (or_empty (email new)))
            && negb (String.eqb (email_domain (or_empty (email existing)))
                       (email_domain (or_empty (email new)))));
    reflexivity.
Qed.

Lemma opt_eqb_eq (x y : option string) : opt_eqb x y = true -> x = y.
Proof.
  destruct x as [a|], y as [b|]; cbn; intros H; try discriminate;
    [apply String.eqb_eq in H; now subst|reflexivity].
Qed.

(** X29. Whenever the matcher reports a document conflict between two
    records, [validate_merge_operation] refuses to merge them. *)
Theorem document_conflict_blocks_merge (self : CustomerMatcher)
    (existing new : CustomerData) :
  snd (_check_document_match self (documento existing) (documento new)) <> [] ->
  fst (validate_merge_operation existing new) = false.
Proof.
  unfold _check_document_match. intros H.
  destruct (truthy (documento existing)) eqn:He;
    [|exfalso; apply H; reflexivity].
  destruct (truthy (documento new)) eqn:Hn;
    [|exfalso; apply H; reflexivity].
  cbn [negb orb] in H.
  destruct (opt_eqb (documento existing) (documento new)) eqn:Heq.
  - exfalso. apply opt_eqb_eq in Heq. rewrite Heq in H.
    rewrite String.eqb_refl in H. cbn [andb negb] in H.
    destruct (nonempty (normalize_document (documento new)));
      cbn [andb snd] in H; apply H; reflexivity.
  - now apply critical_document_conflict.
Qed.

Lemma document_conflict_blocks_merge_witness :
  snd (_check_document_match (CustomerMatcher_init None)
         (documento ana_existing) (documento ana_incoming)) <> []
  /\ fst (validate_merge_operation ana_existing ana_incoming) = false.
Proof.
  split; [discriminate|].
  apply (document_conflict_blocks_merge (CustomerMatcher_init None)
           ana_existing ana_incoming).
  discriminate.
Defined.

(** X30. The validator compares documents as written, the matcher
    compares their digits.  A stored document and the same document in
    display format, when formatting changed the text, score the full
    document weight without conflict in the matcher and are refused
    as a critical conflict by [validate_merge_operation]. *)
Theorem reformatted_document_matches_but_blocks_merge (self : CustomerMatcher)
    (existing new : CustomerData) :
  documento new = Some (format_document (documento existing)) ->
  format_document (documento existing) <> or_empty (documento existing) ->
  _check_document_match self (documento existing) (documento new)
  = (w_documento (weights self), [])
  /\ fst (validate_merge_operation existing new) = false.
Proof.
  intros Hnew Hdiff.
  assert (Hd : truthy (documento existing) = true).
  { destruct (truthy (documento existing)) eqn:Hd; [reflexivity|].
    exfalso. apply Hdiff.
    destruct (not_truthy_cases _ Hd) as [-> | ->]; reflexivity. }
  destruct (format_document_digits _ Hd) as [Hf Hdig].
  destruct (truthy_or_empty _ Hd) as [He Hne].
  assert (Hlen : nonempty (normalize_document (documento existing)) = true).
  { rewrite <- clean_document_eq.
    unfold format_document in Hdiff. rewrite Hd in Hdiff. cbn [negb] in Hdiff.
    destruct (clean_document (documento existing)) as [|c s];
      [|reflexivity].
    exfalso. apply Hdiff. reflexivity. }
  split.
  - rewrite Hnew. unfold _check_document_match.
    rewrite Hd, (truthy_some_nonempty _ Hf). cbn [negb orb].
    rewrite <- !clean_document_eq, clean_document_some, Hdig.
    rewrite String.eqb_refl, clean_document_eq, Hlen. reflexivity.
  - apply critical_document_conflict; [exact Hd| |].
    + rewrite Hnew. now apply truthy_some_nonempty.
    + rewrite Hnew. clear He Hne Hlen Hdig Hf Hnew.
      destruct (documento existing) as [x|]; [|discriminate Hd].
      cbn [opt_eqb or_empty] in *.
      apply String.eqb_neq. intros Heq. apply Hdiff. now symmetry.
Qed.

Lemma reformatted_document_matches_but_blocks_merge_witness :
  documento ana_existing = Some (format_document (documento ana_bare))
  /\ format_document (documento ana_bare) <> or_empty (documento ana_bare)
  /\ _check_document_match (CustomerMatcher_init None)
       (documento ana_bare) (documento ana_existing)
     = (w_documento (weights (CustomerMatcher_init None)), [])
  /\ fst (validate_merge_operation ana_bare ana_existing) = false.
Proof.
  split; [reflexivity|]. split; [discriminate|].
  apply (reformatted_document_matches_but_blocks_merge
           (CustomerMatcher_init None) ana_bare ana_existing);
    [reflexivity|discriminate].
Defined.
